(** * CryptoMiniSat: the per-worker CDCL engine ([CommandControl]), the
      subsumption helpers of [Simplifier] and the option names of
      [ak_program_options], embedded and verified.

    Sources embedded here:
    - [src/Solver/CommandControl.cpp]
    - [src/Solver/Simplifier.h]
    - [src/src/ak_program_options/option_description.cpp]

    Vectors are lists; a read or a write outside a vector is undefined in
    C++ and is the failure [OutOfRange] here.  A failing [assert] is the
    failure [AssertFailed].  Literals and variables are the unsigned
    integers of the source, as [N]. *)

From stdpp Require Import base list numbers strings gmap.
From Stdlib Require Import NArith ZArith Lia Ascii.

Local Open Scope N_scope.

(** ** Outcomes *)

Inductive Err : Type :=
| AssertFailed (what : string)
| OutOfRange
| OutOfFuel.

Inductive Res (A : Type) : Type :=
| Ok (a : A)
| Fail (e : Err).

Arguments Ok {A} a.
Arguments Fail {A} e.

Definition rbind {A B} (r : Res A) (k : A -> Res B) : Res B :=
  match r with
  | Ok a => k a
  | Fail e => Fail e
  end.

Notation "'try' x := r 'in' k" := (rbind r (fun x => k))
  (at level 10, x name, r at level 100, k at level 200, only parsing).

(** ** Vectors *)

Definition vget {A} (v : list A) (i : N) : Res A :=
  match v !! N.to_nat i with
  | Some a => Ok a
  | None => Fail OutOfRange
  end.

Definition vset {A} (v : list A) (i : N) (a : A) : Res (list A) :=
  if decide (N.to_nat i < length v)%nat
  then Ok (<[N.to_nat i := a]> v)
  else Fail OutOfRange.

(** ** Literals (SolverTypes.h is not part of the sources; the encoding is the
       one the code relies on: the sign is bit 0, [~p] flips it, [var] drops it) *)

Definition Var := N.

Record Lit : Type := toLit { toInt : N }.

#[global] Instance Lit_eq_dec : EqDecision Lit.
Proof. solve_decision. Defined.

Definition var (p : Lit) : Var := N.shiftr (toInt p) 1.
Definition sign (p : Lit) : bool := N.testbit (toInt p) 0.
Definition neg (p : Lit) : Lit := toLit (N.lxor (toInt p) 1).
Definition mkLit (v : Var) (s : bool) : Lit := toLit (v + v + (if s then 1 else 0)).

Definition var_Undef : Var := N.shiftr 4294967295 1.
Definition lit_Undef : Lit := mkLit var_Undef false.

(** ** Simplifier::subset *)

Module Simplifier.

(** [for (i = 0; i != B.size(); i++) seen[B[i].toInt()] = v;] *)
Fixpoint mark (B : list Lit) (v : bool) (seen : list bool) : Res (list bool) :=
  match B with
  | [] => Ok seen
  | b :: B' => try seen' := vset seen (toInt b) v in mark B' v seen'
  end.

(** The loop over [A], with its early exit; both exits clear [seen] on [B]. *)
Fixpoint subset_scan (A B : list Lit) (seen : list bool) : Res (bool * list bool) :=
  match A with
  | [] => try seen' := mark B false seen in Ok (true, seen')
  | a :: A' =>
      try s := vget seen (toInt a) in
      if s then subset_scan A' B seen
      else try seen' := mark B false seen in Ok (false, seen')
  end.

Definition subset (A B : list Lit) (seen : list bool) : Res (bool * list bool) :=
  try seen1 := mark B true seen in
  subset_scan A B seen1.

End Simplifier.

(** ** Solver types

    SolverTypes.h, PropBy.h, Watched.h, Clause.h and SolverConf.h are not part
    of the sources; the types below carry the constructors and getters that
    CommandControl.cpp uses, and the data model of the specification
    (three-valued values; reasons None, Binary, Ternary, LongClause; watch
    entries BinaryWatch, TernaryWatch, LongWatch). *)

Inductive lbool : Type := l_True | l_False | l_Undef.

#[global] Instance lbool_eq_dec : EqDecision lbool.
Proof. solve_decision. Defined.

Definition boolToLBool (b : bool) : lbool := if b then l_True else l_False.

(** [assigns[v] ^ sign], as in [MyAttachSorter]. *)
Definition lbool_xor (a : lbool) (s : bool) : lbool :=
  match a with
  | l_True => if s then l_False else l_True
  | l_False => if s then l_True else l_False
  | l_Undef => l_Undef
  end.

Definition ClauseOffset := N.

(** [PropBy]: its [getType()] is one of [null_clause_t], [binary_t],
    [tertiary_t], [clause_t]. *)
Inductive PropBy : Type :=
| null_clause_t
| binary_t (otherLit : Lit)
| tertiary_t (otherLit otherLit2 : Lit)
| clause_t (offset : ClauseOffset) (watchNum : N).

#[global] Instance PropBy_eq_dec : EqDecision PropBy.
Proof. solve_decision. Defined.

Definition isNULL (c : PropBy) : bool :=
  match c with null_clause_t => true | _ => false end.

Inductive Watched : Type :=
| BinaryWatch (otherLit : Lit) (learnt : bool)
| TriWatch (otherLit otherLit2 : Lit)
| LongWatch (offset : ClauseOffset) (blocker : Lit).

Record VarData : Type := mkVarData {
  level : N;
  reason : PropBy;
  polarity : bool
}.

Definition set_level (l : N) (d : VarData) : VarData :=
  {| level := l; reason := reason d; polarity := polarity d |}.
Definition set_reason (r : PropBy) (d : VarData) : VarData :=
  {| level := level d; reason := r; polarity := polarity d |}.

Record Clause : Type := mkClause {
  lits : list Lit;
  getNum : N
}.

(** [clauseData[num].litPos[w]], [w] being 0 or 1. *)
Record ClauseData : Type := mkClauseData {
  litPos : list N
}.

Record BinaryClause : Type := mkBinaryClause {
  getLit1 : Lit;
  getLit2 : Lit;
  getLearnt : bool
}.

(** The options of [SolverConf] that the embedded code reads as such; the
    [double] options are read by the functions taken as parameters. *)
Record SolverConf : Type := mkConf {
  doCache : bool;
  doMinimLearntMore : bool;
  doAlwaysFMinim : bool;
  doPrintConflDot : bool;
  verbosity : N
}.

(** The members of the shared [ThreadControl] that the worker reads. *)
Record ThreadControl : Type := mkControl {
  decision_var : list bool;
  implCache : list (list Lit);
  litReachable : list Lit;
  longLearntsToAdd : list ClauseOffset;
  binLearntsToAdd : list BinaryClause;
  unitLearntsToAdd : list Lit;
  nextCleanLimit : N
}.

Record SearchFuncParams : Type := mkParams {
  needToStopSearch : bool;
  update : bool;
  conflictsDoneThisRestart : N;
  conflictsToDo : N
}.

(** Unsigned counters wrap around. *)
Definition wrap32 (n : N) : N := n mod 2 ^ 32.
Definition wrap64 (n : N) : N := n mod 2 ^ 64.

(** ** The worker's state

    The members of [CommandControl] and of its base class [Solver] that the
    embedded functions read or write, under the names the code uses; the
    declarations (CommandControl.h, Solver.h) are not part of the sources.
    [order_heap] keeps the members of the heap, [avgBranchDepth],
    [glueHistory] and [conflSizeHist] keep the values pushed.  [ext] stands
    for the members that only code outside the sources interprets: the
    activities, the random generator and the agility estimator, which
    compute on [double]. *)

Section State.

Context {Ext : Type}.

Record CommandControl : Type := mkCC {
  ok : bool;
  trail : list Lit;
  trail_lim : list N;
  qhead : N;
  assigns : list lbool;
  varData : list VarData;
  seen : list bool;
  toClear : list Lit;
  watches : list (list Watched);
  failBinLit : Lit;
  clAllocator : gmap N Clause;
  clauseData : list ClauseData;
  order_heap : list Var;
  assumptions : list Lit;
  conflict : list Lit;
  unitToAdd : list Lit;
  binToAdd : list BinaryClause;
  longToAdd : list ClauseOffset;
  lastSumConfl : N;
  lastLong : N;
  lastBin : N;
  lastUnit : N;
  numConflicts : N;
  numRestarts : N;
  decisions : N;
  rnd_decisions : N;
  max_literals : N;
  tot_literals : N;
  furtherClMinim : N;
  numShrinkedClause : N;
  numShrinkedClauseLits : N;
  needToInterrupt : bool;
  avgBranchDepth : list N;
  glueHistory : list N;
  conflSizeHist : list N;
  conf : SolverConf;
  control : ThreadControl;
  ext : Ext
}.

Definition set_ok (x : bool) (st : CommandControl) : CommandControl :=
  {| ok := x; trail := trail st; trail_lim := trail_lim st; qhead := qhead st; assigns :=
     assigns st; varData := varData st; seen := seen st; toClear := toClear st; watches :=
     watches st; failBinLit := failBinLit st; clAllocator := clAllocator st; clauseData :=
     clauseData st; order_heap := order_heap st; assumptions := assumptions st; conflict :=
     conflict st; unitToAdd := unitToAdd st; binToAdd := binToAdd st; longToAdd := longToAdd
     st; lastSumConfl := lastSumConfl st; lastLong := lastLong st; lastBin := lastBin st;
     lastUnit := lastUnit st; numConflicts := numConflicts st; numRestarts := numRestarts
     st; decisions := decisions st; rnd_decisions := rnd_decisions st; max_literals :=
     max_literals st; tot_literals := tot_literals st; furtherClMinim := furtherClMinim st;
     numShrinkedClause := numShrinkedClause st; numShrinkedClauseLits :=
     numShrinkedClauseLits st; needToInterrupt := needToInterrupt st; avgBranchDepth :=
     avgBranchDepth st; glueHistory := glueHistory st; conflSizeHist := conflSizeHist st;
     conf := conf st; control := control st; ext := ext st |}.

Definition set_trail (x : list Lit) (st : CommandControl) : CommandControl :=
  {| ok := ok st; trail := x; trail_lim := trail_lim st; qhead := qhead st; assigns :=
     assigns st; varData := varData st; seen := seen st; toClear := toClear st; watches :=
     watches st; failBinLit := failBinLit st; clAllocator := clAllocator st; clauseData :=
     clauseData st; order_heap := order_heap st; assumptions := assumptions st; conflict :=
     conflict st; unitToAdd := unitToAdd st; binToAdd := binToAdd st; longToAdd := longToAdd
     st; lastSumConfl := lastSumConfl st; lastLong := lastLong st; lastBin := lastBin st;
     lastUnit := lastUnit st; numConflicts := numConflicts st; numRestarts := numRestarts
     st; decisions := decisions st; rnd_decisions := rnd_decisions st; max_literals :=
     max_literals st; tot_literals := tot_literals st; furtherClMinim := furtherClMinim st;
     numShrinkedClause := numShrinkedClause st; numShrinkedClauseLits :=
     numShrinkedClauseLits st; needToInterrupt := needToInterrupt st; avgBranchDepth :=
     avgBranchDepth st; glueHistory := glueHistory st; conflSizeHist := conflSizeHist st;
     conf := conf st; control := control st; ext := ext st |}.

Definition set_trail_lim (x : list N) (st : CommandControl) : CommandControl :=
  {| ok := ok st; trail := trail st; trail_lim := x; qhead := qhead st; assigns := assigns
     st; varData := varData st; seen := seen st; toClear := toClear st; watches := watches
     st; failBinLit := failBinLit st; clAllocator := clAllocator st; clauseData :=
     clauseData st; order_heap := order_heap st; assumptions := assumptions st; conflict :=
     conflict st; unitToAdd := unitToAdd st; binToAdd := binToAdd st; longToAdd := longToAdd
     st; lastSumConfl := lastSumConfl st; lastLong := lastLong st; lastBin := lastBin st;
     lastUnit := lastUnit st; numConflicts := numConflicts st; numRestarts := numRestarts
     st; decisions := decisions st; rnd_decisions := rnd_decisions st; max_literals :=
     max_literals st; tot_literals := tot_literals st; furtherClMinim := furtherClMinim st;
     numShrinkedClause := numShrinkedClause st; numShrinkedClauseLits :=
     numShrinkedClauseLits st; needToInterrupt := needToInterrupt st; avgBranchDepth :=
     avgBranchDepth st; glueHistory := glueHistory st; conflSizeHist := conflSizeHist st;
     conf := conf st; control := control st; ext := ext st |}.

Definition set_qhead (x : N) (st : CommandControl) : CommandControl :=
  {| ok := ok st; trail := trail st; trail_lim := trail_lim st; qhead := x; assigns :=
     assigns st; varData := varData st; seen := seen st; toClear := toClear st; watches :=
     watches st; failBinLit := failBinLit st; clAllocator := clAllocator st; clauseData :=
     clauseData st; order_heap := order_heap st; assumptions := assumptions st; conflict :=
     conflict st; unitToAdd := unitToAdd st; binToAdd := binToAdd st; longToAdd := longToAdd
     st; lastSumConfl := lastSumConfl st; lastLong := lastLong st; lastBin := lastBin st;
     lastUnit := lastUnit st; numConflicts := numConflicts st; numRestarts := numRestarts
     st; decisions := decisions st; rnd_decisions := rnd_decisions st; max_literals :=
     max_literals st; tot_literals := tot_literals st; furtherClMinim := furtherClMinim st;
     numShrinkedClause := numShrinkedClause st; numShrinkedClauseLits :=
     numShrinkedClauseLits st; needToInterrupt := needToInterrupt st; avgBranchDepth :=
     avgBranchDepth st; glueHistory := glueHistory st; conflSizeHist := conflSizeHist st;
     conf := conf st; control := control st; ext := ext st |}.

Definition set_assigns (x : list lbool) (st : CommandControl) : CommandControl :=
  {| ok := ok st; trail := trail st; trail_lim := trail_lim st; qhead := qhead st; assigns
     := x; varData := varData st; seen := seen st; toClear := toClear st; watches := watches
     st; failBinLit := failBinLit st; clAllocator := clAllocator st; clauseData :=
     clauseData st; order_heap := order_heap st; assumptions := assumptions st; conflict :=
     conflict st; unitToAdd := unitToAdd st; binToAdd := binToAdd st; longToAdd := longToAdd
     st; lastSumConfl := lastSumConfl st; lastLong := lastLong st; lastBin := lastBin st;
     lastUnit := lastUnit st; numConflicts := numConflicts st; numRestarts := numRestarts
     st; decisions := decisions st; rnd_decisions := rnd_decisions st; max_literals :=
     max_literals st; tot_literals := tot_literals st; furtherClMinim := furtherClMinim st;
     numShrinkedClause := numShrinkedClause st; numShrinkedClauseLits :=
     numShrinkedClauseLits st; needToInterrupt := needToInterrupt st; avgBranchDepth :=
     avgBranchDepth st; glueHistory := glueHistory st; conflSizeHist := conflSizeHist st;
     conf := conf st; control := control st; ext := ext st |}.

Definition set_varData (x : list VarData) (st : CommandControl) : CommandControl :=
  {| ok := ok st; trail := trail st; trail_lim := trail_lim st; qhead := qhead st; assigns
     := assigns st; varData := x; seen := seen st; toClear := toClear st; watches := watches
     st; failBinLit := failBinLit st; clAllocator := clAllocator st; clauseData :=
     clauseData st; order_heap := order_heap st; assumptions := assumptions st; conflict :=
     conflict st; unitToAdd := unitToAdd st; binToAdd := binToAdd st; longToAdd := longToAdd
     st; lastSumConfl := lastSumConfl st; lastLong := lastLong st; lastBin := lastBin st;
     lastUnit := lastUnit st; numConflicts := numConflicts st; numRestarts := numRestarts
     st; decisions := decisions st; rnd_decisions := rnd_decisions st; max_literals :=
     max_literals st; tot_literals := tot_literals st; furtherClMinim := furtherClMinim st;
     numShrinkedClause := numShrinkedClause st; numShrinkedClauseLits :=
     numShrinkedClauseLits st; needToInterrupt := needToInterrupt st; avgBranchDepth :=
     avgBranchDepth st; glueHistory := glueHistory st; conflSizeHist := conflSizeHist st;
     conf := conf st; control := control st; ext := ext st |}.

Definition set_seen (x : list bool) (st : CommandControl) : CommandControl :=
  {| ok := ok st; trail := trail st; trail_lim := trail_lim st; qhead := qhead st; assigns
     := assigns st; varData := varData st; seen := x; toClear := toClear st; watches :=
     watches st; failBinLit := failBinLit st; clAllocator := clAllocator st; clauseData :=
     clauseData st; order_heap := order_heap st; assumptions := assumptions st; conflict :=
     conflict st; unitToAdd := unitToAdd st; binToAdd := binToAdd st; longToAdd := longToAdd
     st; lastSumConfl := lastSumConfl st; lastLong := lastLong st; lastBin := lastBin st;
     lastUnit := lastUnit st; numConflicts := numConflicts st; numRestarts := numRestarts
     st; decisions := decisions st; rnd_decisions := rnd_decisions st; max_literals :=
     max_literals st; tot_literals := tot_literals st; furtherClMinim := furtherClMinim st;
     numShrinkedClause := numShrinkedClause st; numShrinkedClauseLits :=
     numShrinkedClauseLits st; needToInterrupt := needToInterrupt st; avgBranchDepth :=
     avgBranchDepth st; glueHistory := glueHistory st; conflSizeHist := conflSizeHist st;
     conf := conf st; control := control st; ext := ext st |}.

Definition set_toClear (x : list Lit) (st : CommandControl) : CommandControl :=
  {| ok := ok st; trail := trail st; trail_lim := trail_lim st; qhead := qhead st; assigns
     := assigns st; varData := varData st; seen := seen st; toClear := x; watches := watches
     st; failBinLit := failBinLit st; clAllocator := clAllocator st; clauseData :=
     clauseData st; order_heap := order_heap st; assumptions := assumptions st; conflict :=
     conflict st; unitToAdd := unitToAdd st; binToAdd := binToAdd st; longToAdd := longToAdd
     st; lastSumConfl := lastSumConfl st; lastLong := lastLong st; lastBin := lastBin st;
     lastUnit := lastUnit st; numConflicts := numConflicts st; numRestarts := numRestarts
     st; decisions := decisions st; rnd_decisions := rnd_decisions st; max_literals :=
     max_literals st; tot_literals := tot_literals st; furtherClMinim := furtherClMinim st;
     numShrinkedClause := numShrinkedClause st; numShrinkedClauseLits :=
     numShrinkedClauseLits st; needToInterrupt := needToInterrupt st; avgBranchDepth :=
     avgBranchDepth st; glueHistory := glueHistory st; conflSizeHist := conflSizeHist st;
     conf := conf st; control := control st; ext := ext st |}.

Definition set_watches (x : list (list Watched)) (st : CommandControl) : CommandControl :=
  {| ok := ok st; trail := trail st; trail_lim := trail_lim st; qhead := qhead st; assigns
     := assigns st; varData := varData st; seen := seen st; toClear := toClear st; watches
     := x; failBinLit := failBinLit st; clAllocator := clAllocator st; clauseData :=
     clauseData st; order_heap := order_heap st; assumptions := assumptions st; conflict :=
     conflict st; unitToAdd := unitToAdd st; binToAdd := binToAdd st; longToAdd := longToAdd
     st; lastSumConfl := lastSumConfl st; lastLong := lastLong st; lastBin := lastBin st;
     lastUnit := lastUnit st; numConflicts := numConflicts st; numRestarts := numRestarts
     st; decisions := decisions st; rnd_decisions := rnd_decisions st; max_literals :=
     max_literals st; tot_literals := tot_literals st; furtherClMinim := furtherClMinim st;
     numShrinkedClause := numShrinkedClause st; numShrinkedClauseLits :=
     numShrinkedClauseLits st; needToInterrupt := needToInterrupt st; avgBranchDepth :=
     avgBranchDepth st; glueHistory := glueHistory st; conflSizeHist := conflSizeHist st;
     conf := conf st; control := control st; ext := ext st |}.

Definition set_failBinLit (x : Lit) (st : CommandControl) : CommandControl :=
  {| ok := ok st; trail := trail st; trail_lim := trail_lim st; qhead := qhead st; assigns
     := assigns st; varData := varData st; seen := seen st; toClear := toClear st; watches
     := watches st; failBinLit := x; clAllocator := clAllocator st; clauseData := clauseData
     st; order_heap := order_heap st; assumptions := assumptions st; conflict := conflict
     st; unitToAdd := unitToAdd st; binToAdd := binToAdd st; longToAdd := longToAdd st;
     lastSumConfl := lastSumConfl st; lastLong := lastLong st; lastBin := lastBin st;
     lastUnit := lastUnit st; numConflicts := numConflicts st; numRestarts := numRestarts
     st; decisions := decisions st; rnd_decisions := rnd_decisions st; max_literals :=
     max_literals st; tot_literals := tot_literals st; furtherClMinim := furtherClMinim st;
     numShrinkedClause := numShrinkedClause st; numShrinkedClauseLits :=
     numShrinkedClauseLits st; needToInterrupt := needToInterrupt st; avgBranchDepth :=
     avgBranchDepth st; glueHistory := glueHistory st; conflSizeHist := conflSizeHist st;
     conf := conf st; control := control st; ext := ext st |}.

Definition set_clAllocator (x : gmap N Clause) (st : CommandControl) : CommandControl :=
  {| ok := ok st; trail := trail st; trail_lim := trail_lim st; qhead := qhead st; assigns
     := assigns st; varData := varData st; seen := seen st; toClear := toClear st; watches
     := watches st; failBinLit := failBinLit st; clAllocator := x; clauseData := clauseData
     st; order_heap := order_heap st; assumptions := assumptions st; conflict := conflict
     st; unitToAdd := unitToAdd st; binToAdd := binToAdd st; longToAdd := longToAdd st;
     lastSumConfl := lastSumConfl st; lastLong := lastLong st; lastBin := lastBin st;
     lastUnit := lastUnit st; numConflicts := numConflicts st; numRestarts := numRestarts
     st; decisions := decisions st; rnd_decisions := rnd_decisions st; max_literals :=
     max_literals st; tot_literals := tot_literals st; furtherClMinim := furtherClMinim st;
     numShrinkedClause := numShrinkedClause st; numShrinkedClauseLits :=
     numShrinkedClauseLits st; needToInterrupt := needToInterrupt st; avgBranchDepth :=
     avgBranchDepth st; glueHistory := glueHistory st; conflSizeHist := conflSizeHist st;
     conf := conf st; control := control st; ext := ext st |}.

Definition set_clauseData (x : list ClauseData) (st : CommandControl) : CommandControl :=
  {| ok := ok st; trail := trail st; trail_lim := trail_lim st; qhead := qhead st; assigns
     := assigns st; varData := varData st; seen := seen st; toClear := toClear st; watches
     := watches st; failBinLit := failBinLit st; clAllocator := clAllocator st; clauseData
     := x; order_heap := order_heap st; assumptions := assumptions st; conflict := conflict
     st; unitToAdd := unitToAdd st; binToAdd := binToAdd st; longToAdd := longToAdd st;
     lastSumConfl := lastSumConfl st; lastLong := lastLong st; lastBin := lastBin st;
     lastUnit := lastUnit st; numConflicts := numConflicts st; numRestarts := numRestarts
     st; decisions := decisions st; rnd_decisions := rnd_decisions st; max_literals :=
     max_literals st; tot_literals := tot_literals st; furtherClMinim := furtherClMinim st;
     numShrinkedClause := numShrinkedClause st; numShrinkedClauseLits :=
     numShrinkedClauseLits st; needToInterrupt := needToInterrupt st; avgBranchDepth :=
     avgBranchDepth st; glueHistory := glueHistory st; conflSizeHist := conflSizeHist st;
     conf := conf st; control := control st; ext := ext st |}.

Definition set_order_heap (x : list Var) (st : CommandControl) : CommandControl :=
  {| ok := ok st; trail := trail st; trail_lim := trail_lim st; qhead := qhead st; assigns
     := assigns st; varData := varData st; seen := seen st; toClear := toClear st; watches
     := watches st; failBinLit := failBinLit st; clAllocator := clAllocator st; clauseData
     := clauseData st; order_heap := x; assumptions := assumptions st; conflict := conflict
     st; unitToAdd := unitToAdd st; binToAdd := binToAdd st; longToAdd := longToAdd st;
     lastSumConfl := lastSumConfl st; lastLong := lastLong st; lastBin := lastBin st;
     lastUnit := lastUnit st; numConflicts := numConflicts st; numRestarts := numRestarts
     st; decisions := decisions st; rnd_decisions := rnd_decisions st; max_literals :=
     max_literals st; tot_literals := tot_literals st; furtherClMinim := furtherClMinim st;
     numShrinkedClause := numShrinkedClause st; numShrinkedClauseLits :=
     numShrinkedClauseLits st; needToInterrupt := needToInterrupt st; avgBranchDepth :=
     avgBranchDepth st; glueHistory := glueHistory st; conflSizeHist := conflSizeHist st;
     conf := conf st; control := control st; ext := ext st |}.

Definition set_assumptions (x : list Lit) (st : CommandControl) : CommandControl :=
  {| ok := ok st; trail := trail st; trail_lim := trail_lim st; qhead := qhead st; assigns
     := assigns st; varData := varData st; seen := seen st; toClear := toClear st; watches
     := watches st; failBinLit := failBinLit st; clAllocator := clAllocator st; clauseData
     := clauseData st; order_heap := order_heap st; assumptions := x; conflict := conflict
     st; unitToAdd := unitToAdd st; binToAdd := binToAdd st; longToAdd := longToAdd st;
     lastSumConfl := lastSumConfl st; lastLong := lastLong st; lastBin := lastBin st;
     lastUnit := lastUnit st; numConflicts := numConflicts st; numRestarts := numRestarts
     st; decisions := decisions st; rnd_decisions := rnd_decisions st; max_literals :=
     max_literals st; tot_literals := tot_literals st; furtherClMinim := furtherClMinim st;
     numShrinkedClause := numShrinkedClause st; numShrinkedClauseLits :=
     numShrinkedClauseLits st; needToInterrupt := needToInterrupt st; avgBranchDepth :=
     avgBranchDepth st; glueHistory := glueHistory st; conflSizeHist := conflSizeHist st;
     conf := conf st; control := control st; ext := ext st |}.

Definition set_conflict (x : list Lit) (st : CommandControl) : CommandControl :=
  {| ok := ok st; trail := trail st; trail_lim := trail_lim st; qhead := qhead st; assigns
     := assigns st; varData := varData st; seen := seen st; toClear := toClear st; watches
     := watches st; failBinLit := failBinLit st; clAllocator := clAllocator st; clauseData
     := clauseData st; order_heap := order_heap st; assumptions := assumptions st; conflict
     := x; unitToAdd := unitToAdd st; binToAdd := binToAdd st; longToAdd := longToAdd st;
     lastSumConfl := lastSumConfl st; lastLong := lastLong st; lastBin := lastBin st;
     lastUnit := lastUnit st; numConflicts := numConflicts st; numRestarts := numRestarts
     st; decisions := decisions st; rnd_decisions := rnd_decisions st; max_literals :=
     max_literals st; tot_literals := tot_literals st; furtherClMinim := furtherClMinim st;
     numShrinkedClause := numShrinkedClause st; numShrinkedClauseLits :=
     numShrinkedClauseLits st; needToInterrupt := needToInterrupt st; avgBranchDepth :=
     avgBranchDepth st; glueHistory := glueHistory st; conflSizeHist := conflSizeHist st;
     conf := conf st; control := control st; ext := ext st |}.

Definition set_unitToAdd (x : list Lit) (st : CommandControl) : CommandControl :=
  {| ok := ok st; trail := trail st; trail_lim := trail_lim st; qhead := qhead st; assigns
     := assigns st; varData := varData st; seen := seen st; toClear := toClear st; watches
     := watches st; failBinLit := failBinLit st; clAllocator := clAllocator st; clauseData
     := clauseData st; order_heap := order_heap st; assumptions := assumptions st; conflict
     := conflict st; unitToAdd := x; binToAdd := binToAdd st; longToAdd := longToAdd st;
     lastSumConfl := lastSumConfl st; lastLong := lastLong st; lastBin := lastBin st;
     lastUnit := lastUnit st; numConflicts := numConflicts st; numRestarts := numRestarts
     st; decisions := decisions st; rnd_decisions := rnd_decisions st; max_literals :=
     max_literals st; tot_literals := tot_literals st; furtherClMinim := furtherClMinim st;
     numShrinkedClause := numShrinkedClause st; numShrinkedClauseLits :=
     numShrinkedClauseLits st; needToInterrupt := needToInterrupt st; avgBranchDepth :=
     avgBranchDepth st; glueHistory := glueHistory st; conflSizeHist := conflSizeHist st;
     conf := conf st; control := control st; ext := ext st |}.

Definition set_binToAdd (x : list BinaryClause) (st : CommandControl) : CommandControl :=
  {| ok := ok st; trail := trail st; trail_lim := trail_lim st; qhead := qhead st; assigns
     := assigns st; varData := varData st; seen := seen st; toClear := toClear st; watches
     := watches st; failBinLit := failBinLit st; clAllocator := clAllocator st; clauseData
     := clauseData st; order_heap := order_heap st; assumptions := assumptions st; conflict
     := conflict st; unitToAdd := unitToAdd st; binToAdd := x; longToAdd := longToAdd st;
     lastSumConfl := lastSumConfl st; lastLong := lastLong st; lastBin := lastBin st;
     lastUnit := lastUnit st; numConflicts := numConflicts st; numRestarts := numRestarts
     st; decisions := decisions st; rnd_decisions := rnd_decisions st; max_literals :=
     max_literals st; tot_literals := tot_literals st; furtherClMinim := furtherClMinim st;
     numShrinkedClause := numShrinkedClause st; numShrinkedClauseLits :=
     numShrinkedClauseLits st; needToInterrupt := needToInterrupt st; avgBranchDepth :=
     avgBranchDepth st; glueHistory := glueHistory st; conflSizeHist := conflSizeHist st;
     conf := conf st; control := control st; ext := ext st |}.

Definition set_longToAdd (x : list ClauseOffset) (st : CommandControl) : CommandControl :=
  {| ok := ok st; trail := trail st; trail_lim := trail_lim st; qhead := qhead st; assigns
     := assigns st; varData := varData st; seen := seen st; toClear := toClear st; watches
     := watches st; failBinLit := failBinLit st; clAllocator := clAllocator st; clauseData
     := clauseData st; order_heap := order_heap st; assumptions := assumptions st; conflict
     := conflict st; unitToAdd := unitToAdd st; binToAdd := binToAdd st; longToAdd := x;
     lastSumConfl := lastSumConfl st; lastLong := lastLong st; lastBin := lastBin st;
     lastUnit := lastUnit st; numConflicts := numConflicts st; numRestarts := numRestarts
     st; decisions := decisions st; rnd_decisions := rnd_decisions st; max_literals :=
     max_literals st; tot_literals := tot_literals st; furtherClMinim := furtherClMinim st;
     numShrinkedClause := numShrinkedClause st; numShrinkedClauseLits :=
     numShrinkedClauseLits st; needToInterrupt := needToInterrupt st; avgBranchDepth :=
     avgBranchDepth st; glueHistory := glueHistory st; conflSizeHist := conflSizeHist st;
     conf := conf st; control := control st; ext := ext st |}.

Definition set_lastSumConfl (x : N) (st : CommandControl) : CommandControl :=
  {| ok := ok st; trail := trail st; trail_lim := trail_lim st; qhead := qhead st; assigns
     := assigns st; varData := varData st; seen := seen st; toClear := toClear st; watches
     := watches st; failBinLit := failBinLit st; clAllocator := clAllocator st; clauseData
     := clauseData st; order_heap := order_heap st; assumptions := assumptions st; conflict
     := conflict st; unitToAdd := unitToAdd st; binToAdd := binToAdd st; longToAdd :=
     longToAdd st; lastSumConfl := x; lastLong := lastLong st; lastBin := lastBin st;
     lastUnit := lastUnit st; numConflicts := numConflicts st; numRestarts := numRestarts
     st; decisions := decisions st; rnd_decisions := rnd_decisions st; max_literals :=
     max_literals st; tot_literals := tot_literals st; furtherClMinim := furtherClMinim st;
     numShrinkedClause := numShrinkedClause st; numShrinkedClauseLits :=
     numShrinkedClauseLits st; needToInterrupt := needToInterrupt st; avgBranchDepth :=
     avgBranchDepth st; glueHistory := glueHistory st; conflSizeHist := conflSizeHist st;
     conf := conf st; control := control st; ext := ext st |}.

Definition set_lastLong (x : N) (st : CommandControl) : CommandControl :=
  {| ok := ok st; trail := trail st; trail_lim := trail_lim st; qhead := qhead st; assigns
     := assigns st; varData := varData st; seen := seen st; toClear := toClear st; watches
     := watches st; failBinLit := failBinLit st; clAllocator := clAllocator st; clauseData
     := clauseData st; order_heap := order_heap st; assumptions := assumptions st; conflict
     := conflict st; unitToAdd := unitToAdd st; binToAdd := binToAdd st; longToAdd :=
     longToAdd st; lastSumConfl := lastSumConfl st; lastLong := x; lastBin := lastBin st;
     lastUnit := lastUnit st; numConflicts := numConflicts st; numRestarts := numRestarts
     st; decisions := decisions st; rnd_decisions := rnd_decisions st; max_literals :=
     max_literals st; tot_literals := tot_literals st; furtherClMinim := furtherClMinim st;
     numShrinkedClause := numShrinkedClause st; numShrinkedClauseLits :=
     numShrinkedClauseLits st; needToInterrupt := needToInterrupt st; avgBranchDepth :=
     avgBranchDepth st; glueHistory := glueHistory st; conflSizeHist := conflSizeHist st;
     conf := conf st; control := control st; ext := ext st |}.

Definition set_lastBin (x : N) (st : CommandControl) : CommandControl :=
  {| ok := ok st; trail := trail st; trail_lim := trail_lim st; qhead := qhead st; assigns
     := assigns st; varData := varData st; seen := seen st; toClear := toClear st; watches
     := watches st; failBinLit := failBinLit st; clAllocator := clAllocator st; clauseData
     := clauseData st; order_heap := order_heap st; assumptions := assumptions st; conflict
     := conflict st; unitToAdd := unitToAdd st; binToAdd := binToAdd st; longToAdd :=
     longToAdd st; lastSumConfl := lastSumConfl st; lastLong := lastLong st; lastBin := x;
     lastUnit := lastUnit st; numConflicts := numConflicts st; numRestarts := numRestarts
     st; decisions := decisions st; rnd_decisions := rnd_decisions st; max_literals :=
     max_literals st; tot_literals := tot_literals st; furtherClMinim := furtherClMinim st;
     numShrinkedClause := numShrinkedClause st; numShrinkedClauseLits :=
     numShrinkedClauseLits st; needToInterrupt := needToInterrupt st; avgBranchDepth :=
     avgBranchDepth st; glueHistory := glueHistory st; conflSizeHist := conflSizeHist st;
     conf := conf st; control := control st; ext := ext st |}.

Definition set_lastUnit (x : N) (st : CommandControl) : CommandControl :=
  {| ok := ok st; trail := trail st; trail_lim := trail_lim st; qhead := qhead st; assigns
     := assigns st; varData := varData st; seen := seen st; toClear := toClear st; watches
     := watches st; failBinLit := failBinLit st; clAllocator := clAllocator st; clauseData
     := clauseData st; order_heap := order_heap st; assumptions := assumptions st; conflict
     := conflict st; unitToAdd := unitToAdd st; binToAdd := binToAdd st; longToAdd :=
     longToAdd st; lastSumConfl := lastSumConfl st; lastLong := lastLong st; lastBin :=
     lastBin st; lastUnit := x; numConflicts := numConflicts st; numRestarts := numRestarts
     st; decisions := decisions st; rnd_decisions := rnd_decisions st; max_literals :=
     max_literals st; tot_literals := tot_literals st; furtherClMinim := furtherClMinim st;
     numShrinkedClause := numShrinkedClause st; numShrinkedClauseLits :=
     numShrinkedClauseLits st; needToInterrupt := needToInterrupt st; avgBranchDepth :=
     avgBranchDepth st; glueHistory := glueHistory st; conflSizeHist := conflSizeHist st;
     conf := conf st; control := control st; ext := ext st |}.

Definition set_numConflicts (x : N) (st : CommandControl) : CommandControl :=
  {| ok := ok st; trail := trail st; trail_lim := trail_lim st; qhead := qhead st; assigns
     := assigns st; varData := varData st; seen := seen st; toClear := toClear st; watches
     := watches st; failBinLit := failBinLit st; clAllocator := clAllocator st; clauseData
     := clauseData st; order_heap := order_heap st; assumptions := assumptions st; conflict
     := conflict st; unitToAdd := unitToAdd st; binToAdd := binToAdd st; longToAdd :=
     longToAdd st; lastSumConfl := lastSumConfl st; lastLong := lastLong st; lastBin :=
     lastBin st; lastUnit := lastUnit st; numConflicts := x; numRestarts := numRestarts st;
     decisions := decisions st; rnd_decisions := rnd_decisions st; max_literals :=
     max_literals st; tot_literals := tot_literals st; furtherClMinim := furtherClMinim st;
     numShrinkedClause := numShrinkedClause st; numShrinkedClauseLits :=
     numShrinkedClauseLits st; needToInterrupt := needToInterrupt st; avgBranchDepth :=
     avgBranchDepth st; glueHistory := glueHistory st; conflSizeHist := conflSizeHist st;
     conf := conf st; control := control st; ext := ext st |}.

Definition set_numRestarts (x : N) (st : CommandControl) : CommandControl :=
  {| ok := ok st; trail := trail st; trail_lim := trail_lim st; qhead := qhead st; assigns
     := assigns st; varData := varData st; seen := seen st; toClear := toClear st; watches
     := watches st; failBinLit := failBinLit st; clAllocator := clAllocator st; clauseData
     := clauseData st; order_heap := order_heap st; assumptions := assumptions st; conflict
     := conflict st; unitToAdd := unitToAdd st; binToAdd := binToAdd st; longToAdd :=
     longToAdd st; lastSumConfl := lastSumConfl st; lastLong := lastLong st; lastBin :=
     lastBin st; lastUnit := lastUnit st; numConflicts := numConflicts st; numRestarts := x;
     decisions := decisions st; rnd_decisions := rnd_decisions st; max_literals :=
     max_literals st; tot_literals := tot_literals st; furtherClMinim := furtherClMinim st;
     numShrinkedClause := numShrinkedClause st; numShrinkedClauseLits :=
     numShrinkedClauseLits st; needToInterrupt := needToInterrupt st; avgBranchDepth :=
     avgBranchDepth st; glueHistory := glueHistory st; conflSizeHist := conflSizeHist st;
     conf := conf st; control := control st; ext := ext st |}.

Definition set_decisions (x : N) (st : CommandControl) : CommandControl :=
  {| ok := ok st; trail := trail st; trail_lim := trail_lim st; qhead := qhead st; assigns
     := assigns st; varData := varData st; seen := seen st; toClear := toClear st; watches
     := watches st; failBinLit := failBinLit st; clAllocator := clAllocator st; clauseData
     := clauseData st; order_heap := order_heap st; assumptions := assumptions st; conflict
     := conflict st; unitToAdd := unitToAdd st; binToAdd := binToAdd st; longToAdd :=
     longToAdd st; lastSumConfl := lastSumConfl st; lastLong := lastLong st; lastBin :=
     lastBin st; lastUnit := lastUnit st; numConflicts := numConflicts st; numRestarts :=
     numRestarts st; decisions := x; rnd_decisions := rnd_decisions st; max_literals :=
     max_literals st; tot_literals := tot_literals st; furtherClMinim := furtherClMinim st;
     numShrinkedClause := numShrinkedClause st; numShrinkedClauseLits :=
     numShrinkedClauseLits st; needToInterrupt := needToInterrupt st; avgBranchDepth :=
     avgBranchDepth st; glueHistory := glueHistory st; conflSizeHist := conflSizeHist st;
     conf := conf st; control := control st; ext := ext st |}.

Definition set_rnd_decisions (x : N) (st : CommandControl) : CommandControl :=
  {| ok := ok st; trail := trail st; trail_lim := trail_lim st; qhead := qhead st; assigns
     := assigns st; varData := varData st; seen := seen st; toClear := toClear st; watches
     := watches st; failBinLit := failBinLit st; clAllocator := clAllocator st; clauseData
     := clauseData st; order_heap := order_heap st; assumptions := assumptions st; conflict
     := conflict st; unitToAdd := unitToAdd st; binToAdd := binToAdd st; longToAdd :=
     longToAdd st; lastSumConfl := lastSumConfl st; lastLong := lastLong st; lastBin :=
     lastBin st; lastUnit := lastUnit st; numConflicts := numConflicts st; numRestarts :=
     numRestarts st; decisions := decisions st; rnd_decisions := x; max_literals :=
     max_literals st; tot_literals := tot_literals st; furtherClMinim := furtherClMinim st;
     numShrinkedClause := numShrinkedClause st; numShrinkedClauseLits :=
     numShrinkedClauseLits st; needToInterrupt := needToInterrupt st; avgBranchDepth :=
     avgBranchDepth st; glueHistory := glueHistory st; conflSizeHist := conflSizeHist st;
     conf := conf st; control := control st; ext := ext st |}.

Definition set_max_literals (x : N) (st : CommandControl) : CommandControl :=
  {| ok := ok st; trail := trail st; trail_lim := trail_lim st; qhead := qhead st; assigns
     := assigns st; varData := varData st; seen := seen st; toClear := toClear st; watches
     := watches st; failBinLit := failBinLit st; clAllocator := clAllocator st; clauseData
     := clauseData st; order_heap := order_heap st; assumptions := assumptions st; conflict
     := conflict st; unitToAdd := unitToAdd st; binToAdd := binToAdd st; longToAdd :=
     longToAdd st; lastSumConfl := lastSumConfl st; lastLong := lastLong st; lastBin :=
     lastBin st; lastUnit := lastUnit st; numConflicts := numConflicts st; numRestarts :=
     numRestarts st; decisions := decisions st; rnd_decisions := rnd_decisions st;
     max_literals := x; tot_literals := tot_literals st; furtherClMinim := furtherClMinim
     st; numShrinkedClause := numShrinkedClause st; numShrinkedClauseLits :=
     numShrinkedClauseLits st; needToInterrupt := needToInterrupt st; avgBranchDepth :=
     avgBranchDepth st; glueHistory := glueHistory st; conflSizeHist := conflSizeHist st;
     conf := conf st; control := control st; ext := ext st |}.

Definition set_tot_literals (x : N) (st : CommandControl) : CommandControl :=
  {| ok := ok st; trail := trail st; trail_lim := trail_lim st; qhead := qhead st; assigns
     := assigns st; varData := varData st; seen := seen st; toClear := toClear st; watches
     := watches st; failBinLit := failBinLit st; clAllocator := clAllocator st; clauseData
     := clauseData st; order_heap := order_heap st; assumptions := assumptions st; conflict
     := conflict st; unitToAdd := unitToAdd st; binToAdd := binToAdd st; longToAdd :=
     longToAdd st; lastSumConfl := lastSumConfl st; lastLong := lastLong st; lastBin :=
     lastBin st; lastUnit := lastUnit st; numConflicts := numConflicts st; numRestarts :=
     numRestarts st; decisions := decisions st; rnd_decisions := rnd_decisions st;
     max_literals := max_literals st; tot_literals := x; furtherClMinim := furtherClMinim
     st; numShrinkedClause := numShrinkedClause st; numShrinkedClauseLits :=
     numShrinkedClauseLits st; needToInterrupt := needToInterrupt st; avgBranchDepth :=
     avgBranchDepth st; glueHistory := glueHistory st; conflSizeHist := conflSizeHist st;
     conf := conf st; control := control st; ext := ext st |}.

Definition set_furtherClMinim (x : N) (st : CommandControl) : CommandControl :=
  {| ok := ok st; trail := trail st; trail_lim := trail_lim st; qhead := qhead st; assigns
     := assigns st; varData := varData st; seen := seen st; toClear := toClear st; watches
     := watches st; failBinLit := failBinLit st; clAllocator := clAllocator st; clauseData
     := clauseData st; order_heap := order_heap st; assumptions := assumptions st; conflict
     := conflict st; unitToAdd := unitToAdd st; binToAdd := binToAdd st; longToAdd :=
     longToAdd st; lastSumConfl := lastSumConfl st; lastLong := lastLong st; lastBin :=
     lastBin st; lastUnit := lastUnit st; numConflicts := numConflicts st; numRestarts :=
     numRestarts st; decisions := decisions st; rnd_decisions := rnd_decisions st;
     max_literals := max_literals st; tot_literals := tot_literals st; furtherClMinim := x;
     numShrinkedClause := numShrinkedClause st; numShrinkedClauseLits :=
     numShrinkedClauseLits st; needToInterrupt := needToInterrupt st; avgBranchDepth :=
     avgBranchDepth st; glueHistory := glueHistory st; conflSizeHist := conflSizeHist st;
     conf := conf st; control := control st; ext := ext st |}.

Definition set_numShrinkedClause (x : N) (st : CommandControl) : CommandControl :=
  {| ok := ok st; trail := trail st; trail_lim := trail_lim st; qhead := qhead st; assigns
     := assigns st; varData := varData st; seen := seen st; toClear := toClear st; watches
     := watches st; failBinLit := failBinLit st; clAllocator := clAllocator st; clauseData
     := clauseData st; order_heap := order_heap st; assumptions := assumptions st; conflict
     := conflict st; unitToAdd := unitToAdd st; binToAdd := binToAdd st; longToAdd :=
     longToAdd st; lastSumConfl := lastSumConfl st; lastLong := lastLong st; lastBin :=
     lastBin st; lastUnit := lastUnit st; numConflicts := numConflicts st; numRestarts :=
     numRestarts st; decisions := decisions st; rnd_decisions := rnd_decisions st;
     max_literals := max_literals st; tot_literals := tot_literals st; furtherClMinim :=
     furtherClMinim st; numShrinkedClause := x; numShrinkedClauseLits :=
     numShrinkedClauseLits st; needToInterrupt := needToInterrupt st; avgBranchDepth :=
     avgBranchDepth st; glueHistory := glueHistory st; conflSizeHist := conflSizeHist st;
     conf := conf st; control := control st; ext := ext st |}.

Definition set_numShrinkedClauseLits (x : N) (st : CommandControl) : CommandControl :=
  {| ok := ok st; trail := trail st; trail_lim := trail_lim st; qhead := qhead st; assigns
     := assigns st; varData := varData st; seen := seen st; toClear := toClear st; watches
     := watches st; failBinLit := failBinLit st; clAllocator := clAllocator st; clauseData
     := clauseData st; order_heap := order_heap st; assumptions := assumptions st; conflict
     := conflict st; unitToAdd := unitToAdd st; binToAdd := binToAdd st; longToAdd :=
     longToAdd st; lastSumConfl := lastSumConfl st; lastLong := lastLong st; lastBin :=
     lastBin st; lastUnit := lastUnit st; numConflicts := numConflicts st; numRestarts :=
     numRestarts st; decisions := decisions st; rnd_decisions := rnd_decisions st;
     max_literals := max_literals st; tot_literals := tot_literals st; furtherClMinim :=
     furtherClMinim st; numShrinkedClause := numShrinkedClause st; numShrinkedClauseLits :=
     x; needToInterrupt := needToInterrupt st; avgBranchDepth := avgBranchDepth st;
     glueHistory := glueHistory st; conflSizeHist := conflSizeHist st; conf := conf st;
     control := control st; ext := ext st |}.

Definition set_needToInterrupt (x : bool) (st : CommandControl) : CommandControl :=
  {| ok := ok st; trail := trail st; trail_lim := trail_lim st; qhead := qhead st; assigns
     := assigns st; varData := varData st; seen := seen st; toClear := toClear st; watches
     := watches st; failBinLit := failBinLit st; clAllocator := clAllocator st; clauseData
     := clauseData st; order_heap := order_heap st; assumptions := assumptions st; conflict
     := conflict st; unitToAdd := unitToAdd st; binToAdd := binToAdd st; longToAdd :=
     longToAdd st; lastSumConfl := lastSumConfl st; lastLong := lastLong st; lastBin :=
     lastBin st; lastUnit := lastUnit st; numConflicts := numConflicts st; numRestarts :=
     numRestarts st; decisions := decisions st; rnd_decisions := rnd_decisions st;
     max_literals := max_literals st; tot_literals := tot_literals st; furtherClMinim :=
     furtherClMinim st; numShrinkedClause := numShrinkedClause st; numShrinkedClauseLits :=
     numShrinkedClauseLits st; needToInterrupt := x; avgBranchDepth := avgBranchDepth st;
     glueHistory := glueHistory st; conflSizeHist := conflSizeHist st; conf := conf st;
     control := control st; ext := ext st |}.

Definition set_avgBranchDepth (x : list N) (st : CommandControl) : CommandControl :=
  {| ok := ok st; trail := trail st; trail_lim := trail_lim st; qhead := qhead st; assigns
     := assigns st; varData := varData st; seen := seen st; toClear := toClear st; watches
     := watches st; failBinLit := failBinLit st; clAllocator := clAllocator st; clauseData
     := clauseData st; order_heap := order_heap st; assumptions := assumptions st; conflict
     := conflict st; unitToAdd := unitToAdd st; binToAdd := binToAdd st; longToAdd :=
     longToAdd st; lastSumConfl := lastSumConfl st; lastLong := lastLong st; lastBin :=
     lastBin st; lastUnit := lastUnit st; numConflicts := numConflicts st; numRestarts :=
     numRestarts st; decisions := decisions st; rnd_decisions := rnd_decisions st;
     max_literals := max_literals st; tot_literals := tot_literals st; furtherClMinim :=
     furtherClMinim st; numShrinkedClause := numShrinkedClause st; numShrinkedClauseLits :=
     numShrinkedClauseLits st; needToInterrupt := needToInterrupt st; avgBranchDepth := x;
     glueHistory := glueHistory st; conflSizeHist := conflSizeHist st; conf := conf st;
     control := control st; ext := ext st |}.

Definition set_glueHistory (x : list N) (st : CommandControl) : CommandControl :=
  {| ok := ok st; trail := trail st; trail_lim := trail_lim st; qhead := qhead st; assigns
     := assigns st; varData := varData st; seen := seen st; toClear := toClear st; watches
     := watches st; failBinLit := failBinLit st; clAllocator := clAllocator st; clauseData
     := clauseData st; order_heap := order_heap st; assumptions := assumptions st; conflict
     := conflict st; unitToAdd := unitToAdd st; binToAdd := binToAdd st; longToAdd :=
     longToAdd st; lastSumConfl := lastSumConfl st; lastLong := lastLong st; lastBin :=
     lastBin st; lastUnit := lastUnit st; numConflicts := numConflicts st; numRestarts :=
     numRestarts st; decisions := decisions st; rnd_decisions := rnd_decisions st;
     max_literals := max_literals st; tot_literals := tot_literals st; furtherClMinim :=
     furtherClMinim st; numShrinkedClause := numShrinkedClause st; numShrinkedClauseLits :=
     numShrinkedClauseLits st; needToInterrupt := needToInterrupt st; avgBranchDepth :=
     avgBranchDepth st; glueHistory := x; conflSizeHist := conflSizeHist st; conf := conf
     st; control := control st; ext := ext st |}.

Definition set_conflSizeHist (x : list N) (st : CommandControl) : CommandControl :=
  {| ok := ok st; trail := trail st; trail_lim := trail_lim st; qhead := qhead st; assigns
     := assigns st; varData := varData st; seen := seen st; toClear := toClear st; watches
     := watches st; failBinLit := failBinLit st; clAllocator := clAllocator st; clauseData
     := clauseData st; order_heap := order_heap st; assumptions := assumptions st; conflict
     := conflict st; unitToAdd := unitToAdd st; binToAdd := binToAdd st; longToAdd :=
     longToAdd st; lastSumConfl := lastSumConfl st; lastLong := lastLong st; lastBin :=
     lastBin st; lastUnit := lastUnit st; numConflicts := numConflicts st; numRestarts :=
     numRestarts st; decisions := decisions st; rnd_decisions := rnd_decisions st;
     max_literals := max_literals st; tot_literals := tot_literals st; furtherClMinim :=
     furtherClMinim st; numShrinkedClause := numShrinkedClause st; numShrinkedClauseLits :=
     numShrinkedClauseLits st; needToInterrupt := needToInterrupt st; avgBranchDepth :=
     avgBranchDepth st; glueHistory := glueHistory st; conflSizeHist := x; conf := conf st;
     control := control st; ext := ext st |}.

Definition set_conf (x : SolverConf) (st : CommandControl) : CommandControl :=
  {| ok := ok st; trail := trail st; trail_lim := trail_lim st; qhead := qhead st; assigns
     := assigns st; varData := varData st; seen := seen st; toClear := toClear st; watches
     := watches st; failBinLit := failBinLit st; clAllocator := clAllocator st; clauseData
     := clauseData st; order_heap := order_heap st; assumptions := assumptions st; conflict
     := conflict st; unitToAdd := unitToAdd st; binToAdd := binToAdd st; longToAdd :=
     longToAdd st; lastSumConfl := lastSumConfl st; lastLong := lastLong st; lastBin :=
     lastBin st; lastUnit := lastUnit st; numConflicts := numConflicts st; numRestarts :=
     numRestarts st; decisions := decisions st; rnd_decisions := rnd_decisions st;
     max_literals := max_literals st; tot_literals := tot_literals st; furtherClMinim :=
     furtherClMinim st; numShrinkedClause := numShrinkedClause st; numShrinkedClauseLits :=
     numShrinkedClauseLits st; needToInterrupt := needToInterrupt st; avgBranchDepth :=
     avgBranchDepth st; glueHistory := glueHistory st; conflSizeHist := conflSizeHist st;
     conf := x; control := control st; ext := ext st |}.

Definition set_control (x : ThreadControl) (st : CommandControl) : CommandControl :=
  {| ok := ok st; trail := trail st; trail_lim := trail_lim st; qhead := qhead st; assigns
     := assigns st; varData := varData st; seen := seen st; toClear := toClear st; watches
     := watches st; failBinLit := failBinLit st; clAllocator := clAllocator st; clauseData
     := clauseData st; order_heap := order_heap st; assumptions := assumptions st; conflict
     := conflict st; unitToAdd := unitToAdd st; binToAdd := binToAdd st; longToAdd :=
     longToAdd st; lastSumConfl := lastSumConfl st; lastLong := lastLong st; lastBin :=
     lastBin st; lastUnit := lastUnit st; numConflicts := numConflicts st; numRestarts :=
     numRestarts st; decisions := decisions st; rnd_decisions := rnd_decisions st;
     max_literals := max_literals st; tot_literals := tot_literals st; furtherClMinim :=
     furtherClMinim st; numShrinkedClause := numShrinkedClause st; numShrinkedClauseLits :=
     numShrinkedClauseLits st; needToInterrupt := needToInterrupt st; avgBranchDepth :=
     avgBranchDepth st; glueHistory := glueHistory st; conflSizeHist := conflSizeHist st;
     conf := conf st; control := x; ext := ext st |}.

Definition set_ext (x : Ext) (st : CommandControl) : CommandControl :=
  {| ok := ok st; trail := trail st; trail_lim := trail_lim st; qhead := qhead st; assigns
     := assigns st; varData := varData st; seen := seen st; toClear := toClear st; watches
     := watches st; failBinLit := failBinLit st; clAllocator := clAllocator st; clauseData
     := clauseData st; order_heap := order_heap st; assumptions := assumptions st; conflict
     := conflict st; unitToAdd := unitToAdd st; binToAdd := binToAdd st; longToAdd :=
     longToAdd st; lastSumConfl := lastSumConfl st; lastLong := lastLong st; lastBin :=
     lastBin st; lastUnit := lastUnit st; numConflicts := numConflicts st; numRestarts :=
     numRestarts st; decisions := decisions st; rnd_decisions := rnd_decisions st;
     max_literals := max_literals st; tot_literals := tot_literals st; furtherClMinim :=
     furtherClMinim st; numShrinkedClause := numShrinkedClause st; numShrinkedClauseLits :=
     numShrinkedClauseLits st; needToInterrupt := needToInterrupt st; avgBranchDepth :=
     avgBranchDepth st; glueHistory := glueHistory st; conflSizeHist := conflSizeHist st;
     conf := conf st; control := control st; ext := x |}.

End State.

Arguments CommandControl Ext : clear implicits.

(** ** The monad of the member functions: state and failure *)

Declare Scope cc_scope.
Delimit Scope cc_scope with cc.

Section Monad.

Context {Ext : Type}.

Definition M (A : Type) : Type := CommandControl Ext -> Res (A * CommandControl Ext).

Definition ret {A} (a : A) : M A := fun st => Ok (a, st).

Definition bind {A B} (m : M A) (k : A -> M B) : M B :=
  fun st =>
    match m st with
    | Ok (a, st') => k a st'
    | Fail e => Fail e
    end.

Definition fail {A} (e : Err) : M A := fun _ => Fail e.

Definition gets {A} (f : CommandControl Ext -> A) : M A := fun st => Ok (f st, st).

Definition modify (f : CommandControl Ext -> CommandControl Ext) : M unit :=
  fun st => Ok (tt, f st).

Definition lift {A} (r : Res A) : M A :=
  fun st => match r with Ok a => Ok (a, st) | Fail e => Fail e end.

(** [assert(b)] *)
Definition assert (b : bool) (what : string) : M unit :=
  if b then ret tt else fail (AssertFailed what).

(** [v[i]] for a vector member [v] *)
Definition read {A} (v : CommandControl Ext -> list A) (i : N) : M A :=
  fun st => lift (vget (v st) i) st.

End Monad.

Notation "x ← y ; z" := (bind y (fun x => z))
  (at level 20, y at level 100, z at level 200, only parsing) : cc_scope.
Notation "' x ← y ; z" := (bind y (fun x => z))
  (at level 20, x pattern, y at level 100, z at level 200, only parsing) : cc_scope.
Notation "x ;; z" := (bind x (fun _ => z))
  (at level 100, z at level 200, only parsing, right associativity) : cc_scope.

(** ** What the sources call and do not contain

    [propagate], [varBumpActivity], [varDecayActivity], [getPolarity],
    [attachBinClause] and [attachClause] are members of [Solver];
    [newClauseByThread] is a member of [ThreadControl]; the agility estimator,
    the random generator [mtrand] and the removal of the heap's minimum compute
    on [double]; [std::sort], [PolaritySorter] and [MAX_THEORETICAL_GLUE] come
    from headers.  They are parameters of the development. *)

Class Collaborators (Ext : Type) : Type := {
  propagate : bool -> M (Ext := Ext) PropBy;
  varBumpActivity : Var -> Ext -> Ext;
  varDecayActivity : Ext -> Ext;
  getPolarity : Var -> list VarData -> Ext -> bool * Ext;
  attachBinClause : Lit -> Lit -> bool -> bool -> M (Ext := Ext) unit;
  attachClause : ClauseOffset -> option (N * N * bool) -> M (Ext := Ext) unit;
  newClauseByThread : list Lit -> N -> M (Ext := Ext) ClauseOffset;
  (** [agility.reset()] *)
  agility_reset : Ext -> Ext;
  (** [agility.getAgility() < conf.agilityLimit] *)
  agility_below_limit : Ext -> bool;
  (** [agility.tooLow(confl)] *)
  agility_tooLow : N -> Ext -> Ext;
  (** [agility.getNumTooLow() > conf.numTooLowAgilitiesLimit] *)
  agility_numTooLow_over : Ext -> bool;
  (** [mtrand.randDblExc() < conf.random_var_freq] *)
  rand_below_freq : Ext -> bool * Ext;
  (** [mtrand.randInt(n)] *)
  randInt : N -> Ext -> N * Ext;
  (** the position, among the members of the heap, of the one that
      [removeMin] takes *)
  heap_min : list Var -> Ext -> nat;
  std_sort : forall A : Type, (A -> A -> bool) -> list A -> list A;
  PolaritySorter : list VarData -> Lit -> Lit -> bool;
  MAX_THEORETICAL_GLUE : N
}.

(** ** Decision levels, assignment and cancellation *)

Section Trail.

Context {Ext : Type}.

Local Open Scope cc_scope.

Local Abbreviation State := (CommandControl Ext).
Local Abbreviation M := (M (Ext := Ext)).

Definition decisionLevel (st : State) : N := N.of_nat (length (trail_lim st)).

(** [value(Var)] and [value(Lit)] *)
Definition value_var (v : Var) : M lbool := read assigns v.

Definition value (p : Lit) : M lbool :=
  a ← read assigns (var p);
  ret (lbool_xor a (sign p)).

(** Modelled from the spec: [Solver::newDecisionLevel] (Solver.h is not part
    of the sources) pushes the current trail size into [trail_lim]. *)
Definition newDecisionLevel : M unit :=
  modify (fun st => set_trail_lim (trail_lim st ++ [N.of_nat (length (trail st))]) st).

(** Modelled from the spec: [Solver::enqueue] (Solver.h is not part of the
    sources) gives the literal the value True, records the current decision
    level and the reason of its variable, and appends it to the trail. *)
Definition enqueue (p : Lit) (from : PropBy) : M unit :=
  st ← gets id;
  a ← lift (vset (assigns st) (var p) (boolToLBool (negb (sign p))));
  d ← read varData (var p);
  vd ← lift (vset (varData st) (var p)
               (set_reason from (set_level (decisionLevel st) d)));
  modify (fun st => set_trail (trail st ++ [p]) (set_varData vd (set_assigns a st))).

(** Modelled from the spec: the order heap (Heap.h is not part of the sources)
    by the list of its members; [inHeap] is membership and [insert] adds a
    member. *)
Definition inHeap (x : Var) (h : list Var) : bool := bool_decide (x ∈ h).
Definition heap_insert (x : Var) (h : list Var) : list Var := h ++ [x].

Definition insertVarOrder (x : Var) : M unit :=
  h ← gets order_heap;
  if inHeap x h then ret tt
  else
    d ← read (fun st => decision_var (control st)) x;
    if d then modify (set_order_heap (heap_insert x h)) else ret tt.

(** [v.resize(n)] with [dflt] for the new elements *)
Definition resize {A} (n : nat) (dflt : A) (v : list A) : list A :=
  take n v ++ replicate (n - length v) dflt.

(** The body of the loop of [cancelUntil], run on the literals
    [trail[size-1]], ..., [trail[trail_lim[level]]] in this order. *)
Fixpoint cancel_loop (undone : list Lit) : M unit :=
  match undone with
  | [] => ret tt
  | p :: rest =>
      a ← value_var (var p);
      assert (bool_decide (a ≠ l_Undef)) "value(var) != l_Undef";;
      st ← gets id;
      a' ← lift (vset (assigns st) (var p) l_Undef);
      modify (set_assigns a');;
      insertVarOrder (var p);;
      cancel_loop rest
  end.

Definition cancelUntil (lvl : N) : M unit :=
  st ← gets id;
  if decide (lvl < decisionLevel st) then
    lim ← read trail_lim lvl;
    cancel_loop (reverse (drop (N.to_nat lim) (trail st)));;
    modify (set_qhead lim);;
    modify (fun st => set_trail (resize (N.to_nat lim) lit_Undef (trail st)) st);;
    modify (fun st => set_trail_lim (resize (N.to_nat lvl) 0 (trail_lim st)) st)
  else ret tt.

End Trail.

(** ** Conflict analysis *)

Section Analyze.

Context {Ext : Type} {C : Collaborators Ext}.

Local Open Scope cc_scope.

Local Abbreviation State := (CommandControl Ext).
Local Abbreviation M := (M (Ext := Ext)).

(** [seen[i] = b] *)
Definition set_seen_at (i : N) (b : bool) : M unit :=
  st ← gets id;
  s ← lift (vset (seen st) i b);
  modify (set_seen s).

(** [clAllocator->getPointer(offset)] *)
Definition getPointer (offset : ClauseOffset) : M Clause :=
  st ← gets id;
  match clAllocator st !! offset with
  | Some cl => ret cl
  | None => fail OutOfRange
  end.

Fixpoint levels_of (ps : list Lit) : M (list N) :=
  match ps with
  | [] => ret []
  | p :: ps' =>
      d ← read varData (var p);
      ls ← levels_of ps';
      ret (level d :: ls)
  end.

(** Modelled from the spec: [Solver::calcNBLevels] (Solver.h is not part of
    the sources) is the number of distinct decision levels among the
    literals. *)
Definition calcNBLevels (ps : list Lit) : M N :=
  ls ← levels_of ps;
  ret (N.of_nat (length (remove_dups ls))).

(** *** minimiseLearntFurther *)

(** [for (i = 0; i < cl.size(); i++) seen[cl[i].toInt()] = 1;] *)
Fixpoint minim_mark (cl : list Lit) : M unit :=
  match cl with
  | [] => ret tt
  | l :: cl' => set_seen_at (toInt l) true;; minim_mark cl'
  end.

(** The loop over [cache1.lits] *)
Fixpoint minim_cache (cache : list Lit) : M unit :=
  match cache with
  | [] => ret tt
  | q :: cache' => set_seen_at (toInt (neg q)) false;; minim_cache cache'
  end.

(** One entry of the watch list of [~lit] *)
Definition minim_watch (w : Watched) : M unit :=
  match w with
  | BinaryWatch o _ => set_seen_at (toInt (neg o)) false
  | TriWatch o o2 =>
      s2 ← read seen (toInt o2);
      (if s2 then set_seen_at (toInt (neg o)) false else ret tt);;
      s1 ← read seen (toInt o);
      (if s1 then set_seen_at (toInt (neg o2)) false else ret tt)
  | LongWatch _ _ => ret tt
  end.

Fixpoint minim_watches (ws : list Watched) : M unit :=
  match ws with
  | [] => ret tt
  | w :: ws' => minim_watch w;; minim_watches ws'
  end.

(** The loop over the literals [l] of the clause *)
Fixpoint minim_loop (ls : list Lit) : M unit :=
  match ls with
  | [] => ret tt
  | l :: ls' =>
      s ← read seen (toInt l);
      (if s then
         cache1 ← read (fun st => implCache (control st)) (toInt l);
         minim_cache cache1;;
         ws ← read watches (toInt (neg l));
         minim_watches ws
       else ret tt);;
      minim_loop ls'
  end.

(** The compaction, in place as in the source: [i] reads, [j] writes, [n]
    iterations are left. *)
Fixpoint minim_compact (n : nat) (i j : N) (cl : list Lit) (removedLits : N)
  : M (list Lit * N * N) :=
  match n with
  | O => ret (cl, j, removedLits)
  | S n' =>
      l ← lift (vget cl i);
      s ← read seen (toInt l);
      '(cl1, j1, r1) ←
        (if s then cl' ← lift (vset cl j l); ret (cl', j + 1, removedLits)
         else ret (cl, j, wrap32 (removedLits + 1)));
      l' ← lift (vget cl1 i);
      set_seen_at (toInt l') false;;
      minim_compact n' (i + 1) j1 cl1 r1
  end.

(** What comes before the compaction: the marking, the minimisation by the
    cache and by the watch lists, and [seen[cl[0].toInt()] = 1]. *)
Definition minim_select (cl : list Lit) : M unit :=
  minim_mark cl;;
  minim_loop cl;;
  l0 ← lift (vget cl 0);
  set_seen_at (toInt l0) true.

Definition minimiseLearntFurther (cl : list Lit) (glue : N) : M (list Lit) :=
  st ← gets id;
  assert (doCache (conf st)) "conf.doCache";;
  modify (fun st => set_furtherClMinim (wrap64 (furtherClMinim st + 1)) st);;
  minim_select cl;;
  '(cl', j, removedLits) ← minim_compact (length cl) 0 0 cl 0;
  modify (fun st => set_numShrinkedClause
            (wrap64 (numShrinkedClause st + (if decide (0 < removedLits) then 1 else 0))) st);;
  modify (fun st => set_numShrinkedClauseLits
            (wrap64 (numShrinkedClauseLits st + removedLits)) st);;
  ret (take (N.to_nat j) cl').

(** *** analyze *)

(** [varBumpActivity(var); seen[var] = 1; if (level == decisionLevel()) pathC++;
    else out_learnt.push_back(q);] *)
Definition analyze_take (q : Lit) (pathC : Z) (out_learnt : list Lit) : M (Z * list Lit) :=
  modify (fun st => set_ext (varBumpActivity (var q) (ext st)) st);;
  set_seen_at (var q) true;;
  d ← read varData (var q);
  st ← gets id;
  if decide (level d = decisionLevel st)
  then ret ((pathC + 1)%Z, out_learnt)
  else ret (pathC, out_learnt ++ [q]).

(** [if (varData[var].level > 0 && !seen[var]) ...] *)
Definition analyze_lit_level_first (q : Lit) (pathC : Z) (out_learnt : list Lit)
  : M (Z * list Lit) :=
  d ← read varData (var q);
  if decide (0 < level d) then
    s ← read seen (var q);
    if s then ret (pathC, out_learnt) else analyze_take q pathC out_learnt
  else ret (pathC, out_learnt).

(** [if (!seen[var] && varData[var].level > 0) ...] *)
Definition analyze_lit_seen_first (q : Lit) (pathC : Z) (out_learnt : list Lit)
  : M (Z * list Lit) :=
  s ← read seen (var q);
  if s then ret (pathC, out_learnt)
  else
    d ← read varData (var q);
    if decide (0 < level d) then analyze_take q pathC out_learnt
    else ret (pathC, out_learnt).

(** [case binary_t] *)
Definition analyze_binary (other : Lit) (p : Lit) (pathC : Z) (out_learnt : list Lit)
  : M (Z * list Lit) :=
  '(pathC1, out1) ←
    (if decide (p = lit_Undef) then
       f ← gets failBinLit;
       analyze_lit_level_first f pathC out_learnt
     else ret (pathC, out_learnt));
  analyze_lit_seen_first other pathC1 out1.

(** [case clause_t]: the loop over [j], on the literals [cl[j]], ... *)
Fixpoint analyze_clause (num watchNum : N) (p : Lit) (j : N) (rest : list Lit)
    (pathC : Z) (out_learnt : list Lit) : M (Z * list Lit) :=
  match rest with
  | [] => ret (pathC, out_learnt)
  | q :: rest' =>
      skip ←
        (if decide (p = lit_Undef) then ret false
         else
           cd ← read clauseData num;
           pos ← lift (vget (litPos cd) watchNum);
           ret (bool_decide (j = pos)));
      if skip : bool then analyze_clause num watchNum p (j + 1) rest' pathC out_learnt
      else
        d ← read varData (var q);
        st ← gets id;
        assert (bool_decide (level d <= decisionLevel st))
          "varData[var].level <= decisionLevel()";;
        '(pathC1, out1) ← analyze_lit_seen_first q pathC out_learnt;
        analyze_clause num watchNum p (j + 1) rest' pathC1 out1
  end.

(** [switch (confl.getType())] *)
Definition analyze_reason (confl : PropBy) (p : Lit) (pathC : Z) (out_learnt : list Lit)
  : M (Z * list Lit) :=
  match confl with
  | tertiary_t other other2 =>
      '(pathC1, out1) ← analyze_lit_level_first other2 pathC out_learnt;
      analyze_binary other p pathC1 out1
  | binary_t other => analyze_binary other p pathC out_learnt
  | clause_t offset watchNum =>
      cl ← getPointer offset;
      analyze_clause (getNum cl) watchNum p 0 (lits cl) pathC out_learnt
  | null_clause_t =>
      assert false "false && Error in conflict analysis";;
      ret (pathC, out_learnt)
  end.

(** [while (!seen[trail[index--].var()]);] with [n = index + 1]; the result is
    [index + 1] after the loop.  At [index = -1] the read of the trail is out
    of range. *)
Fixpoint analyze_next (n : nat) : M nat :=
  match n with
  | O => fail OutOfRange
  | S n' =>
      l ← read trail (N.of_nat n');
      s ← read seen (var l);
      if s then ret n' else analyze_next n'
  end.

(** The [do ... while (pathC > 0)] loop; [n = index + 1].  [numResolutions] is
    a local counter that is not read. *)
Fixpoint analyze_loop (fuel : nat) (confl : PropBy) (p : Lit) (n : nat) (pathC : Z)
    (out_learnt : list Lit) : M (Lit * Z * list Lit) :=
  match fuel with
  | O => fail OutOfFuel
  | S fuel' =>
      '(pathC1, out1) ← analyze_reason confl p pathC out_learnt;
      n' ← analyze_next n;
      p' ← read trail (N.of_nat n');
      d ← read varData (var p');
      set_seen_at (var p') false;;
      let pathC2 := (pathC1 - 1)%Z in
      if decide (0 < pathC2)%Z
      then analyze_loop fuel' (reason d) p' n' pathC2 out1
      else ret (p', pathC2, out1)
  end.

(** [for (it = toClear.begin(); ...) seen[it->var()] = 0;] *)
Fixpoint analyze_clear (ls : list Lit) : M unit :=
  match ls with
  | [] => ret tt
  | l :: ls' => set_seen_at (var l) false;; analyze_clear ls'
  end.

(** [for (i = 2; i < out_learnt.size(); i++) if (level(out_learnt[i]) >
    level(out_learnt[max_i])) max_i = i;] with [n] iterations left *)
Fixpoint analyze_max (n : nat) (i : N) (out_learnt : list Lit) (max_i : N) : M N :=
  match n with
  | O => ret max_i
  | S n' =>
      li ← lift (vget out_learnt i);
      di ← read varData (var li);
      lm ← lift (vget out_learnt max_i);
      dm ← read varData (var lm);
      analyze_max n' (i + 1) out_learnt (if decide (level dm < level di) then i else max_i)
  end.

(** [std::swap(v[a], v[b])] *)
Definition swap (v : list Lit) (a b : N) : Res (list Lit) :=
  try x := vget v a in
  try y := vget v b in
  try v1 := vset v a y in
  vset v1 b x.

(** "Find correct backtrack level" *)
Definition analyze_btlevel (out_learnt : list Lit) : M (list Lit * N) :=
  if decide (length out_learnt <= 1)%nat then ret (out_learnt, 0)
  else
    max_i ← analyze_max (length out_learnt - 2) 2 out_learnt 1;
    out1 ← lift (swap out_learnt max_i 1);
    l1 ← lift (vget out1 1);
    d ← read varData (var l1);
    ret (out1, level d).

(** The first-UIP part of [analyze], up to [out_learnt[0] = ~p] and
    [assert(pathC == 0)] *)
Definition analyze_uip (confl : PropBy) (out_learnt : list Lit) : M (list Lit) :=
  assert (bool_decide (out_learnt = [])) "out_learnt.empty()";;
  st ← gets id;
  assert (bool_decide (0 < decisionLevel st)) "decisionLevel() > 0";;
  let n := length (trail st) in
  '(p, pathC, out1) ← analyze_loop (S n) confl lit_Undef n 0%Z (out_learnt ++ [lit_Undef]);
  out2 ← lift (vset out1 0 (neg p));
  assert (bool_decide (pathC = 0%Z)) "pathC == 0";;
  ret out2.

(** [analyze], from its entry to the call of [minimiseLearntFurther]: the
    result is [out_learnt] and the glue passed to the call. *)
Definition analyze_before (confl : PropBy) (out_learnt : list Lit) : M (list Lit * N) :=
  out2 ← analyze_uip confl out_learnt;
  modify (fun st => set_max_literals (wrap64 (max_literals st + N.of_nat (length out2))) st);;
  modify (set_toClear out2);;
  analyze_clear out2;;
  modify (set_toClear []);;
  glue0 ← calcNBLevels out2;
  g ← calcNBLevels out2;
  ret (out2, g).

(** [analyze], after the call of [minimiseLearntFurther]: the result is
    [(out_learnt, out_btlevel, glue)]. *)
Definition analyze_after (out_learnt : list Lit) : M (list Lit * N * N) :=
  glue ← calcNBLevels out_learnt;
  modify (fun st =>
    set_tot_literals (wrap64 (tot_literals st + N.of_nat (length out_learnt))) st);;
  '(out4, out_btlevel) ← analyze_btlevel out_learnt;
  ret (out4, out_btlevel, glue).

(** [analyze(confl, out_learnt, out_btlevel, glue)]; the result is
    [(out_learnt, out_btlevel, glue)].  The condition on the call of
    [minimiseLearntFurther] is commented out in the source. *)
Definition analyze (confl : PropBy) (out_learnt : list Lit) : M (list Lit * N * N) :=
  '(out2, g) ← analyze_before confl out_learnt;
  out3 ← minimiseLearntFurther out2 g;
  analyze_after out3.

End Analyze.

(** ** Final conflict, branching and decisions *)

Section Decide.

Context {Ext : Type} {C : Collaborators Ext}.

Local Open Scope cc_scope.

Local Abbreviation State := (CommandControl Ext).
Local Abbreviation M := (M (Ext := Ext)).

(** [if (varData[l.var()].level > 0) seen[l.var()] = 1;] *)
Definition analyzeFinal_mark (l : Lit) : M unit :=
  d ← read varData (var l);
  if decide (0 < level d) then set_seen_at (var l) true else ret tt.

Fixpoint analyzeFinal_clause (ls : list Lit) : M unit :=
  match ls with
  | [] => ret tt
  | l :: ls' => analyzeFinal_mark l;; analyzeFinal_clause ls'
  end.

(** The loop of [analyzeFinal], on [trail[size-1]], ..., [trail[trail_lim[0]]] *)
Fixpoint analyzeFinal_loop (ts : list Lit) (out_conflict : list Lit) : M (list Lit) :=
  match ts with
  | [] => ret out_conflict
  | t :: ts' =>
      let x := var t in
      s ← read seen x;
      if s : bool then
        d ← read varData x;
        out1 ←
          match reason d with
          | null_clause_t =>
              assert (bool_decide (0 < level d)) "varData[x].level > 0";;
              ret (out_conflict ++ [neg t])
          | tertiary_t lit1 lit2 =>
              analyzeFinal_mark lit2;;
              analyzeFinal_mark lit1;;
              ret out_conflict
          | binary_t lit1 =>
              analyzeFinal_mark lit1;;
              ret out_conflict
          | clause_t offset _ =>
              cl ← getPointer offset;
              analyzeFinal_clause (drop 1 (lits cl));;
              ret out_conflict
          end;
        set_seen_at x false;;
        analyzeFinal_loop ts' out1
      else ret out_conflict
  end.

(** [analyzeFinal(p, out_conflict)]; the result is [out_conflict]. *)
Definition analyzeFinal (p : Lit) : M (list Lit) :=
  st ← gets id;
  if decide (decisionLevel st = 0) then ret [p]
  else
    set_seen_at (var p) true;;
    lim ← read trail_lim 0;
    out ← analyzeFinal_loop (reverse (drop (N.to_nat lim) (trail st))) [p];
    set_seen_at (var p) false;;
    ret out.

(** *** pickBranchLit *)

Definition use_ext {A} (f : Ext -> A * Ext) : M A :=
  st ← gets id;
  let '(a, e) := f (ext st) in
  modify (set_ext e);;
  ret a.

(** [value(v) == l_Undef && control->decision_var[v]] *)
Definition pick_free (v : Var) : M bool :=
  a ← value_var v;
  if decide (a = l_Undef) then read (fun st => decision_var (control st)) v
  else ret false.

(** [!getPolarity(v)] *)
Definition pick_sign (v : Var) : M bool :=
  st ← gets id;
  pol ← use_ext (getPolarity v (varData st));
  ret (negb pol).

(** "Random decision" *)
Definition pick_random : M (Var * bool) :=
  below ← use_ext rand_below_freq;
  h ← gets order_heap;
  if below && negb (bool_decide (h = [])) then
    r ← use_ext (randInt (wrap32 (N.of_nat (length h) - 1)));
    next ← lift (vget h r);
    free ← pick_free next;
    if free then
      modify (fun st => set_rnd_decisions (wrap64 (rnd_decisions st + 1)) st);;
      sgn ← pick_sign next;
      ret (next, sgn)
    else ret (next, false)
  else ret (var_Undef, false).

(** The test on the dominating literal [lit2] *)
Definition pick_dominated (lit2 : Lit) : M bool :=
  if decide (lit2 = lit_Undef) then ret false
  else
    free ← pick_free (var lit2);
    if free then
      r ← use_ext (randInt 1);
      ret (bool_decide (r = 1))
    else ret false.

(** "Activity based decision": the [while] loop.  Every turn that does not
    leave the loop takes a member out of the heap. *)
Fixpoint pick_activity (fuel : nat) (next : Var) (sgn : bool) : M (Var * bool) :=
  again ←
    (if decide (next = var_Undef) then ret true
     else free ← pick_free next; ret (negb free));
  if again : bool then
    match fuel with
    | O => fail OutOfFuel
    | S fuel' =>
        st ← gets id;
        let h := order_heap st in
        match h with
        | [] => ret (var_Undef, sgn)
        | _ :: _ =>
            let i := (heap_min h (ext st) mod length h)%nat in
            next1 ← lift (vget h (N.of_nat i));
            modify (set_order_heap (delete i h));;
            free ← pick_free next1;
            if free then
              sgn1 ← pick_sign next1;
              lit2 ← read (fun st => litReachable (control st)) (toInt (mkLit next1 sgn1));
              dom ← pick_dominated lit2;
              if dom then
                insertVarOrder next1;;
                pick_activity fuel' (var lit2) (sign lit2)
              else pick_activity fuel' next1 sgn1
            else pick_activity fuel' next1 sgn
        end
    end
  else ret (next, sgn).

Definition pickBranchLit : M Lit :=
  '(next0, sgn0) ← pick_random;
  h ← gets order_heap;
  '(next, sgn) ← pick_activity (S (length h)) next0 sgn0;
  if decide (next = var_Undef) then ret lit_Undef
  else
    d ← read (fun st => decision_var (control st)) next;
    assert d "control->decision_var[toPick.var()]";;
    ret (mkLit next sgn).

(** *** new_decision *)

(** The loop over the assumptions.  [inl r]: [new_decision] returns [r];
    [inr next]: the loop is left with [next]. *)
Fixpoint new_decision_assumptions (fuel : nat) : M (lbool + Lit) :=
  st ← gets id;
  if decide (decisionLevel st < N.of_nat (length (assumptions st))) then
    match fuel with
    | O => fail OutOfFuel
    | S fuel' =>
        p ← read assumptions (decisionLevel st);
        v ← value p;
        match v with
        | l_True => newDecisionLevel;; new_decision_assumptions fuel'
        | l_False =>
            out ← analyzeFinal (neg p);
            modify (set_conflict out);;
            ret (inl l_False)
        | l_Undef => ret (inr p)
        end
    end
  else ret (inr lit_Undef).

Definition new_decision (params : SearchFuncParams) : M lbool :=
  st ← gets id;
  r ← new_decision_assumptions (length (assumptions st));
  match r with
  | inl res => ret res
  | inr next0 =>
      picked ←
        (if decide (next0 = lit_Undef) then
           modify (fun st => set_decisions (wrap64 (decisions st + 1)) st);;
           next ← pickBranchLit;
           ret next
         else ret next0);
      if decide (next0 = lit_Undef /\ picked = lit_Undef) then ret l_True
      else
        v ← value picked;
        assert (bool_decide (v = l_Undef)) "value(next) == l_Undef";;
        newDecisionLevel;;
        enqueue picked null_clause_t;;
        ret l_Undef
  end.

End Decide.

(** ** Clause exchange, conflicts and the search loop *)

Section Search.

Context {Ext : Type} {C : Collaborators Ext}.

Local Open Scope cc_scope.

Local Abbreviation State := (CommandControl Ext).
Local Abbreviation M := (M (Ext := Ext)).

Definition syncFromThreadControl : M unit :=
  modify (fun st =>
    let log := longLearntsToAdd (control st) in
    set_lastLong (N.of_nat (length log))
      (set_longToAdd (longToAdd st ++ drop (N.to_nat (lastLong st)) log) st));;
  modify (fun st =>
    let log := binLearntsToAdd (control st) in
    set_lastBin (N.of_nat (length log))
      (set_binToAdd (binToAdd st ++ drop (N.to_nat (lastBin st)) log) st));;
  modify (fun st =>
    let log := unitLearntsToAdd (control st) in
    set_lastUnit (N.of_nat (length log))
      (set_unitToAdd (unitToAdd st ++ drop (N.to_nat (lastUnit st)) log) st)).

(** The loop of [addOtherClauses] over [unitToAdd]; [false]: the function
    returns [false] from inside the loop. *)
Fixpoint addOtherClauses_units (units : list Lit) : M bool :=
  match units with
  | [] => ret true
  | lit :: units' =>
      v ← value lit;
      skip ←
        (if decide (v = l_True) then
           d ← read varData (var lit);
           ret (bool_decide (level d = 0))
         else ret false);
      if skip : bool then addOtherClauses_units units'
      else
        cancelUntil 0;;
        v' ← value lit;
        if decide (v' = l_Undef) then
          enqueue lit null_clause_t;;
          addOtherClauses_units units'
        else
          assert (bool_decide (v' = l_False)) "value(lit) == l_False";;
          ret false
  end.

Definition handleNewBin (binCl : BinaryClause) : M bool :=
  let a := getLit1 binCl in
  let b := getLit2 binCl in
  attachBinClause a b (getLearnt binCl) false;;
  va ← value a;
  vb0 ← (if decide (va = l_True) then ret l_True else value b);
  if decide (va = l_True \/ vb0 = l_True) then ret true
  else
    vb ← value b;
    let '(l0, l1) := if decide (vb = l_Undef) then (b, a) else (a, b) in
    v1 ← value l1;
    if decide (v1 = l_Undef) then
      v0 ← value l0;
      assert (bool_decide (v0 = l_Undef)) "value(lits[0]) == l_Undef";;
      ret true
    else
      v0 ← value l0;
      if decide (v0 = l_Undef) then
        v1' ← value l1;
        assert (bool_decide (v1' = l_False)) "value(lits[1]) == l_False";;
        enqueue l0 (binary_t l1);;
        ret true
      else
        v0' ← value l0;
        assert (bool_decide (v0' = l_False)) "value(lits[0]) == l_False";;
        v1' ← value l1;
        assert (bool_decide (v1' = l_False)) "value(lits[1]) == l_False";;
        d0 ← read varData (var l0);
        d1 ← read varData (var l1);
        let '(h0, h1) := if decide (level d0 < level d1) then (l1, l0) else (l0, l1) in
        dh ← read varData (var h0);
        if decide (level dh = 0) then
          cancelUntil 0;;
          modify (set_ok false);;
          ret false
        else
          dh' ← read varData (var h0);
          cancelUntil (wrap32 (level dh' - 1));;
          w ← value h1;
          if decide (w = l_False) then
            enqueue h0 (binary_t h1);;
            ret true
          else
            e0 ← read varData (var h0);
            e1 ← read varData (var h1);
            assert (bool_decide (level e0 = level e1))
              "varData[lits[0].var()].level == varData[lits[1].var()].level";;
            ret true.

(** [MyAttachSorter::operator()] on the values and levels of two literals *)
Definition MyAttachSorter (k1 k2 : lbool * N) : bool :=
  let '(val1, lev1) := k1 in
  let '(val2, lev2) := k2 in
  if bool_decide (val1 = l_True /\ val2 ≠ l_True) then true
  else if bool_decide (val2 = l_True /\ val1 ≠ l_True) then false
  else if bool_decide (val1 = l_Undef /\ val2 ≠ l_Undef) then true
  else if bool_decide (val2 = l_Undef /\ val1 ≠ l_Undef) then false
  else bool_decide (lev2 < lev1).

(** What the sorter reads of each literal of the clause *)
Fixpoint attach_keys (ls : list Lit) : M (list (lbool * N)) :=
  match ls with
  | [] => ret []
  | l :: ls' =>
      a ← read assigns (var l);
      d ← read varData (var l);
      ks ← attach_keys ls';
      ret ((lbool_xor a (sign l), level d) :: ks)
  end.

Definition attach_cmp (keys : list (lbool * N)) (a b : N) : bool :=
  match keys !! N.to_nat a, keys !! N.to_nat b with
  | Some ka, Some kb => MyAttachSorter ka kb
  | _, _ => false
  end.

(** [for (i = 1; i < cl.size(); i++) assert(value(cl[lits[i]]) == l_False);] *)
Fixpoint handleNewLong_allFalse (cl : list Lit) (ixs : list N) : M unit :=
  match ixs with
  | [] => ret tt
  | i :: ixs' =>
      l ← lift (vget cl i);
      v ← value l;
      assert (bool_decide (v = l_False)) "value(cl[lits[i]]) == l_False";;
      handleNewLong_allFalse cl ixs'
  end.

(** [enqueue(cl[lits[0]], ...)] with the reason that fits the size *)
Definition handleNewLong_enqueue (cl : list Lit) (ixs : list N) (offset : ClauseOffset)
  : M unit :=
  i0 ← lift (vget ixs 0);
  l0 ← lift (vget cl i0);
  if decide (length cl = 3%nat) then
    i1 ← lift (vget ixs 1);
    l1 ← lift (vget cl i1);
    i2 ← lift (vget ixs 2);
    l2 ← lift (vget cl i2);
    enqueue l0 (tertiary_t l1 l2)
  else enqueue l0 (clause_t offset 0).

(** The clause is given by its offset in the allocator.  The indices [lits]
    and the loop counters are [uint16_t]: on a clause of 65536 literals or
    more the first loop, [for (uint16_t i = 0; i < cl.size(); i++)], never
    ends. *)
Definition handleNewLong (offset : ClauseOffset) : M bool :=
  c ← getPointer offset;
  let cl := lits c in
  if decide (65536 <= N.of_nat (length cl)) then fail OutOfFuel else
  keys ← attach_keys cl;
  let ixs := std_sort N (attach_cmp keys) (N.of_nat <$> seq 0 (length cl)) in
  i0 ← lift (vget ixs 0);
  i1 ← lift (vget ixs 1);
  attachClause offset (Some (i0, i1, false));;
  l0 ← lift (vget cl i0);
  l1 ← lift (vget cl i1);
  v0 ← value l0;
  v1 ← value l1;
  if decide ((v0 = l_Undef /\ v1 = l_Undef) \/ v0 = l_True) then ret true
  else
    handleNewLong_allFalse cl (drop 1 ixs);;
    if decide (v0 = l_Undef) then
      handleNewLong_enqueue cl ixs offset;;
      ret true
    else
      d0 ← read varData (var l0);
      let lastLevel := level d0 in
      if decide (lastLevel = 0) then
        modify (set_ok false);;
        ret false
      else
        assert (bool_decide (v0 = l_False)) "value(cl[lits[0]]) == l_False";;
        cancelUntil (wrap32 (lastLevel - 1));;
        w0 ← value l0;
        assert (bool_decide (w0 = l_Undef)) "value(cl[lits[0]]) == l_Undef";;
        w1 ← value l1;
        if decide (w1 = l_False) then
          handleNewLong_allFalse cl (drop 1 ixs);;
          handleNewLong_enqueue cl ixs offset;;
          ret true
        else
          e0 ← read varData (var l0);
          e1 ← read varData (var l1);
          assert (bool_decide (level e0 = level e1))
            "varData[cl[lits[0]].var()].level == varData[cl[lits[1]].var()].level";;
          ret true.

Fixpoint addOtherClauses_bins (bins : list BinaryClause) : M bool :=
  match bins with
  | [] => ret true
  | binCl :: bins' =>
      r ← handleNewBin binCl;
      if r : bool then addOtherClauses_bins bins' else ret false
  end.

Fixpoint addOtherClauses_longs (longs : list ClauseOffset) : M bool :=
  match longs with
  | [] => ret true
  | cl :: longs' =>
      r ← handleNewLong cl;
      if r : bool then addOtherClauses_longs longs' else ret false
  end.

Definition addOtherClauses : M bool :=
  st ← gets id;
  assert (ok st) "ok";;
  r1 ← addOtherClauses_units (unitToAdd st);
  if r1 : bool then
    modify (set_unitToAdd []);;
    bins ← gets binToAdd;
    r2 ← addOtherClauses_bins bins;
    if r2 : bool then
      modify (set_binToAdd []);;
      longs ← gets longToAdd;
      r3 ← addOtherClauses_longs longs;
      if r3 : bool then
        modify (set_longToAdd []);;
        ret true
      else ret false
    else ret false
  else ret false.

(** The loop of [addToThreads] on the literals [trail[oldTrailSize]], ... *)
Fixpoint addToThreads_loop (ts : list Lit) : M unit :=
  match ts with
  | [] => ret tt
  | t :: ts' =>
      newClauseByThread [t] 1;;
      modify (fun st => set_lastUnit (wrap64 (lastUnit st + 1)) st);;
      addToThreads_loop ts'
  end.

Definition addToThreads (oldTrailSize : nat) : M unit :=
  st ← gets id;
  addToThreads_loop (drop oldTrailSize (trail st)).

Definition set_needToStopSearch (b : bool) (p : SearchFuncParams) : SearchFuncParams :=
  {| needToStopSearch := b; update := update p;
     conflictsDoneThisRestart := conflictsDoneThisRestart p;
     conflictsToDo := conflictsToDo p |}.

Definition set_conflictsDoneThisRestart (n : N) (p : SearchFuncParams) : SearchFuncParams :=
  {| needToStopSearch := needToStopSearch p; update := update p;
     conflictsDoneThisRestart := n;
     conflictsToDo := conflictsToDo p |}.

(** The messages printed at [verbosity >= 3] are not modelled. *)
Definition checkNeedRestart (params : SearchFuncParams) : M SearchFuncParams :=
  st ← gets id;
  let p1 := if needToInterrupt st then set_needToStopSearch true params else params in
  (if agility_below_limit (ext st)
   then modify (fun st => set_ext (agility_tooLow (conflictsDoneThisRestart p1) (ext st)) st)
   else ret tt);;
  st1 ← gets id;
  let p2 := if agility_numTooLow_over (ext st1) then set_needToStopSearch true p1 else p1 in
  let p3 := if decide (conflictsToDo p2 < conflictsDoneThisRestart p2)
            then set_needToStopSearch true p2 else p2 in
  ret p3.

(** [switch (learnt_clause.size())] *)
Definition handle_conflict_attach (learnt_clause : list Lit) (backtrack_level : N)
    (cl : ClauseOffset) : M unit :=
  l0 ← lift (vget learnt_clause 0);
  match length learnt_clause with
  | 1%nat =>
      modify (fun st => set_lastUnit (wrap64 (lastUnit st + 1)) st);;
      enqueue l0 null_clause_t;;
      assert (bool_decide (backtrack_level = 0)) "backtrack_level == 0"
  | 2%nat =>
      l1 ← lift (vget learnt_clause 1);
      modify (fun st => set_lastBin (wrap64 (lastBin st + 1)) st);;
      attachBinClause l0 l1 true true;;
      enqueue l0 (binary_t l1)
  | 3%nat =>
      l1 ← lift (vget learnt_clause 1);
      l2 ← lift (vget learnt_clause 2);
      modify (fun st => set_lastLong (wrap64 (lastLong st + 1)) st);;
      attachClause cl None;;
      enqueue l0 (tertiary_t l1 l2)
  | _ =>
      modify (fun st => set_lastLong (wrap64 (lastLong st + 1)) st);;
      attachClause cl None;;
      enqueue l0 (clause_t cl 0)
  end.

(** [handle_conflict(params, confl)]; the result is the returned value and
    [params], which the function takes by reference.  [genConfGraph] only
    writes a file. *)
Definition handle_conflict (params : SearchFuncParams) (confl : PropBy)
  : M (bool * SearchFuncParams) :=
  modify (fun st => set_numConflicts (wrap64 (numConflicts st + 1)) st);;
  let params1 :=
    set_conflictsDoneThisRestart (wrap64 (conflictsDoneThisRestart params + 1)) params in
  st ← gets id;
  if decide (decisionLevel st = 0) then ret (false, params1)
  else
    '(learnt0, backtrack_level, glue0) ← analyze confl [];
    (if update params1 then
       modify (fun st => set_avgBranchDepth (avgBranchDepth st ++ [decisionLevel st]) st);;
       modify (fun st => set_glueHistory (glueHistory st ++ [glue0]) st);;
       modify (fun st => set_conflSizeHist
                 (conflSizeHist st ++ [N.of_nat (length learnt0)]) st)
     else ret tt);;
    cancelUntil backtrack_level;;
    l0 ← lift (vget learnt0 0);
    v0 ← value l0;
    assert (bool_decide (v0 = l_Undef)) "value(learnt_clause[0]) == l_Undef";;
    st1 ← gets id;
    let learnt_clause :=
      take 1 learnt0 ++ std_sort Lit (PolaritySorter (varData st1)) (drop 1 learnt0) in
    let glue := N.min glue0 MAX_THEORETICAL_GLUE in
    syncFromThreadControl;;
    cl ← newClauseByThread learnt_clause glue;
    handle_conflict_attach learnt_clause backtrack_level cl;;
    modify (fun st => set_ext (varDecayActivity (ext st)) st);;
    ret (true, params1).

(** The [while (true)] loop of [search]; it has no bound of its own, [fuel]
    bounds the number of turns. *)
Fixpoint search_loop (fuel : nat) (params : SearchFuncParams) : M lbool :=
  match fuel with
  | O => fail OutOfFuel
  | S fuel' =>
      st ← gets id;
      assert (ok st) "ok";;
      let oldTrailSize := length (trail st) in
      confl ← propagate (update params);
      st1 ← gets id;
      (if decide (decisionLevel st1 = 0 /\ (oldTrailSize < length (trail st1))%nat)
       then addToThreads oldTrailSize else ret tt);;
      if negb (isNULL confl) then
        params1 ← checkNeedRestart params;
        '(r, params2) ← handle_conflict params1 confl;
        if r : bool then
          r' ← addOtherClauses;
          if r' : bool then search_loop fuel' params2 else ret l_False
        else ret l_False
      else
        st2 ← gets id;
        assert (ok st2) "ok";;
        if decide (needToStopSearch params = true
                   \/ nextCleanLimit (control st2) < lastSumConfl st2) then
          cancelUntil 0;;
          ret l_Undef
        else
          r ← new_decision params;
          if decide (r = l_Undef) then search_loop fuel' params else ret r
  end.

Definition search (fuel : nat) (params : SearchFuncParams) : M lbool :=
  st ← gets id;
  assert (ok st) "ok";;
  (if update params
   then modify (fun st => set_numRestarts (wrap64 (numRestarts st + 1)) st)
   else ret tt);;
  modify (set_glueHistory []);;
  modify (fun st => set_ext (agility_reset (ext st)) st);;
  search_loop fuel params.

End Search.

(** ** Definitions used to state the properties *)

(** The position of a literal in a vector indexed by [toInt()] *)
Definition idx (p : Lit) : nat := N.to_nat (toInt p).

(** What [Simplifier.mark] computes when no write is out of range *)
Definition marked (B : list Lit) (v : bool) (seen : list bool) : list bool :=
  foldl (fun s b => <[idx b := v]> s) seen B.

(** The literals that the compaction of [minimiseLearntFurther] keeps, given
    the [seen] vector it starts from: a literal is kept the first time it is
    met with its bit set, and its bit is cleared when it is met. *)
Fixpoint compacted (seen : list bool) (cl : list Lit) : list Lit :=
  match cl with
  | [] => []
  | l :: cl' =>
      let seen' := <[idx l := false]> seen in
      match seen !! idx l with
      | Some true => l :: compacted seen' cl'
      | _ => compacted seen' cl'
      end
  end.

Section Claims.

Context {Ext : Type}.

Local Abbreviation State := (CommandControl Ext).

Definition is_decision_var (st : State) (v : Var) : Prop :=
  decision_var (control st) !! N.to_nat v = Some true.

(** The assignment vector after the loop of [cancelUntil] *)
Definition unassign (undone : list Lit) (a : list lbool) : list lbool :=
  foldl (fun a p => <[N.to_nat (var p) := l_Undef]> a) a undone.

(** What the specification says of [cancelUntil(lvl)], from [st] to [st']:
    every undone variable has the value Undef, no reason, its sign as saved
    polarity, and is in the order heap; the trail, [trail_lim] and [qhead]
    are cut at [trail_lim[lvl]]. *)
Definition cancelUntil_claimed (lvl : N) (st st' : State) : Prop :=
  exists lim,
    trail_lim st !! N.to_nat lvl = Some lim
    /\ (forall p, p ∈ drop (N.to_nat lim) (trail st) ->
          assigns st' !! N.to_nat (var p) = Some l_Undef
          /\ (exists d, varData st' !! N.to_nat (var p) = Some d
                        /\ reason d = null_clause_t /\ polarity d = sign p)
          /\ var p ∈ order_heap st')
    /\ trail st' = take (N.to_nat lim) (trail st)
    /\ trail_lim st' = take (N.to_nat lvl) (trail_lim st)
    /\ qhead st' = lim.

(** The trail limits as the specification states them, [trail_lim[i] <
    trail_lim[i+1]], and as the code keeps them, [trail_lim[i] <=
    trail_lim[i+1]] *)
Definition trail_lim_strict (l : list N) : Prop :=
  forall (i : nat) a b, l !! i = Some a -> l !! S i = Some b -> a < b.

Definition trail_lim_monotone (l : list N) : Prop :=
  forall (i : nat) a b, l !! i = Some a -> l !! S i = Some b -> a <= b.

(** The trail limits are monotone, none is beyond the trail, and there are
    [decisionLevel()] of them. *)
Definition trail_ok (st : State) : Prop :=
  trail_lim_monotone (trail_lim st)
  /\ Forall (fun lim => (N.to_nat lim <= length (trail st))%nat) (trail_lim st)
  /\ decisionLevel st = N.of_nat (length (trail_lim st)).

(** The state in which [search] enters its loop *)
Definition search_entry {C : Collaborators Ext} (params : SearchFuncParams) (st : State)
  : State :=
  let st1 := if update params
             then set_numRestarts (wrap64 (numRestarts st + 1)) st else st in
  let st2 := set_glueHistory [] st1 in
  set_ext (agility_reset (ext st2)) st2.

(** [params] after the two counters of [handle_conflict] *)
Definition counted (params : SearchFuncParams) : SearchFuncParams :=
  set_conflictsDoneThisRestart (wrap64 (conflictsDoneThisRestart params + 1)) params.

(** The decision level of the variable of a literal *)
Definition lit_level (vd : list VarData) (l : Lit) : option N :=
  level <$> vd !! N.to_nat (var l).

(** The decision level of the literal at position [k] of a clause *)
Definition level_at (vd : list VarData) (cl : list Lit) (k : nat) : option N :=
  match cl !! k with
  | Some l => lit_level vd l
  | None => None
  end.

(** The trail and its limits *)
Definition trails (st : State) : list Lit * list N := (trail st, trail_lim st).

(** [m] does not change the part [f] of the state. *)
Definition keeps {X A} (f : State -> X) (m : M (Ext := Ext) A) : Prop :=
  forall st a st', m st = Ok (a, st') -> f st' = f st.

(** [m] keeps the trail limits in order. *)
Definition keeps_trail_ok {A} (m : M (Ext := Ext) A) : Prop :=
  forall st a st', trail_ok st -> m st = Ok (a, st') -> trail_ok st'.

(** The states that the search reaches from [st0]: those that a sequence of
    runs of the functions that [search] and its callees call leads to. *)
Inductive reachable {C : Collaborators Ext} (st0 : State) : State -> Prop :=
| reach_here : reachable st0 st0
| reach_propagate st upd confl st' :
    reachable st0 st -> propagate upd st = Ok (confl, st') -> reachable st0 st'
| reach_newDecisionLevel st st' :
    reachable st0 st -> newDecisionLevel st = Ok (tt, st') -> reachable st0 st'
| reach_enqueue st p from st' :
    reachable st0 st -> enqueue p from st = Ok (tt, st') -> reachable st0 st'
| reach_cancelUntil st lvl st' :
    reachable st0 st -> cancelUntil lvl st = Ok (tt, st') -> reachable st0 st'
| reach_analyzeFinal st p out st' :
    reachable st0 st -> analyzeFinal p st = Ok (out, st') -> reachable st0 st'
| reach_pickBranchLit st l st' :
    reachable st0 st -> pickBranchLit st = Ok (l, st') -> reachable st0 st'
| reach_new_decision st params r st' :
    reachable st0 st -> new_decision params st = Ok (r, st') -> reachable st0 st'
| reach_analyze st confl out r st' :
    reachable st0 st -> analyze confl out st = Ok (r, st') -> reachable st0 st'
| reach_syncFromThreadControl st st' :
    reachable st0 st -> syncFromThreadControl st = Ok (tt, st') -> reachable st0 st'
| reach_checkNeedRestart st params params' st' :
    reachable st0 st -> checkNeedRestart params st = Ok (params', st') ->
    reachable st0 st'
| reach_addToThreads st n st' :
    reachable st0 st -> addToThreads n st = Ok (tt, st') -> reachable st0 st'
| reach_handle_conflict st params confl r st' :
    reachable st0 st -> handle_conflict params confl st = Ok (r, st') ->
    reachable st0 st'
| reach_handleNewBin st binCl r st' :
    reachable st0 st -> handleNewBin binCl st = Ok (r, st') -> reachable st0 st'
| reach_handleNewLong st offset r st' :
    reachable st0 st -> handleNewLong offset st = Ok (r, st') -> reachable st0 st'
| reach_addOtherClauses st r st' :
    reachable st0 st -> addOtherClauses st = Ok (r, st') -> reachable st0 st'
| reach_search st fuel params r st' :
    reachable st0 st -> search fuel params st = Ok (r, st') -> reachable st0 st'.

End Claims.

(** ** Concrete workers, for running the functions *)

Module Examples.

Fixpoint insert_by {A} (lt : A -> A -> bool) (x : A) (l : list A) : list A :=
  match l with
  | [] => [x]
  | y :: l' => if lt y x then y :: insert_by lt x l' else x :: l
  end.

Definition sort_by {A} (lt : A -> A -> bool) (l : list A) : list A :=
  foldr (insert_by lt) [] l.

(** Collaborators that do nothing: propagation finds nothing, the random
    generator returns 0, the heap gives its first member, publishing a clause
    returns offset 0. *)
#[local] Instance quiet : Collaborators unit := {|
  propagate := fun _ => ret null_clause_t;
  varBumpActivity := fun _ e => e;
  varDecayActivity := fun e => e;
  getPolarity := fun v vd e => (default false (polarity <$> vd !! N.to_nat v), e);
  attachBinClause := fun _ _ _ _ => ret tt;
  attachClause := fun _ _ => ret tt;
  newClauseByThread := fun _ _ => ret 0;
  agility_reset := fun e => e;
  agility_below_limit := fun _ => false;
  agility_tooLow := fun _ e => e;
  agility_numTooLow_over := fun _ => false;
  rand_below_freq := fun e => (false, e);
  randInt := fun _ e => (0, e);
  heap_min := fun _ _ => 0%nat;
  std_sort := fun A lt l => sort_by lt l;
  PolaritySorter := fun _ _ _ => false;
  MAX_THEORETICAL_GLUE := 1000
|}.

(** The same, with a propagation that reports the binary conflict on
    literal 0. *)
#[local] Instance conflicting : Collaborators unit := {|
  propagate := fun _ => ret (binary_t (toLit 0));
  varBumpActivity := fun _ e => e;
  varDecayActivity := fun e => e;
  getPolarity := fun v vd e => (default false (polarity <$> vd !! N.to_nat v), e);
  attachBinClause := fun _ _ _ _ => ret tt;
  attachClause := fun _ _ => ret tt;
  newClauseByThread := fun _ _ => ret 0;
  agility_reset := fun e => e;
  agility_below_limit := fun _ => false;
  agility_tooLow := fun _ e => e;
  agility_numTooLow_over := fun _ => false;
  rand_below_freq := fun e => (false, e);
  randInt := fun _ e => (0, e);
  heap_min := fun _ _ => 0%nat;
  std_sort := fun A lt l => sort_by lt l;
  PolaritySorter := fun _ _ _ => false;
  MAX_THEORETICAL_GLUE := 1000
|}.

Definition conf_cache : SolverConf :=
  {| doCache := true; doMinimLearntMore := true; doAlwaysFMinim := false;
     doPrintConflDot := false; verbosity := 0 |}.

Definition conf_nocache : SolverConf :=
  {| doCache := false; doMinimLearntMore := true; doAlwaysFMinim := false;
     doPrintConflDot := false; verbosity := 0 |}.

(** A shared control for [n] decision variables, with empty caches and logs *)
Definition control_of (n : nat) : ThreadControl :=
  {| decision_var := replicate n true;
     implCache := replicate (2 * n) [];
     litReachable := replicate (2 * n) lit_Undef;
     longLearntsToAdd := [];
     binLearntsToAdd := [];
     unitLearntsToAdd := [];
     nextCleanLimit := 1000000 |}.

Definition unassigned : VarData :=
  {| level := 0; reason := null_clause_t; polarity := false |}.

(** A worker on [n] variables, none of them assigned *)
Definition fresh (n : nat) : CommandControl unit :=
  {| ok := true; trail := []; trail_lim := []; qhead := 0;
     assigns := replicate n l_Undef; varData := replicate n unassigned;
     seen := replicate (2 * n) false; toClear := [];
     watches := replicate (2 * n) []; failBinLit := lit_Undef;
     clAllocator := ∅; clauseData := [];
     order_heap := N.of_nat <$> seq 0 n; assumptions := []; conflict := [];
     unitToAdd := []; binToAdd := []; longToAdd := [];
     lastSumConfl := 0; lastLong := 0; lastBin := 0; lastUnit := 0;
     numConflicts := 0; numRestarts := 0; decisions := 0; rnd_decisions := 0;
     max_literals := 0; tot_literals := 0; furtherClMinim := 0;
     numShrinkedClause := 0; numShrinkedClauseLits := 0;
     needToInterrupt := false;
     avgBranchDepth := []; glueHistory := []; conflSizeHist := [];
     conf := conf_cache; control := control_of n; ext := tt |}.

(** The state of a run: the literals of [steps] are decided or implied
    in turn, [None] opening a decision level. *)
Fixpoint play (steps : list (option (Lit * PropBy))) (st : CommandControl unit)
  : Res (CommandControl unit) :=
  match steps with
  | [] => Ok st
  | None :: steps' =>
      match newDecisionLevel st with
      | Ok (_, st') => play steps' st'
      | Fail e => Fail e
      end
  | Some (p, from) :: steps' =>
      match enqueue p from st with
      | Ok (_, st') => play steps' st'
      | Fail e => Fail e
      end
  end.

Definition played (n : nat) (steps : list (option (Lit * PropBy))) : CommandControl unit :=
  match play steps (fresh n) with
  | Ok st => st
  | Fail _ => fresh n
  end.

(** Three variables; the watch list of literal 1 ([~x0]) holds the binary
    clause with the other literal 3 ([~x1]). *)
Definition st_minim : CommandControl unit :=
  set_watches (<[1%nat := [BinaryWatch (toLit 3) false]]> (replicate 6 [])) (fresh 3).

(** Three variables: [x0] is a fact of level 0; [x1] is decided at level 1
    and implies [x2] through the binary clause [~x1 \/ x2].  The heap is
    empty. *)
Definition st_cancel : CommandControl unit :=
  set_order_heap []
    (played 3 [Some (toLit 0, null_clause_t); None;
               Some (toLit 2, null_clause_t);
               Some (toLit 4, binary_t (toLit 3))]).

(** [st_cancel] after [cancelUntil(0)] *)
Definition st_cancelled : CommandControl unit :=
  set_trail_lim []
    (set_trail [toLit 0]
       (set_qhead 1
          (set_order_heap [2; 1]
             (set_assigns [l_True; l_Undef; l_Undef] st_cancel)))).

(** [st_cancel] with the unit [~x0] to import, before and after
    [cancelUntil(0)] *)
Definition st_unit_false : CommandControl unit := set_unitToAdd [toLit 1] st_cancel.

Definition st_unit_false_cancelled : CommandControl unit :=
  set_unitToAdd [toLit 1] st_cancelled.

(** Three variables: [x0] and [x1] are facts of level 0; the assumptions
    are [x0], [x1] and [x2]. *)
Definition st_assume : CommandControl unit :=
  set_assumptions [toLit 0; toLit 2; toLit 4]
    (played 3 [Some (toLit 0, null_clause_t); Some (toLit 2, null_clause_t)]).

(** [st_assume] after [new_decision]: two dummy levels for [x0] and [x1],
    then the level of [x2] *)
Definition st_assumed : CommandControl unit :=
  set_assumptions [toLit 0; toLit 2; toLit 4]
    (played 3 [Some (toLit 0, null_clause_t); Some (toLit 2, null_clause_t);
               None; None; None; Some (toLit 4, null_clause_t)]).

(** [x0] is a fact of level 0; the only assumption is [~x0]. *)
Definition st_assume_false : CommandControl unit :=
  set_assumptions [toLit 1] (played 3 [Some (toLit 0, null_clause_t)]).

(** [x0] is a fact of level 0; the only assumption is [x2]. *)
Definition st_assume_undef : CommandControl unit :=
  set_assumptions [toLit 4] (played 3 [Some (toLit 0, null_clause_t)]).

(** Four variables: [x0], [x1], [x2] are decided at levels 1, 2, 3; [x3] is
    implied at level 3 by the binary clause [~x2 \/ x3]; the clause [~x0 \/
    ~x1 \/ ~x3 \/ ~x2] at offset 0 is the conflict. *)
Definition st_conflict : CommandControl unit :=
  set_clauseData [{| litPos := [0; 1] |}]
    (set_clAllocator {[ 0 := {| lits := [toLit 1; toLit 3; toLit 7; toLit 5];
                                getNum := 0 |} ]}
       (played 4 [None; Some (toLit 0, null_clause_t);
                  None; Some (toLit 2, null_clause_t);
                  None; Some (toLit 4, null_clause_t);
                  Some (toLit 6, binary_t (toLit 5))])).

(** The same worker, configured without the implication cache *)
Definition st_conflict_nocache : CommandControl unit :=
  set_conf conf_nocache st_conflict.

(** [st_conflict] after [analyze] *)
Definition st_analyzed : CommandControl unit :=
  set_max_literals 3 (set_tot_literals 3 (set_furtherClMinim 1 st_conflict)).

Definition params0 : SearchFuncParams :=
  {| needToStopSearch := false; update := true;
     conflictsDoneThisRestart := 0; conflictsToDo := 100 |}.

End Examples.

(** ** Simplifier.h: clause abstractions, [CSet] and the touched variables *)

Module ClauseSets.

(** [calcAbstraction]: one bit per literal.  [1 << (toInt() & 31)] shifts
    the [int] 1; [|=] stores the result, bit 31 included, in the
    [uint32_t]. *)
Definition calcAbstraction (ps : list Lit) : N :=
  foldl (fun abstraction p => N.lor abstraction (N.shiftl 1 (N.land (toInt p) 31)))
    0 ps.

(** [~B] on [uint64_t] *)
Definition not64 (B : N) : N := N.lxor (wrap64 B) (N.ones 64).

(** [Simplifier::subsetAbst]: [!(A & ~B)] *)
Definition subsetAbst (A B : N) : bool :=
  bool_decide (N.land (wrap64 A) (not64 B) = 0).

(** [ClauseSimp]; the pointer [clause] is [None] when it is [NULL]. *)
Record ClauseSimp : Type := mkClauseSimp {
  clause : option Clause;
  abst : N;
  index : N
}.

(** The constructor [ClauseSimp(Clause* c, uint32_t _index)] *)
Definition newClauseSimp (c : Clause) (_index : N) : ClauseSimp :=
  {| clause := Some c; abst := calcAbstraction (lits c); index := _index |}.

Definition set_abst (a : N) (c : ClauseSimp) : ClauseSimp :=
  {| clause := clause c; abst := a; index := index c |}.
Definition set_clause (p : option Clause) (c : ClauseSimp) : ClauseSimp :=
  {| clause := p; abst := abst c; index := index c |}.

(** [-1] stored in a [uint] *)
Definition NONE : N := 4294967295.

(** [CSet]; [where] is a keyword, the field is [where_]. *)
Record CSet : Type := mkCSet {
  where_ : list N;
  which : list ClauseSimp;
  free : list N
}.

(** [vec::growTo(size, pad)] (Vec.h is not part of the sources): pads the
    vector up to [size] elements, and does nothing to a longer one. *)
Definition growTo {A} (size : nat) (pad : A) (v : list A) : list A :=
  v ++ replicate (size - length v) pad.

(** An [int] *)
Definition wrapS32 (z : Z) : Z := ((z + 2 ^ 31) mod 2 ^ 32 - 2 ^ 31)%Z.

Definition size (s : CSet) : Z := wrapS32 (Z.of_nat (length (which s))).

Definition nElems (s : CSet) : Z :=
  wrapS32 (wrapS32 (Z.of_nat (length (which s))) - wrapS32 (Z.of_nat (length (free s)))).

Definition add (c : ClauseSimp) (s : CSet) : Res (bool * CSet) :=
  match clause c with
  | None => Fail (AssertFailed "c.clause != NULL")
  | Some _ =>
      let w := growTo (N.to_nat (wrap32 (index c + 1))) NONE (where_ s) in
      try p := vget w (index c) in
      if decide (p ≠ NONE) then
        (* already in, only update *)
        try cs := vget (which s) p in
        try wh := vset (which s) p (set_abst (abst c) cs) in
        Ok (true, mkCSet w wh (free s))
      else
        match last (free s) with
        | Some f =>
            try w' := vset w (index c) f in
            try wh := vset (which s) f c in
            Ok (false, mkCSet w' wh (removelast (free s)))
        | None =>
            try w' := vset w (index c) (wrap32 (N.of_nat (length (which s)))) in
            Ok (false, mkCSet w' (which s ++ [c]) (free s))
        end
  end.

Definition exclude (c : ClauseSimp) (s : CSet) : Res (bool * CSet) :=
  match clause c with
  | None => Fail (AssertFailed "c.clause != NULL")
  | Some _ =>
      if decide (N.of_nat (length (where_ s)) <= index c) then Ok (false, s)
      else
        try p := vget (where_ s) (index c) in
        if decide (p = NONE) then Ok (false, s)
        else
          let fr := free s ++ [p] in
          try cs := vget (which s) p in
          try wh := vset (which s) p (set_clause None cs) in
          try w := vset (where_ s) (index c) NONE in
          Ok (true, mkCSet w wh fr)
  end.

(** The loop of [CSet::clear] *)
Fixpoint clear_loop (cs : list ClauseSimp) (w : list N) : Res (list N) :=
  match cs with
  | [] => Ok w
  | c :: cs' =>
      match clause c with
      | Some _ => try w' := vset w (index c) NONE in clear_loop cs' w'
      | None => clear_loop cs' w
      end
  end.

Definition clear (s : CSet) : Res CSet :=
  try w := clear_loop (which s) (where_ s) in
  Ok (mkCSet w [] []).

Definition update (c : ClauseSimp) (s : CSet) : Res CSet :=
  if decide (N.of_nat (length (where_ s)) <= index c) then Ok s
  else
    try p := vget (where_ s) (index c) in
    if decide (p = NONE) then Ok s
    else
      try cs := vget (which s) p in
      try wh := vset (which s) p (set_abst (abst c) cs) in
      Ok (mkCSet (where_ s) wh (free s)).

(** The members [touched] and [touched_list] of [Simplifier]; a [char] is
    its number. *)
Record Touched : Type := mkTouched {
  touched : list N;
  touched_list : list Var
}.

(** [Simplifier::touch(const Var x)] and [touch(const Lit p)] *)
Definition touch (x : Var) (s : Touched) : Res Touched :=
  try t := vget (touched s) x in
  if decide (t = 0) then
    try t' := vset (touched s) x 1 in
    Ok (mkTouched t' (touched_list s ++ [x]))
  else Ok s.

Definition touch_lit (p : Lit) (s : Touched) : Res Touched := touch (var p) s.

(** *** What the properties of [CSet] are stated with *)

(** The entry of the clause with index [i], if the set holds one *)
Definition entry (s : CSet) (i : N) : option ClauseSimp :=
  match where_ s !! N.to_nat i with
  | Some p => if decide (p = NONE) then None else which s !! N.to_nat p
  | None => None
  end.

Definition mem (s : CSet) (i : N) : Prop := is_Some (entry s i).

(** The three vectors agree: [where] and the live entries of [which] point
    at each other, and [free] lists the dead entries of [which], once
    each. *)
Definition wf (s : CSet) : Prop :=
  (forall i p, where_ s !! i = Some p -> p ≠ NONE ->
     exists cs, which s !! N.to_nat p = Some cs
                /\ is_Some (clause cs) /\ index cs = N.of_nat i)
  /\ (forall p cs, which s !! p = Some cs -> is_Some (clause cs) ->
        where_ s !! N.to_nat (index cs) = Some (N.of_nat p))
  /\ (forall p, p ∈ free s <->
        exists cs, which s !! N.to_nat p = Some cs /\ clause cs = None)
  /\ NoDup (free s).

(** [touched_list] lists the variables whose [touched] is set, once each. *)
Definition touched_ok (s : Touched) : Prop :=
  NoDup (touched_list s)
  /\ forall x, x ∈ touched_list s <->
       exists t, touched s !! N.to_nat x = Some t /\ t ≠ 0.

End ClauseSets.
(** ** [MyAttachSorter::operator()], with its assertion *)

(** The comparator on the values and levels of two literals, failing where
    the source's [assert(val1 == val2)] fails *)
Definition MyAttachSorter_asserting (k1 k2 : lbool * N) : Res bool :=
  let '(val1, lev1) := k1 in
  let '(val2, lev2) := k2 in
  if bool_decide (val1 = l_True /\ val2 ≠ l_True) then Ok true
  else if bool_decide (val2 = l_True /\ val1 ≠ l_True) then Ok false
  else if bool_decide (val1 = l_Undef /\ val2 ≠ l_Undef) then Ok true
  else if bool_decide (val2 = l_Undef /\ val1 ≠ l_Undef) then Ok false
  else if bool_decide (val1 = val2) then Ok (bool_decide (lev2 < lev1))
  else Fail (AssertFailed "val1 == val2").
(** ** option_description.cpp: the names of a command-line option *)

Module Options.

(** A [std::string], as the list of its characters *)
Definition str : Type := list ascii.

(** [std::string::find(c)]: the position of the first [c], if any *)
Definition find (c : ascii) (s : str) : option nat :=
  fst <$> list_find (fun x => x = c) s.

(** [std::string::substr(pos, n)]; every call of the source has
    [pos <= size()], where it does not throw. *)
Definition substr (pos n : nat) (s : str) : str := take n (drop pos s).

(** The members that [set_name], [name] and [format_name] use; [m_id] is an
    [int]. *)
Record option_description : Type := mkOption {
  m_description : str;
  m_short_name : str;
  m_long_name : str;
  m_id : Z
}.

(** [option_description::set_name]; [this_id] is [(int)((size_t)this)], and
    [name.size() - 2] is computed on [size_t]. *)
Definition set_name (this_id : Z) (_name : str) (o : option_description)
  : Res option_description :=
  match find ","%char _name with
  | Some n =>
      if decide (Z.of_nat n = (Z.of_nat (length _name) - 2) mod 2 ^ 64)%Z then
        Ok {| m_description := m_description o;
              m_long_name := substr 0 n _name;
              m_short_name := "-"%char :: substr (n + 1) 1 _name;
              m_id := this_id |}
      else Fail (AssertFailed "n == name.size() - 2")
  | None =>
      if decide (length _name < 2)%nat then
        Ok {| m_description := m_description o;
              m_long_name := [];
              m_short_name := "-"%char :: _name;
              m_id := this_id |}
      else
        Ok {| m_description := m_description o;
              m_long_name := _name;
              m_short_name := [];
              m_id := this_id |}
  end.

(** [option_description::name] *)
Definition name (o : option_description) : Res str :=
  match m_long_name o with
  | [] =>
      if decide (length (m_short_name o) = 2%nat) then
        if decide (m_short_name o !! 0%nat = Some "-"%char) then
          Ok (drop 1 (m_short_name o))
        else Fail (AssertFailed "m_short_name[0] == '-'")
      else Fail (AssertFailed "m_short_name.size() == 2")
  | _ => Ok (m_long_name o)
  end.

(** [option_description::format_name] *)
Definition format_name (o : option_description) : str :=
  match m_short_name o with
  | [] => ["-"; "-"]%char ++ m_long_name o
  | _ =>
      match m_long_name o with
      | [] => m_short_name o
      | _ => m_short_name o ++ [" "; "["; "-"; "-"]%char ++ m_long_name o ++ ["]"%char]
      end
  end.

End Options.
(** ** Definitions used to state further properties *)

Section MoreClaims.

Context {Ext : Type}.

Local Abbreviation State := (CommandControl Ext).

(** The order heap holds no variable twice, and decision variables only. *)
Definition heap_ok (st : State) : Prop :=
  NoDup (order_heap st) /\ forall v, v ∈ order_heap st -> is_decision_var st v.

(** A decision of the trail: a literal without a reason above level 0 *)
Definition is_decision (st : State) (t : Lit) : Prop :=
  exists d, varData st !! N.to_nat (var t) = Some d
            /\ reason d = null_clause_t /\ 0 < level d.


(** What neither branching nor the analysis of a conflict may change *)
Definition assignment (st : State)
  : list Lit * list N * list lbool * list VarData * ThreadControl :=
  (trail st, trail_lim st, assigns st, varData st, control st).

(** [st'] is [st] with another [seen] vector of the same size, in which
    only positions of [T] may have been set *)
Definition seen_step (T : nat -> Prop) (st st' : State) : Prop :=
  exists s, st' = set_seen s st /\ length s = length (seen st)
            /\ forall k, s !! k = Some true -> seen st !! k = Some true \/ T k.

(** The positions of the literals of a clause in [seen] *)
Definition positions (cl : list Lit) (k : nat) : Prop := exists l, l ∈ cl /\ idx l = k.

(** A literal assigned above level 0, at another level than [dl] *)
Definition other_level (vd : list VarData) (dl : N) (q : Lit) : Prop :=
  exists d, vd !! N.to_nat (var q) = Some d /\ 0 < level d /\ level d ≠ dl.

(** [out'] is [out] with literals of other levels than the current one
    pushed behind it. *)
Definition extended (st : State) (out out' : list Lit) : Prop :=
  exists extra, out' = out ++ extra
                /\ Forall (other_level (varData st) (decisionLevel st)) extra.

End MoreClaims.

(** ** More concrete workers *)

Module Runs.

(** Three variables: [x0] is decided at level 1 and implies [x1] through the
    binary clause [~x0 \/ x1]. *)
Definition st_implied : CommandControl unit :=
  Examples.played 3 [None; Some (toLit 0, null_clause_t);
                     Some (toLit 2, binary_t (toLit 1))].

(** The state that a computation ends in (the starting state if it fails) *)
Definition final {A} (m : M (Ext := unit) A) (st : CommandControl unit)
  : CommandControl unit :=
  match m st with
  | Ok (_, st') => st'
  | Fail _ => st
  end.

(** [Examples.st_conflict] after [handle_conflict] on its conflict *)
Definition st_handled : CommandControl unit :=
  final (handle_conflict (C := Examples.quiet) Examples.params0 (clause_t 0 0))
    Examples.st_conflict.

(** Parameters of a search that has been asked to stop *)
Definition params_stop : SearchFuncParams :=
  {| needToStopSearch := true; update := true;
     conflictsDoneThisRestart := 0; conflictsToDo := 100 |}.

(** [Examples.st_cancel] after a [search] that was asked to stop *)
Definition st_restarted : CommandControl unit :=
  final (search (C := Examples.quiet) 1 params_stop) Examples.st_cancel.

(** Three variables: [x0] and [x1] are facts of level 0. *)
Definition st_facts : CommandControl unit :=
  Examples.played 3 [Some (toLit 0, null_clause_t); Some (toLit 2, null_clause_t)].

(** Three variables, all facts of level 0; the clause [~x0 \/ ~x1 \/ ~x2] at
    offset 0 has come from another thread. *)
Definition st_long_false : CommandControl unit :=
  set_clAllocator {[ 0 := {| lits := [toLit 1; toLit 3; toLit 5]; getNum := 0 |} ]}
    (Examples.played 3 [Some (toLit 0, null_clause_t); Some (toLit 2, null_clause_t);
                        Some (toLit 4, null_clause_t)]).

(** A clause set that holds the clause [x1 \/ ~x2] under index 2, and the
    clause [~x0 \/ x3] that it does not hold, with index 0 *)
Definition c_a : ClauseSets.ClauseSimp :=
  ClauseSets.newClauseSimp {| lits := [toLit 2; toLit 5]; getNum := 0 |} 2.

Definition c_b : ClauseSets.ClauseSimp :=
  ClauseSets.newClauseSimp {| lits := [toLit 1; toLit 6]; getNum := 1 |} 0.

Definition cs_one : ClauseSets.CSet :=
  ClauseSets.mkCSet [ClauseSets.NONE; ClauseSets.NONE; 0] [c_a] [].

(** Three variables, of which [x1] has been touched *)
Definition touched_one : ClauseSets.Touched := ClauseSets.mkTouched [0; 1; 0] [1].

(** [Examples.st_assumed] after [cancelUntil(1)] *)
Definition st_cut : CommandControl unit := final (cancelUntil 1) Examples.st_assumed.

End Runs.

(** ** Facts on vectors *)

Lemma idx_inj p q : idx p = idx q -> p = q.
Proof.
  destruct p as [a], q as [b]. unfold idx. simpl. intros H.
  f_equal. lia.
Qed.

Lemma marked_length B v seen : length (marked B v seen) = length seen.
Proof.
  revert seen. induction B as [|b B IH]; intros seen; simpl; [done|].
  unfold marked in *. simpl. rewrite IH. by rewrite length_insert.
Qed.

Lemma mark_marked B v seen :
  Forall (fun b => (idx b < length seen)%nat) B ->
  Simplifier.mark B v seen = Ok (marked B v seen).
Proof.
  revert seen. induction B as [|b B IH]; intros seen HB; simpl; [done|].
  inversion HB as [|? ? Hb HB']; subst.
  unfold vset. fold (idx b). rewrite decide_True by done. simpl.
  rewrite IH; [done|].
  eapply Forall_impl; [exact HB'|]. intros x Hx. simpl in Hx. by rewrite length_insert.
Qed.

Lemma marked_snoc B b v seen :
  marked (B ++ [b]) v seen = <[idx b := v]> (marked B v seen).
Proof. unfold marked. by rewrite foldl_app. Qed.

Lemma marked_lookup_in B v seen p :
  p ∈ B -> (idx p < length seen)%nat -> marked B v seen !! idx p = Some v.
Proof.
  intros Hin Hlt. induction B as [|b B IH] using rev_ind.
  - by apply elem_of_nil in Hin.
  - rewrite marked_snoc.
    destruct (decide (idx b = idx p)) as [E|NE].
    + rewrite E. apply list_lookup_insert_eq. by rewrite marked_length.
    + rewrite list_lookup_insert_ne by done. apply IH.
      apply elem_of_app in Hin as [|Hin]; [done|].
      apply list_elem_of_singleton in Hin. congruence.
Qed.

Lemma marked_lookup_notin B v seen (i : nat) :
  (forall p, p ∈ B -> idx p ≠ i) -> marked B v seen !! i = seen !! i.
Proof.
  intros Hn. induction B as [|b B IH] using rev_ind; [done|].
  rewrite marked_snoc, list_lookup_insert_ne.
  - apply IH. intros p Hp. apply Hn, elem_of_app. by left.
  - apply Hn, elem_of_app. right. by apply list_elem_of_singleton.
Qed.

Lemma idx_of_nat (i : nat) : idx (toLit (N.of_nat i)) = i.
Proof. unfold idx. simpl. lia. Qed.

(** Marking with [false] over an all-zero vector that was marked on the same
    literals restores it. *)
Lemma marked_clear B seen :
  Forall (fun s => s = false) seen ->
  marked B false (marked B true seen) = seen.
Proof.
  intros Hz. apply list_eq. intros i.
  destruct (decide (i < length seen)%nat) as [Hlt|Hge].
  - destruct (decide (toLit (N.of_nat i) ∈ B)) as [Hin|Hnin].
    + pose proof (marked_lookup_in B false (marked B true seen) _ Hin) as H.
      rewrite idx_of_nat in H. rewrite H by (by rewrite marked_length).
      destruct (lookup_lt_is_Some_2 seen i Hlt) as [s Hs].
      rewrite Hs. f_equal. symmetry.
      eapply (proj1 (Forall_lookup _ _) Hz); eauto.
    + assert (forall p, p ∈ B -> idx p ≠ i) as Hn.
      { intros p Hp E. apply Hnin. subst i.
        unfold idx. rewrite N2Nat.id. by destruct p. }
      by rewrite !marked_lookup_notin.
  - rewrite !lookup_ge_None_2; [done|lia|].
    rewrite !marked_length. lia.
Qed.

Lemma subset_scan_spec A B seen0 :
  Forall (fun s => s = false) seen0 ->
  Forall (fun b => (idx b < length seen0)%nat) A ->
  Forall (fun b => (idx b < length seen0)%nat) B ->
  Simplifier.subset_scan A B (marked B true seen0)
  = Ok (bool_decide (A ⊆ B), seen0).
Proof.
  intros Hz HA HB.
  assert (Simplifier.mark B false (marked B true seen0) = Ok seen0) as Hclr.
  { rewrite mark_marked.
    - by rewrite marked_clear.
    - eapply Forall_impl; [exact HB|]. intros x Hx. simpl in *.
      by rewrite marked_length. }
  induction A as [|a A IH]; cbn [Simplifier.subset_scan].
  - rewrite Hclr. cbn [rbind].
    by rewrite (bool_decide_eq_true_2 _ (list_subseteq_nil B)).
  - inversion HA as [|? ? Ha HA']; subst.
    unfold vget. fold (idx a).
    destruct (decide (a ∈ B)) as [Hin|Hnin].
    + rewrite marked_lookup_in by done. cbn [rbind].
      rewrite IH by done. do 2 f_equal.
      apply bool_decide_ext. split.
      * intros Hs x Hx. apply elem_of_cons in Hx as [->|]; auto.
      * intros Hs x Hx. apply Hs. by right.
    + rewrite marked_lookup_notin.
      2:{ intros p Hp E. apply idx_inj in E. congruence. }
      destruct (lookup_lt_is_Some_2 seen0 (idx a) Ha) as [s Hs].
      rewrite Hs.
      assert (s = false) as -> by (eapply (proj1 (Forall_lookup _ _) Hz); eauto).
      cbn [rbind]. rewrite Hclr. cbn [rbind].
      rewrite bool_decide_eq_false_2; [done|].
      intros Hs'. apply Hnin, Hs'. by left.
Qed.

(** C10. [Simplifier::subset(A, B, seen)], on a [seen] vector that is all zero
    and covers the literals of [A] and [B], returns whether every literal of
    [A] occurs in [B], and returns [seen] all zero again (it is the vector it
    was given). *)
Theorem subset_correct (A B : list Lit) (seen : list bool) :
  Forall (fun s => s = false) seen ->
  Forall (fun p => (toInt p < N.of_nat (length seen))) (A ++ B) ->
  Simplifier.subset A B seen = Ok (bool_decide (A ⊆ B), seen)
  /\ Forall (fun s => s = false) seen.
Proof.
  intros Hz Hr. split; [|done].
  assert (forall l, Forall (fun p => toInt p < N.of_nat (length seen)) l ->
                    Forall (fun b => (idx b < length seen)%nat) l) as Hconv.
  { intros l Hl. eapply Forall_impl; [exact Hl|].
    intros p Hp. simpl in Hp. unfold idx. lia. }
  apply Forall_app in Hr as [HA HB].
  apply Hconv in HA, HB.
  unfold Simplifier.subset. rewrite mark_marked by done. simpl.
  by apply subset_scan_spec.
Qed.

Lemma subset_correct_witness :
  Simplifier.subset [toLit 2; toLit 5] [toLit 5; toLit 1; toLit 2]
    (replicate 8 false)
  = Ok (true, replicate 8 false).
Proof.
  destruct (subset_correct [toLit 2; toLit 5] [toLit 5; toLit 1; toLit 2]
              (replicate 8 false)) as [H _].
  - by apply Forall_replicate.
  - repeat constructor.
  - rewrite H. f_equal.
Defined.
(** ** Reasoning on the monad *)

Section MonadFacts.

Context {Ext : Type}.

Local Abbreviation State := (CommandControl Ext).
Local Abbreviation M := (M (Ext := Ext)).

Lemma bind_Ok_inv {A B} (m : M A) (k : A -> M B) (st : State) r :
  bind m k st = Ok r ->
  exists a st1, m st = Ok (a, st1) /\ k a st1 = Ok r.
Proof.
  unfold bind. destruct (m st) as [[a st1]|e]; [|discriminate].
  intros H. by exists a, st1.
Qed.

Lemma bind_Ok {A B} (m : M A) (k : A -> M B) (st st1 : State) a :
  m st = Ok (a, st1) -> bind m k st = k a st1.
Proof. unfold bind. by intros ->. Qed.

Lemma bind_Fail {A B} (m : M A) (k : A -> M B) (st : State) e :
  m st = Fail e -> bind m k st = Fail e.
Proof. unfold bind. by intros ->. Qed.

Lemma ret_Ok_inv {A} (a : A) (st : State) r :
  ret a st = Ok r -> r = (a, st).
Proof. unfold ret. congruence. Qed.

Lemma gets_Ok_inv {A} (f : State -> A) (st : State) r :
  gets f st = Ok r -> r = (f st, st).
Proof. unfold gets. congruence. Qed.

Lemma modify_Ok_inv (f : State -> State) (st : State) r :
  modify f st = Ok r -> r = (tt, f st).
Proof. unfold modify. congruence. Qed.

Lemma lift_Ok_inv {A} (x : Res A) (st : State) r :
  lift x st = Ok r -> exists a, x = Ok a /\ r = (a, st).
Proof. unfold lift. destruct x; [|discriminate]. intros [= <-]. eauto. Qed.

Lemma assert_Ok_inv (b : bool) what (st : State) r :
  assert b what st = Ok r -> b = true /\ r = (tt, st).
Proof. unfold assert. destruct b; [|discriminate]. unfold ret. by intros [= <-]. Qed.

Lemma vget_Ok {A} (v : list A) i a : vget v i = Ok a <-> v !! N.to_nat i = Some a.
Proof. unfold vget. destruct (v !! N.to_nat i); split; congruence. Qed.

Lemma vset_Ok {A} (v : list A) i a v' :
  vset v i a = Ok v' <-> (N.to_nat i < length v)%nat /\ v' = <[N.to_nat i := a]> v.
Proof.
  unfold vset. destruct (decide _); split.
  - by intros [= <-].
  - by intros [_ ->].
  - discriminate.
  - intros [? _]. lia.
Qed.

Lemma read_Ok_inv {A} (v : State -> list A) i (st : State) r :
  read v i st = Ok r -> exists a, v st !! N.to_nat i = Some a /\ r = (a, st).
Proof.
  unfold read. intros (a & Ha & ->)%lift_Ok_inv. apply vget_Ok in Ha. eauto.
Qed.

Lemma read_Ok {A} (v : State -> list A) i (st : State) a :
  v st !! N.to_nat i = Some a -> read v i st = Ok (a, st).
Proof. intros H. unfold read, lift. apply vget_Ok in H. by rewrite H. Qed.

Lemma bind_gets {A B} (f : State -> A) (k : A -> M B) (st : State) :
  bind (gets f) k st = k (f st) st.
Proof. reflexivity. Qed.

Lemma bind_modify {B} (f : State -> State) (k : unit -> M B) (st : State) :
  bind (modify f) k st = k tt (f st).
Proof. reflexivity. Qed.

Lemma bind_ret {A B} (a : A) (k : A -> M B) (st : State) :
  bind (ret a) k st = k a st.
Proof. reflexivity. Qed.

Lemma bind_assert_true {B} what (k : unit -> M B) (st : State) :
  bind (assert true what) k st = k tt st.
Proof. reflexivity. Qed.

End MonadFacts.

(** Decomposes the hypotheses that say that a computation succeeded. *)
Ltac minv1 :=
  match goal with
  | H : bind _ _ _ = Ok _ |- _ =>
      let a := fresh "a" in let s := fresh "st" in let E := fresh "E" in
      apply bind_Ok_inv in H as (a & s & E & H)
  | H : ret _ _ = Ok _ |- _ => apply ret_Ok_inv in H
  | H : gets _ _ = Ok _ |- _ => apply gets_Ok_inv in H
  | H : modify _ _ = Ok _ |- _ => apply modify_Ok_inv in H
  | H : assert _ _ _ = Ok _ |- _ =>
      let E := fresh "Hassert" in apply assert_Ok_inv in H as [E H]
  | H : lift _ _ = Ok _ |- _ =>
      let a := fresh "a" in let E := fresh "E" in
      apply lift_Ok_inv in H as (a & E & H)
  | H : read _ _ _ = Ok _ |- _ =>
      let a := fresh "a" in let E := fresh "E" in
      apply read_Ok_inv in H as (a & E & H)
  | H : vget _ _ = Ok _ |- _ => apply vget_Ok in H
  | H : vset _ _ _ = Ok _ |- _ =>
      let L := fresh "Hlt" in apply vset_Ok in H as [L H]; try subst
  | H : fail _ _ = Ok _ |- _ => discriminate H
  | H : (_, _) = (_, _) |- _ => inversion H; subst; try clear H
  | H : Ok _ = Ok _ |- _ => inversion H; subst; try clear H
  | H : Fail _ = Ok _ |- _ => discriminate H
  end.

Ltac minv := repeat minv1; subst.


(** Case analysis on the first computation of a sequence in the goal. *)
Ltac bind_case :=
  match goal with
  | |- context [bind ?m ?k ?st] =>
      let E := fresh "E" in
      destruct (m st) as [[? ?]|?] eqn:E;
      [rewrite !(bind_Ok _ _ _ _ _ E) | rewrite !(bind_Fail _ _ _ _ E)]
  end.

(** ** minimiseLearntFurther only removes literals *)

Lemma compacted_sublist seen cl : sublist (compacted seen cl) cl.
Proof.
  revert seen. induction cl as [|l cl IH]; intros seen; simpl; [constructor|].
  destruct (seen !! idx l) as [[|]|].
  - by apply sublist_skip.
  - by apply sublist_cons.
  - by apply sublist_cons.
Qed.

Lemma compacted_elem seen cl l :
  l ∈ compacted seen cl <-> l ∈ cl /\ seen !! idx l = Some true.
Proof.
  revert seen. induction cl as [|l0 cl IH]; intros seen; simpl.
  - split; [intros H; by apply elem_of_nil in H|intros [H _]; by apply elem_of_nil in H].
  - assert (l ∈ compacted (<[idx l0:=false]> seen) cl <->
            l ∈ cl /\ idx l ≠ idx l0 /\ seen !! idx l = Some true) as IH'.
    { rewrite IH. split.
      - intros [Hin Hs]. split; [done|].
        destruct (decide (idx l = idx l0)) as [E|NE].
        + rewrite E in Hs.
          destruct (decide (idx l0 < length seen)%nat).
          * rewrite list_lookup_insert_eq in Hs by done. discriminate.
          * rewrite lookup_ge_None_2 in Hs; [discriminate|].
            rewrite length_insert. lia.
        + by rewrite list_lookup_insert_ne in Hs by done.
      - intros (Hin & NE & Hs). split; [done|].
        by rewrite list_lookup_insert_ne by done. }
    destruct (seen !! idx l0) as [[|]|] eqn:E0.
    + rewrite elem_of_cons, IH', elem_of_cons. split.
      * intros [->|(? & ? & ?)]; [by split; [left|]|by split; [right|]].
      * intros [[->|Hin] Hs]; [by left|].
        destruct (decide (l = l0)) as [->|NE]; [by left|].
        right. split_and!; [done| |done].
        intros E. by apply idx_inj in E.
    + rewrite IH', elem_of_cons. split.
      * intros (? & ? & ?). by split; [right|].
      * intros [[->|Hin] Hs]; [congruence|].
        split_and!; [done| |done]. intros E. congruence.
    + rewrite IH', elem_of_cons. split.
      * intros (? & ? & ?). by split; [right|].
      * intros [[->|Hin] Hs]; [congruence|].
        split_and!; [done| |done]. intros E. congruence.
Qed.

Section Minimise.

Context {Ext : Type} {C : Collaborators Ext}.

Local Abbreviation State := (CommandControl Ext).

Lemma set_seen_at_Ok_inv i b (st : State) r :
  set_seen_at i b st = Ok r ->
  (N.to_nat i < length (seen st))%nat /\ r = (tt, set_seen (<[N.to_nat i := b]> (seen st)) st).
Proof.
  unfold set_seen_at. intros H. minv. done.
Qed.

(** The compaction loop writes in place behind its reading position; what it
    leaves in front of [j] is [compacted]. *)
Lemma minim_compact_spec rest : forall i j cl r (st : State) cl' j' r' st',
  minim_compact (length rest) i j cl r st = Ok (cl', j', r', st') ->
  drop (N.to_nat i) cl = rest ->
  (N.to_nat j <= N.to_nat i)%nat ->
  take (N.to_nat j') cl' = take (N.to_nat j) cl ++ compacted (seen st) rest.
Proof.
  induction rest as [|l rest IH]; intros i j cl r st cl' j' r' st' H Hd Hj.
  - simpl in H. minv. simpl. by rewrite app_nil_r.
  - cbn [length minim_compact] in H. minv.
    match goal with
    | Hl : cl !! N.to_nat i = Some ?x |- _ =>
        assert (x = l) as ->
          by (rewrite <- (Nat.add_0_r (N.to_nat i)), <- lookup_drop, Hd in Hl;
              simpl in Hl; congruence);
        rename Hl into Hi
    end.
    assert (drop (N.to_nat (i + 1)) cl = rest) as Hd'.
    { replace (N.to_nat (i + 1)) with (S (N.to_nat i)) by lia.
      rewrite (drop_S _ _ _ Hi) in Hd. congruence. }
    match goal with
    | Hs : seen st !! _ = Some ?b |- _ => fold (idx l) in Hs; simpl; rewrite Hs; destruct b
    end.
    + minv. cbn beta iota in H. minv.
      match goal with
      | Hl : <[_:=_]> cl !! N.to_nat i = Some ?x |- _ =>
          assert (x = l) as ->
      end.
      { destruct (decide (N.to_nat j = N.to_nat i)) as [E|NE].
        - rewrite E in *. rewrite list_lookup_insert_eq in * by lia. congruence.
        - rewrite list_lookup_insert_ne in * by done. congruence. }
      match goal with
      | Hs : set_seen_at _ _ _ = Ok _ |- _ => apply set_seen_at_Ok_inv in Hs as [_ [= ?]]; subst
      end.
      eapply IH in H.
      * rewrite H. cbn [seen set_seen]. fold (idx l).
        replace (N.to_nat (j + 1)) with (S (N.to_nat j)) by lia.
        rewrite (take_S_r _ _ l) by (by apply list_lookup_insert_eq).
        rewrite take_insert_ge by lia.
        by rewrite <- app_assoc.
      * rewrite drop_insert_lt by lia. done.
      * lia.
    + minv. cbn beta iota in H. minv.
      match goal with
      | Hl : cl !! N.to_nat i = Some ?x, Hi : cl !! N.to_nat i = Some l |- _ =>
          assert (x = l) as -> by congruence
      end.
      match goal with
      | Hs : set_seen_at _ _ _ = Ok _ |- _ => apply set_seen_at_Ok_inv in Hs as [_ [= ?]]; subst
      end.
      eapply IH in H; [|done|lia].
      rewrite H. done.
Qed.

(** C8. [minimiseLearntFurther] only removes literals: what it returns is a
    subsequence of the clause it is given, made of exactly the literals whose
    [seen] bit is set when the compaction starts (the bit of the literal at
    position 0 having been set again), and the literal at position 0 is still
    at position 0. *)
Theorem minimiseLearntFurther_only_removes (cl : list Lit) (glue : N)
    (st : State) (cl' : list Lit) (st' : State) :
  minimiseLearntFurther cl glue st = Ok (cl', st') ->
  exists st1 : State,
    minim_select cl (set_furtherClMinim (wrap64 (furtherClMinim st + 1)) st)
      = Ok (tt, st1)
    /\ sublist cl' cl
    /\ (forall l, l ∈ cl' <-> l ∈ cl /\ seen st1 !! idx l = Some true)
    /\ (exists l0, cl !! 0%nat = Some l0 /\ cl' !! 0%nat = Some l0).
Proof.
  unfold minimiseLearntFurther. intros H. minv.
  match goal with
  | Hs : minim_select _ _ = Ok (?u, ?s) |- _ => destruct u; exists s; rename Hs into Hsel
  end.
  split; [done|].
  destruct a3 as [[cl2 j] removed]. minv.
  match goal with
  | Hc : minim_compact _ _ _ _ _ _ = Ok _ |- _ =>
      eapply (minim_compact_spec cl) in Hc; [|done|done]; rename Hc into Hcomp
  end.
  simpl in Hcomp. rewrite Hcomp.
  split; [apply compacted_sublist|].
  split; [apply compacted_elem|].
  unfold minim_select in Hsel. minv.
  match goal with
  | Hs : set_seen_at _ _ _ = Ok _ |- _ => apply set_seen_at_Ok_inv in Hs as [Hlt [= ?]]; subst
  end.
  destruct cl as [|l0 cl0]; [discriminate|].
  match goal with Hl : (l0 :: cl0) !! _ = Some ?x |- _ => injection Hl as <- end.
  exists l0. split; [done|].
  cbn [compacted seen set_seen]. fold (idx l0).
  rewrite list_lookup_insert_eq by done. done.
Qed.

End Minimise.

Lemma minimiseLearntFurther_only_removes_witness :
  exists st1 : CommandControl unit,
    minim_select [toLit 0; toLit 2; toLit 4]
      (set_furtherClMinim 1 Examples.st_minim) = Ok (tt, st1)
    /\ sublist [toLit 0; toLit 4] [toLit 0; toLit 2; toLit 4]
    /\ (forall l, l ∈ [toLit 0; toLit 4] <->
                  l ∈ [toLit 0; toLit 2; toLit 4] /\ seen st1 !! idx l = Some true)
    /\ (exists l0, [toLit 0; toLit 2; toLit 4] !! 0%nat = Some l0
                   /\ [toLit 0; toLit 4] !! 0%nat = Some l0).
Proof.
  apply (minimiseLearntFurther_only_removes
           [toLit 0; toLit 2; toLit 4] 3 Examples.st_minim [toLit 0; toLit 4]
           (set_furtherClMinim 1
              (set_numShrinkedClause 1 (set_numShrinkedClauseLits 1 Examples.st_minim)))).
  vm_compute. reflexivity.
Defined.

(** ** cancelUntil *)

Section Cancel.

Context {Ext : Type}.

Local Abbreviation State := (CommandControl Ext).

Lemma set_order_heap_id (st : State) : set_order_heap (order_heap st) st = st.
Proof. by destruct st. Qed.

Lemma set_assigns_id (st : State) : set_assigns (assigns st) st = st.
Proof. by destruct st. Qed.

Lemma insertVarOrder_Ok_inv x (st : State) r :
  insertVarOrder x st = Ok r ->
  exists h, r = (tt, set_order_heap h st)
    /\ (forall v, v ∈ h <-> v ∈ order_heap st \/ (v = x /\ is_decision_var st x)).
Proof.
  unfold insertVarOrder, inHeap. intros H. minv.
  destruct (bool_decide_reflect (x ∈ order_heap st)) as [Hin|Hnin].
  - minv. exists (order_heap st). rewrite set_order_heap_id. split; [done|].
    intros v. split; [by left|]. by intros [?|[-> _]].
  - minv.
    match goal with Hd : decision_var _ !! _ = Some ?d |- _ => destruct d end.
    + minv. eexists. split; [done|]. intros v.
      unfold heap_insert. rewrite elem_of_app, list_elem_of_singleton.
      unfold is_decision_var.
      split; [intros [?| ->]; [by left|by right]|intros [?|[-> _]]; [by left|by right]].
    + minv. exists (order_heap st). rewrite set_order_heap_id. split; [done|].
      intros v. unfold is_decision_var. split; [by left|].
      intros [?|[-> ?]]; [done|congruence].
Qed.

Lemma unassign_lookup_in undone a p :
  p ∈ undone -> (N.to_nat (var p) < length a)%nat ->
  unassign undone a !! N.to_nat (var p) = Some l_Undef.
Proof.
  revert a. induction undone as [|q undone IH] using rev_ind; intros a Hin Hlt.
  - by apply elem_of_nil in Hin.
  - unfold unassign. rewrite foldl_app. simpl. fold (unassign undone a).
    assert (length (unassign undone a) = length a) as Hlen.
    { clear. revert a. induction undone as [|x u IHu]; intros a; [done|].
      unfold unassign in *. simpl. by rewrite IHu, length_insert. }
    destruct (decide (N.to_nat (var q) = N.to_nat (var p))) as [E|NE].
    + rewrite E. apply list_lookup_insert_eq. by rewrite Hlen.
    + rewrite list_lookup_insert_ne by done. apply IH; [|done].
      apply elem_of_app in Hin as [|Hin]; [done|].
      apply list_elem_of_singleton in Hin. congruence.
Qed.

Lemma unassign_lookup_notin undone a (v : Var) :
  (forall p, p ∈ undone -> var p ≠ v) ->
  unassign undone a !! N.to_nat v = a !! N.to_nat v.
Proof.
  revert a. induction undone as [|q undone IH]; intros a Hn; [done|].
  unfold unassign. simpl. fold (unassign undone (<[N.to_nat (var q) := l_Undef]> a)).
  rewrite IH.
  - apply list_lookup_insert_ne. intros E. apply (Hn q); [by left|]. lia.
  - intros p Hp. apply Hn. by right.
Qed.

Lemma cancel_loop_Ok_inv undone : forall (st : State) r,
  cancel_loop undone st = Ok r ->
  exists h,
    r = (tt, set_order_heap h (set_assigns (unassign undone (assigns st)) st))
    /\ Forall (fun p => (N.to_nat (var p) < length (assigns st))%nat) undone
    /\ (forall v, v ∈ h <->
          v ∈ order_heap st \/ exists p, p ∈ undone /\ var p = v /\ is_decision_var st v).
Proof.
  induction undone as [|p undone IH]; intros st r H.
  - simpl in H. minv. exists (order_heap st).
    simpl. rewrite set_assigns_id, set_order_heap_id. split_and!; [done|constructor|].
    intros v. split; [by left|]. intros [?|(p & Hp & _)]; [done|].
    by apply elem_of_nil in Hp.
  - cbn [cancel_loop] in H. unfold value_var in H. minv.
    match goal with
    | Hi : insertVarOrder _ _ = Ok _ |- _ =>
        apply insertVarOrder_Ok_inv in Hi as (h1 & [= ? ?] & Hh1); subst
    end.
    apply IH in H as (h & -> & Hall & Hh).
    exists h. split_and!.
    + done.
    + constructor; [done|].
      eapply Forall_impl; [exact Hall|]. intros q Hq. simpl in Hq.
      by rewrite length_insert in Hq.
    + intros v. rewrite Hh, Hh1. cbn [order_heap set_assigns]. split.
      * intros [[?|[-> Hd]]|(q & Hq & <- & Hd)].
        -- by left.
        -- right. exists p. split_and!; [by left|done|done].
        -- right. exists q. split_and!; [by right|done|done].
      * intros [?|(q & Hq & <- & Hd)]; [by left; left|].
        apply elem_of_cons in Hq as [->|Hq].
        -- left. right. done.
        -- right. exists q. done.
Qed.

Lemma resize_take {A} (n : nat) (d : A) (v : list A) :
  (n <= length v)%nat -> resize n d v = take n v.
Proof.
  intros H. unfold resize. replace (n - length v)%nat with 0%nat by lia.
  simpl. by rewrite app_nil_r.
Qed.

(** C1, as the code has it.  For a level [lvl] below the current one,
    [cancelUntil(lvl)] works on the literals of the trail from position
    [trail_lim[lvl]] on: the value of the variable of each becomes Undef, and
    the variable is a member of the order heap afterwards if it is a decision
    variable (the heap gains no other member and loses none); the values of
    the other variables are kept; [varData], hence the reason, the level and
    the saved polarity of every variable, is left as it was; the trail is cut
    to [trail_lim[lvl]] entries, [trail_lim] to [lvl] entries, and [qhead] is
    [trail_lim[lvl]]. *)
Theorem cancelUntil_undoes (lvl : N) (st st' : State) :
  lvl < decisionLevel st ->
  Forall (fun lim => (N.to_nat lim <= length (trail st))%nat) (trail_lim st) ->
  cancelUntil lvl st = Ok (tt, st') ->
  exists lim,
    trail_lim st !! N.to_nat lvl = Some lim
    /\ (forall p, p ∈ drop (N.to_nat lim) (trail st) ->
          assigns st' !! N.to_nat (var p) = Some l_Undef)
    /\ (forall v, (forall p, p ∈ drop (N.to_nat lim) (trail st) -> var p ≠ v) ->
          assigns st' !! N.to_nat v = assigns st !! N.to_nat v)
    /\ (forall v, v ∈ order_heap st' <->
          v ∈ order_heap st
          \/ exists p, p ∈ drop (N.to_nat lim) (trail st) /\ var p = v
                       /\ is_decision_var st v)
    /\ varData st' = varData st
    /\ trail st' = take (N.to_nat lim) (trail st)
    /\ trail_lim st' = take (N.to_nat lvl) (trail_lim st)
    /\ qhead st' = lim.
Proof.
  intros Hlvl Hwf H. unfold cancelUntil in H. minv.
  rewrite decide_True in H by done. minv.
  match goal with
  | Hc : cancel_loop _ _ = Ok _ |- _ =>
      apply cancel_loop_Ok_inv in Hc as (h & [= ? ?] & Hall & Hh); subst
  end.
  match goal with
  | Hl : trail_lim st !! _ = Some ?l |- _ =>
      exists l; rename Hl into Hlim;
      assert (N.to_nat l <= length (trail st))%nat as Hle
        by (eapply (proj1 (Forall_lookup _ _) Hwf); eauto)
  end.
  cbn [assigns order_heap varData trail trail_lim qhead
       set_trail_lim set_trail set_qhead set_order_heap set_assigns].
  split_and!; try done.
  - intros p Hp. apply unassign_lookup_in.
    + by rewrite elem_of_reverse.
    + rewrite Forall_forall in Hall. apply Hall. by rewrite elem_of_reverse.
  - intros v Hv. apply unassign_lookup_notin.
    intros p Hp. apply Hv. by rewrite elem_of_reverse in Hp.
  - intros v. rewrite Hh. split.
    + intros [?|(p & Hp & ?)]; [by left|].
      right. exists p. by rewrite elem_of_reverse in Hp.
    + intros [?|(p & Hp & ?)]; [by left|].
      right. exists p. by rewrite elem_of_reverse.
  - by apply resize_take.
  - apply resize_take. unfold decisionLevel in Hlvl. lia.
Qed.

End Cancel.

Lemma cancelUntil_undoes_witness :
  exists lim,
    trail_lim Examples.st_cancel !! N.to_nat 0 = Some lim
    /\ (forall p, p ∈ drop (N.to_nat lim) (trail Examples.st_cancel) ->
          assigns Examples.st_cancelled !! N.to_nat (var p) = Some l_Undef)
    /\ (forall v, (forall p, p ∈ drop (N.to_nat lim) (trail Examples.st_cancel) -> var p ≠ v) ->
          assigns Examples.st_cancelled !! N.to_nat v
          = assigns Examples.st_cancel !! N.to_nat v)
    /\ (forall v, v ∈ order_heap Examples.st_cancelled <->
          v ∈ order_heap Examples.st_cancel
          \/ exists p, p ∈ drop (N.to_nat lim) (trail Examples.st_cancel) /\ var p = v
                       /\ is_decision_var Examples.st_cancel v)
    /\ varData Examples.st_cancelled = varData Examples.st_cancel
    /\ trail Examples.st_cancelled = take (N.to_nat lim) (trail Examples.st_cancel)
    /\ trail_lim Examples.st_cancelled = take (N.to_nat 0) (trail_lim Examples.st_cancel)
    /\ qhead Examples.st_cancelled = lim.
Proof.
  apply (cancelUntil_undoes 0 Examples.st_cancel Examples.st_cancelled).
  - reflexivity.
  - vm_compute. repeat constructor.
  - vm_compute. reflexivity.
Defined.

(** C1, as the specification states it, fails: the reason of an undone
    variable is not cleared.  In [Examples.st_cancel] variable 2 was implied at
    level 1 with the reason Binary(3); after [cancelUntil(0)] its value is
    Undef and its reason is still Binary(3). *)
Lemma cancelUntil_reason_not_cleared :
  0 < decisionLevel Examples.st_cancel
  /\ cancelUntil 0 Examples.st_cancel = Ok (tt, Examples.st_cancelled)
  /\ toLit 4 ∈ drop 1 (trail Examples.st_cancel)
  /\ assigns Examples.st_cancelled !! 2%nat = Some l_Undef
  /\ reason <$> varData Examples.st_cancelled !! 2%nat = Some (binary_t (toLit 3))
  /\ ~ cancelUntil_claimed 0 Examples.st_cancel Examples.st_cancelled.
Proof.
  split_and!; try (vm_compute; reflexivity).
  - vm_compute. do 1 constructor. constructor.
  - intros (lim & Hlim & Hall & _).
    vm_compute in Hlim. injection Hlim as <-.
    destruct (Hall (toLit 4)) as (_ & (d & Hd & Hr & _) & _).
    + vm_compute. do 1 constructor. constructor.
    + vm_compute in Hd. injection Hd as <-. discriminate Hr.
Qed.
(** ** What a computation leaves unchanged *)

Section Keeps.

Context {Ext : Type} {X : Type} (f : CommandControl Ext -> X).

Local Abbreviation State := (CommandControl Ext).
Local Abbreviation M := (M (Ext := Ext)).

Lemma keeps_ret {A} (a : A) : keeps f (ret a).
Proof. intros st b st' H. by minv. Qed.

Lemma keeps_fail {A} e : keeps f (fail (A := A) e).
Proof. intros st b st' H. by minv. Qed.

Lemma keeps_gets {A} (g : State -> A) : keeps f (gets g).
Proof. intros st b st' H. by minv. Qed.

Lemma keeps_lift {A} (r : Res A) : keeps f (lift r).
Proof. intros st b st' H. by minv. Qed.

Lemma keeps_read {A} (v : State -> list A) i : keeps f (read v i).
Proof. intros st b st' H. by minv. Qed.

Lemma keeps_assert b what : keeps f (assert b what).
Proof. intros st u st' H. by minv. Qed.

Lemma keeps_modify (g : State -> State) :
  (forall st, f (g st) = f st) -> keeps f (modify g).
Proof. intros Hg st u st' H. minv. apply Hg. Qed.

Lemma keeps_bind {A B} (m : M A) (k : A -> M B) :
  keeps f m -> (forall a, keeps f (k a)) -> keeps f (bind m k).
Proof.
  intros Hm Hk st b st' H. minv.
  etrans; [eapply Hk; eassumption|]. eapply Hm; eassumption.
Qed.

End Keeps.

(** Splits a goal [keeps f m] along the structure of [m]. *)
Ltac keeps_step :=
  match goal with
  | |- keeps _ (bind _ _) => apply keeps_bind; [|intros]
  | |- keeps _ (ret _) => apply keeps_ret
  | |- keeps _ (fail _) => apply keeps_fail
  | |- keeps _ (gets _) => apply keeps_gets
  | |- keeps _ (lift _) => apply keeps_lift
  | |- keeps _ (read _ _) => apply keeps_read
  | |- keeps _ (assert _ _) => apply keeps_assert
  | |- keeps _ (modify _) => apply keeps_modify; intros; solve [reflexivity | auto]
  | |- keeps _ (if ?b then _ else _) => destruct b
  | |- keeps _ (match ?x with _ => _ end) => destruct x
  | H : keeps ?f ?m |- keeps ?f ?m => exact H
  | H : forall _, keeps ?f _ |- keeps ?f _ => apply H
  | H : forall _ _, keeps ?f _ |- keeps ?f _ => apply H
  | H : forall _ _ _, keeps ?f _ |- keeps ?f _ => apply H
  | H : forall _ _ _ _, keeps ?f _ |- keeps ?f _ => apply H
  | H : forall _ _ _ _ _, keeps ?f _ |- keeps ?f _ => apply H
  end.

Ltac keeps_tac := repeat keeps_step.

Section KeepsTrail.

Context {Ext : Type} {C : Collaborators Ext}.

Local Abbreviation State := (CommandControl Ext).
Local Abbreviation tr := (@trails Ext).

Lemma set_seen_at_keeps_trails i b : keeps tr (set_seen_at i b).
Proof. unfold set_seen_at. keeps_tac. Qed.

Lemma getPointer_keeps_trails o : keeps tr (getPointer o).
Proof. unfold getPointer. keeps_tac. Qed.

Lemma insertVarOrder_keeps_trails x : keeps tr (insertVarOrder x).
Proof. unfold insertVarOrder. keeps_tac. Qed.

Lemma analyzeFinal_mark_keeps_trails l : keeps tr (analyzeFinal_mark l).
Proof. unfold analyzeFinal_mark. keeps_tac. apply set_seen_at_keeps_trails. Qed.

Lemma analyzeFinal_clause_keeps_trails ls : keeps tr (analyzeFinal_clause ls).
Proof.
  induction ls as [|l ls IH]; simpl; keeps_tac. apply analyzeFinal_mark_keeps_trails.
Qed.

Lemma analyzeFinal_loop_keeps_trails ts : forall out, keeps tr (analyzeFinal_loop ts out).
Proof.
  induction ts as [|t ts IH]; intros out; simpl; keeps_tac;
    first [apply analyzeFinal_mark_keeps_trails | apply getPointer_keeps_trails
          | apply analyzeFinal_clause_keeps_trails | apply set_seen_at_keeps_trails].
Qed.

Lemma analyzeFinal_keeps_trails p : keeps tr (analyzeFinal p).
Proof.
  unfold analyzeFinal. keeps_tac;
    first [apply set_seen_at_keeps_trails | apply analyzeFinal_loop_keeps_trails].
Qed.

Lemma use_ext_keeps_trails {A} (g : Ext -> A * Ext) : keeps tr (use_ext g).
Proof.
  unfold use_ext. keeps_tac.
Qed.

Lemma pick_free_keeps_trails v : keeps tr (pick_free v).
Proof. unfold pick_free, value_var. keeps_tac. Qed.

Lemma pick_sign_keeps_trails v : keeps tr (pick_sign v).
Proof. unfold pick_sign. keeps_tac. apply use_ext_keeps_trails. Qed.

Lemma pick_random_keeps_trails : keeps tr pick_random.
Proof.
  unfold pick_random. keeps_tac;
    first [apply use_ext_keeps_trails | apply pick_free_keeps_trails
          | apply pick_sign_keeps_trails].
Qed.

Lemma pick_dominated_keeps_trails l : keeps tr (pick_dominated l).
Proof.
  unfold pick_dominated. keeps_tac;
    first [apply use_ext_keeps_trails | apply pick_free_keeps_trails].
Qed.

Lemma pick_activity_keeps_trails fuel :
  forall next sgn, keeps tr (pick_activity fuel next sgn).
Proof.
  induction fuel as [|fuel IH]; intros next sgn; simpl; keeps_tac;
    first [apply pick_free_keeps_trails | apply pick_sign_keeps_trails
          | apply pick_dominated_keeps_trails | apply insertVarOrder_keeps_trails].
Qed.

Lemma pickBranchLit_keeps_trails : keeps tr pickBranchLit.
Proof.
  unfold pickBranchLit. keeps_tac;
    first [apply pick_random_keeps_trails | apply pick_activity_keeps_trails].
Qed.

End KeepsTrail.
(** ** The trail limits *)

Lemma trail_lim_monotone_le (l : list N) :
  trail_lim_monotone l ->
  forall (i j : nat) a b, (i <= j)%nat -> l !! i = Some a -> l !! j = Some b -> a <= b.
Proof.
  intros Hm i j a b Hij. revert b. induction Hij as [|j Hij IH]; intros b Ha Hb.
  - rewrite Ha in Hb. injection Hb as <-. lia.
  - destruct (lookup_lt_is_Some_2 l j) as [c Hc].
    { apply lookup_lt_Some in Hb. lia. }
    specialize (IH c Ha Hc). specialize (Hm j c b Hc Hb). lia.
Qed.

Lemma trail_lim_monotone_take (l : list N) n :
  trail_lim_monotone l -> trail_lim_monotone (take n l).
Proof.
  intros Hm i a b Ha Hb.
  apply lookup_take_Some in Ha as [Ha _], Hb as [Hb _]. eauto.
Qed.

Lemma trail_lim_monotone_snoc (l : list N) x :
  trail_lim_monotone l -> Forall (fun a => a <= x) l -> trail_lim_monotone (l ++ [x]).
Proof.
  intros Hm Hall i a b Ha Hb.
  destruct (decide (S i < length l)%nat) as [Hlt|Hge].
  - rewrite lookup_app_l in Ha, Hb by lia. eauto.
  - assert (S i = length l) as Hi.
    { apply lookup_lt_Some in Hb. rewrite length_app in Hb. simpl in Hb. lia. }
    rewrite lookup_app_l in Ha by lia.
    rewrite lookup_app_r in Hb by lia.
    replace (S i - length l)%nat with 0%nat in Hb by lia. injection Hb as <-.
    eapply (proj1 (Forall_lookup _ _) Hall); eauto.
Qed.

Section TrailLim.

Context {Ext : Type} {C : Collaborators Ext}.

Local Abbreviation State := (CommandControl Ext).

Lemma trail_ok_trails (st st' : State) :
  trails st' = trails st -> trail_ok st -> trail_ok st'.
Proof.
  unfold trails, trail_ok, decisionLevel. intros [= -> ->]. done.
Qed.

Lemma newDecisionLevel_trail_ok (st : State) r :
  trail_ok st -> newDecisionLevel st = Ok r -> trail_ok r.2.
Proof.
  intros (Hm & Hall & _) H. unfold newDecisionLevel in H. minv.
  unfold trail_ok, decisionLevel. simpl.
  split_and!; [|apply Forall_app; split; [done|repeat constructor; lia]|done].
  apply trail_lim_monotone_snoc; [done|].
  eapply Forall_impl; [exact Hall|]. intros a Ha. simpl in Ha. lia.
Qed.

Lemma enqueue_trail_ok p from (st : State) r :
  trail_ok st -> enqueue p from st = Ok r -> trail_ok r.2.
Proof.
  intros (Hm & Hall & _) H. unfold enqueue in H. minv.
  unfold trail_ok, decisionLevel. simpl. split_and!; [done| |done].
  eapply Forall_impl; [exact Hall|]. intros a Ha. simpl in Ha.
  rewrite length_app. lia.
Qed.

Lemma new_decision_assumptions_trail_ok fuel : forall (st : State) r,
  trail_ok st -> new_decision_assumptions fuel st = Ok r -> trail_ok r.2.
Proof.
  induction fuel as [|fuel IH]; intros st r Hok H; simpl in H; minv.
  - destruct (decide _); minv. done.
  - destruct (decide _); [|by minv].
    unfold value in H. minv.
    match type of H with context [lbool_xor ?a ?s] => destruct (lbool_xor a s) end.
    + minv.
      match goal with
      | Hn : newDecisionLevel _ = Ok _ |- _ => apply newDecisionLevel_trail_ok in Hn; [|done]
      end.
      eapply IH; eauto.
    + minv.
      match goal with
      | Ha : analyzeFinal _ _ = Ok _ |- _ => apply analyzeFinal_keeps_trails in Ha
      end.
      simpl. eapply trail_ok_trails; [|exact Hok]. done.
    + minv. done.
Qed.

Lemma cancelUntil_cut lvl (st st' : State) :
  lvl < decisionLevel st ->
  cancelUntil lvl st = Ok (tt, st') ->
  exists lim,
    trail_lim st !! N.to_nat lvl = Some lim
    /\ trail st' = resize (N.to_nat lim) lit_Undef (trail st)
    /\ trail_lim st' = take (N.to_nat lvl) (trail_lim st).
Proof.
  intros Hlvl H. unfold cancelUntil in H. minv.
  rewrite decide_True in H by done. minv.
  match goal with
  | Hc : cancel_loop _ _ = Ok _ |- _ =>
      apply cancel_loop_Ok_inv in Hc as (h & [= ? ?] & _ & _); subst
  end.
  match goal with
  | Hl : trail_lim st !! _ = Some ?l |- _ => exists l
  end.
  cbn [trail trail_lim set_trail_lim set_trail set_qhead set_order_heap set_assigns].
  split_and!; [done|done|].
  apply resize_take. unfold decisionLevel in Hlvl. lia.
Qed.

Lemma cancelUntil_trail_ok lvl (st : State) r :
  trail_ok st -> cancelUntil lvl st = Ok r -> trail_ok r.2.
Proof.
  intros Hok H. destruct r as [[] st'].
  destruct (decide (lvl < decisionLevel st)) as [Hlt|Hge].
  - destruct Hok as (Hm & Hall & _).
    apply cancelUntil_cut in H as (lim & Hlim & Ht & Htl); [|done].
    assert (N.to_nat lim <= length (trail st))%nat as Hle
      by (eapply (proj1 (Forall_lookup _ _) Hall); eauto).
    rewrite resize_take in Ht by done.
    unfold trail_ok, decisionLevel. simpl. rewrite Ht, Htl.
    split_and!; [by apply trail_lim_monotone_take| |done].
    apply Forall_lookup. intros i a Ha.
    apply lookup_take_Some in Ha as [Ha Hi].
    rewrite length_take.
    pose proof (trail_lim_monotone_le _ Hm i (N.to_nat lvl) a lim) as Hmle.
    specialize (Hmle ltac:(lia) Ha Hlim). lia.
  - unfold cancelUntil in H. minv. rewrite decide_False in H by done. by minv.
Qed.

Lemma new_decision_trail_ok params (st : State) r :
  trail_ok st -> new_decision params st = Ok r -> trail_ok r.2.
Proof.
  intros Hok H. unfold new_decision in H. minv.
  match goal with
  | Hn : new_decision_assumptions _ _ = Ok _ |- _ =>
      apply new_decision_assumptions_trail_ok in Hn; [|done]; simpl in Hn
  end.
  match goal with H : match ?x with inl _ => _ | inr _ => _ end _ = Ok _ |- _ =>
    destruct x as [res|next0] end; [by minv|].
  minv.
  match goal with
  | Hp : (if decide (next0 = lit_Undef) then _ else _) _ = Ok (?p, ?s) |- _ =>
      assert (trail_ok s) as Hok1; [|clear Hp]
  end.
  { destruct (decide (next0 = lit_Undef)); minv; [|done].
    match goal with
    | Hp : pickBranchLit _ = Ok _ |- _ => apply pickBranchLit_keeps_trails in Hp
    end.
    eapply trail_ok_trails; [|eassumption]. done. }
  destruct (decide _); [by minv|].
  unfold value in H. minv.
  match goal with
  | Hn : newDecisionLevel _ = Ok _ |- _ => apply newDecisionLevel_trail_ok in Hn; [|done]
  end.
  match goal with
  | He : enqueue _ _ _ = Ok _ |- _ => apply enqueue_trail_ok in He; [|done]
  end.
  done.
Qed.

End TrailLim.

(** C2, as the specification states it, fails: a dummy decision level repeats
    the trail limit.  From [Examples.st_assume] (level 0, assumptions [x0],
    [x1], [x2], of which [x0] and [x1] are true) [new_decision] pushes two
    dummy levels and then the level of [x2]: [trail_lim] is [2; 2; 2]. *)
Lemma new_decision_repeats_trail_lim :
  trail_lim_strict (trail_lim Examples.st_assume)
  /\ new_decision (C := Examples.quiet) Examples.params0 Examples.st_assume
     = Ok (l_Undef, Examples.st_assumed)
  /\ trail_lim Examples.st_assumed = [2; 2; 2]
  /\ decisionLevel Examples.st_assumed = 3
  /\ ~ trail_lim_strict (trail_lim Examples.st_assumed).
Proof.
  split_and!.
  - intros i a b Ha. vm_compute in Ha. destruct i; discriminate.
  - vm_compute. reflexivity.
  - vm_compute. reflexivity.
  - vm_compute. reflexivity.
  - intros Hs. specialize (Hs 0%nat 2 2 eq_refl eq_refl). lia.
Qed.
(** ** new_decision on the assumptions *)

Section NewDecision.

Context {Ext : Type} {C : Collaborators Ext}.

Local Abbreviation State := (CommandControl Ext).

Lemma value_Ok_inv p (st : State) r :
  value p st = Ok r ->
  exists a, assigns st !! N.to_nat (var p) = Some a /\ r = (lbool_xor a (sign p), st).
Proof. unfold value. intros H. minv. eauto. Qed.

(** The loop over the assumptions never lacks fuel: any two amounts that
    cover the assumptions left give the same result. *)
Lemma new_decision_assumptions_fuel f1 : forall f2 (st : State),
  (length (assumptions st) - length (trail_lim st) <= f1)%nat ->
  (length (assumptions st) - length (trail_lim st) <= f2)%nat ->
  new_decision_assumptions f1 st = new_decision_assumptions f2 st.
Proof.
  induction f1 as [|f1 IH]; intros f2 st H1 H2; destruct f2;
    cbn [new_decision_assumptions]; rewrite !bind_gets; unfold id;
    (destruct (decide _) as [Hlt|]; [unfold decisionLevel in Hlt; try lia|done]).
  bind_case; [|done]. minv.
  bind_case; [|done].
  match goal with
  | Hv : value _ _ = Ok _ |- _ => apply value_Ok_inv in Hv as (? & _ & Hr); inversion Hr; subst
  end.
  destruct (lbool_xor _ _); [|done|done].
  unfold newDecisionLevel. rewrite !bind_modify.
  apply IH; simpl; rewrite length_app; simpl; lia.
Qed.

(** One turn of the loop over the assumptions *)
Lemma new_decision_assumptions_step (st : State) (p : Lit) (v : lbool) :
  decisionLevel st < N.of_nat (length (assumptions st)) ->
  assumptions st !! N.to_nat (decisionLevel st) = Some p ->
  value p st = Ok (v, st) ->
  new_decision_assumptions (length (assumptions st)) st =
  match v with
  | l_True =>
      let st1 := set_trail_lim (trail_lim st ++ [N.of_nat (length (trail st))]) st in
      new_decision_assumptions (length (assumptions st1)) st1
  | l_False =>
      match analyzeFinal (neg p) st with
      | Ok (out, st2) => Ok (inl l_False, set_conflict out st2)
      | Fail e => Fail e
      end
  | l_Undef => Ok (inr p, st)
  end.
Proof.
  intros Hlt Hp Hv.
  destruct (length (assumptions st)) as [|n] eqn:Hn; [lia|].
  cbn [new_decision_assumptions]. rewrite bind_gets. unfold id.
  rewrite decide_True by (by rewrite Hn).
  rewrite (bind_Ok _ _ _ _ _ (read_Ok assumptions _ st p Hp)).
  rewrite (bind_Ok _ _ _ _ _ Hv).
  destruct v.
  - unfold newDecisionLevel. rewrite bind_modify.
    cbn zeta. cbn [assumptions set_trail_lim]. rewrite Hn.
    apply new_decision_assumptions_fuel; simpl; rewrite length_app, Hn; simpl; lia.
  - destruct (analyzeFinal (neg p) st) as [[out st2]|e] eqn:Ha.
    + rewrite (bind_Ok _ _ _ _ _ Ha). done.
    + rewrite (bind_Fail _ _ _ _ Ha). done.
  - done.
Qed.

(** C5. When [decisionLevel() < assumptions.size()], [new_decision] takes the
    assumption [p] at index [decisionLevel()].  If [p] is True, a decision
    level is pushed, nothing is enqueued, and [new_decision] goes on from
    there.  If [p] is False, [analyzeFinal(~p, conflict)] is run and
    [new_decision] returns [l_False].  If [p] is Undef, a decision level is
    pushed, [p] is enqueued without a reason, and [new_decision] returns
    [l_Undef]. *)
Theorem new_decision_takes_assumption params (st : State) (p : Lit) (v : lbool) :
  decisionLevel st < N.of_nat (length (assumptions st)) ->
  assumptions st !! N.to_nat (decisionLevel st) = Some p ->
  value p st = Ok (v, st) ->
  let st1 := set_trail_lim (trail_lim st ++ [N.of_nat (length (trail st))]) st in
  newDecisionLevel st = Ok (tt, st1)
  /\ trail st1 = trail st
  /\ decisionLevel st1 = decisionLevel st + 1
  /\ match v with
     | l_True => new_decision params st = new_decision params st1
     | l_False =>
         new_decision params st =
         match analyzeFinal (neg p) st with
         | Ok (out, st2) => Ok (l_False, set_conflict out st2)
         | Fail e => Fail e
         end
     | l_Undef =>
         p ≠ lit_Undef ->
         new_decision params st =
         match enqueue p null_clause_t st1 with
         | Ok (_, st2) => Ok (l_Undef, st2)
         | Fail e => Fail e
         end
     end.
Proof.
  intros Hlt Hp Hv st1. split_and!; [done|done| |].
  { unfold decisionLevel. simpl. rewrite length_app. simpl. lia. }
  pose proof (new_decision_assumptions_step st p v Hlt Hp Hv) as Hstep.
  fold st1 in Hstep.
  destruct v.
  - unfold new_decision. rewrite !bind_gets. unfold id.
    unfold bind. by rewrite Hstep.
  - unfold new_decision. rewrite !bind_gets. unfold id.
    unfold bind at 1. rewrite Hstep.
    destruct (analyzeFinal (neg p) st) as [[out st2]|e]; done.
  - intros Hne. unfold new_decision. rewrite !bind_gets. unfold id.
    unfold bind at 1. rewrite Hstep.
    rewrite decide_False by done. rewrite bind_ret.
    rewrite decide_False by (intros [? _]; done).
    rewrite (bind_Ok _ _ _ _ _ Hv).
    rewrite bool_decide_eq_true_2 by done. rewrite bind_assert_true.
    unfold newDecisionLevel. rewrite bind_modify. fold st1.
    destruct (enqueue p null_clause_t st1) as [[[] st2]|e] eqn:He.
    + rewrite (bind_Ok _ _ _ _ _ He). done.
    + rewrite (bind_Fail _ _ _ _ He). done.
Qed.

End NewDecision.

Lemma new_decision_takes_assumption_witness :
  (let st := Examples.st_assume in
   let st1 := set_trail_lim (trail_lim st ++ [N.of_nat (length (trail st))]) st in
   newDecisionLevel st = Ok (tt, st1)
   /\ trail st1 = trail st
   /\ decisionLevel st1 = decisionLevel st + 1
   /\ new_decision (C := Examples.quiet) Examples.params0 st
      = new_decision (C := Examples.quiet) Examples.params0 st1)
  /\ (new_decision (C := Examples.quiet) Examples.params0 Examples.st_assume_false
      = Ok (l_False, set_conflict [toLit 0] Examples.st_assume_false))
  /\ (new_decision (C := Examples.quiet) Examples.params0 Examples.st_assume_undef
      = Ok (l_Undef,
            set_assumptions [toLit 4]
              (Examples.played 3 [Some (toLit 0, null_clause_t); None;
                                  Some (toLit 4, null_clause_t)]))).
Proof.
  split_and!.
  - apply (new_decision_takes_assumption (C := Examples.quiet) Examples.params0
             Examples.st_assume (toLit 0) l_True); vm_compute; reflexivity.
  - pose proof (new_decision_takes_assumption (C := Examples.quiet) Examples.params0
                  Examples.st_assume_false (toLit 1) l_False) as H.
    destruct H as (_ & _ & _ & H); [vm_compute; reflexivity..|].
    rewrite H. vm_compute. reflexivity.
  - pose proof (new_decision_takes_assumption (C := Examples.quiet) Examples.params0
                  Examples.st_assume_undef (toLit 4) l_Undef) as H.
    destruct H as (_ & _ & _ & H); [vm_compute; reflexivity..|].
    rewrite H; [vm_compute; reflexivity|discriminate].
Defined.
(** ** Imported units *)

Section Units.

Context {Ext : Type} {C : Collaborators Ext}.

Local Abbreviation State := (CommandControl Ext).

(** C7. A unit [u] imported by [addOtherClauses] that is True with its
    variable at level 0 is skipped and the state is left as it is.  Otherwise
    the worker cancels to level 0; then, if [u] is Undef it is enqueued
    (without a reason) and the loop goes on, and if [u] is False the function
    returns [false].  (Were [u] True after the cancellation, the assertion
    [value(lit) == l_False] would fail.) *)
Theorem addOtherClauses_unit (u : Lit) (units : list Lit) (st : State) (v : lbool) :
  value u st = Ok (v, st) ->
  (forall d, v = l_True -> varData st !! N.to_nat (var u) = Some d -> level d = 0 ->
     addOtherClauses_units (u :: units) st = addOtherClauses_units units st)
  /\ (v ≠ l_True \/ (exists d, varData st !! N.to_nat (var u) = Some d /\ level d ≠ 0) ->
      forall st1 v',
        cancelUntil 0 st = Ok (tt, st1) ->
        value u st1 = Ok (v', st1) ->
        match v' with
        | l_Undef =>
            addOtherClauses_units (u :: units) st =
            match enqueue u null_clause_t st1 with
            | Ok (_, st2) => addOtherClauses_units units st2
            | Fail e => Fail e
            end
        | l_False =>
            addOtherClauses_units (u :: units) st = Ok (false, st1)
            /\ (ok st = true -> unitToAdd st = u :: units ->
                addOtherClauses st = Ok (false, st1))
        | l_True =>
            addOtherClauses_units (u :: units) st
            = Fail (AssertFailed "value(lit) == l_False")
        end).
Proof.
  intros Hv.
  assert (forall d, varData st !! N.to_nat (var u) = Some d ->
            bind (read varData (var u)) (fun d => ret (bool_decide (level d = 0))) st
            = Ok (bool_decide (level d = 0), st)) as Hrd
    by (intros d Hd; by rewrite (bind_Ok _ _ _ _ _ (read_Ok varData _ st d Hd))).
  split.
  - intros d -> Hd Hl. cbn [addOtherClauses_units].
    rewrite (bind_Ok _ _ _ _ _ Hv). rewrite decide_True by done.
    rewrite (bind_Ok _ _ _ _ _ (Hrd d Hd)).
    rewrite bool_decide_eq_true_2 by done. done.
  - intros Hns st1 v' Hc Hv'.
    assert (addOtherClauses_units (u :: units) st =
            match v' with
            | l_Undef =>
                match enqueue u null_clause_t st1 with
                | Ok (_, st2) => addOtherClauses_units units st2
                | Fail e => Fail e
                end
            | l_False => Ok (false, st1)
            | l_True => Fail (AssertFailed "value(lit) == l_False")
            end) as Hunits.
    { assert (addOtherClauses_units (u :: units) st =
              bind (cancelUntil 0)
                (fun _ => bind (value u) (fun v' =>
                   if decide (v' = l_Undef)
                   then bind (enqueue u null_clause_t)
                          (fun _ => addOtherClauses_units units)
                   else bind (assert (bool_decide (v' = l_False)) "value(lit) == l_False")
                          (fun _ => ret false))) st) as ->.
      { cbn [addOtherClauses_units]. rewrite (bind_Ok _ _ _ _ _ Hv).
        destruct Hns as [Hne|(d & Hd & Hl)].
        - rewrite decide_False by done. by rewrite bind_ret.
        - destruct (decide (v = l_True)); [|by rewrite bind_ret].
          rewrite (bind_Ok _ _ _ _ _ (Hrd d Hd)).
          by rewrite bool_decide_eq_false_2. }
      rewrite (bind_Ok _ _ _ _ _ Hc), (bind_Ok _ _ _ _ _ Hv').
      destruct v'; simpl; [done|done|].
      destruct (enqueue u null_clause_t st1) as [[[] st2]|e] eqn:He.
      - by rewrite (bind_Ok _ _ _ _ _ He).
      - by rewrite (bind_Fail _ _ _ _ He). }
    destruct v'; [done| |done].
    split; [done|]. intros Hok Hu.
    unfold addOtherClauses. rewrite bind_gets. unfold id.
    rewrite Hok, bind_assert_true, Hu.
    by rewrite (bind_Ok _ _ _ _ _ Hunits).
Qed.

End Units.

Lemma addOtherClauses_unit_witness :
  (addOtherClauses_units [toLit 0; toLit 3] Examples.st_cancel
   = addOtherClauses_units [toLit 3] Examples.st_cancel)
  /\ (addOtherClauses_units [toLit 3] Examples.st_cancel
      = match enqueue (toLit 3) null_clause_t Examples.st_cancelled with
        | Ok (_, st2) => addOtherClauses_units [] st2
        | Fail e => Fail e
        end)
  /\ (addOtherClauses (C := Examples.quiet) Examples.st_unit_false
      = Ok (false, Examples.st_unit_false_cancelled)).
Proof.
  split_and!.
  - assert (value (toLit 0) Examples.st_cancel = Ok (l_True, Examples.st_cancel)) as Hv
      by (vm_compute; reflexivity).
    destruct (addOtherClauses_unit (C := Examples.quiet) (toLit 0) [toLit 3] Examples.st_cancel l_True Hv)
      as [H _].
    apply (H (mkVarData 0 null_clause_t false)).
    + reflexivity.
    + (vm_compute; reflexivity).
    + reflexivity.
  - assert (value (toLit 3) Examples.st_cancel = Ok (l_False, Examples.st_cancel)) as Hv
      by (vm_compute; reflexivity).
    destruct (addOtherClauses_unit (C := Examples.quiet) (toLit 3) [] Examples.st_cancel l_False Hv)
      as [_ H].
    assert (l_False ≠ l_True) as Hne by discriminate.
    specialize (H (or_introl Hne) Examples.st_cancelled l_Undef).
    cbv beta iota in H. apply H; vm_compute; reflexivity.
  - assert (value (toLit 1) Examples.st_unit_false
            = Ok (l_False, Examples.st_unit_false)) as Hv
      by (vm_compute; reflexivity).
    destruct (addOtherClauses_unit (C := Examples.quiet) (toLit 1) [] Examples.st_unit_false l_False Hv)
      as [_ H].
    assert (l_False ≠ l_True) as Hne by discriminate.
    specialize (H (or_introl Hne) Examples.st_unit_false_cancelled l_False).
    cbv beta iota in H. destruct H as [_ H]; [vm_compute; reflexivity..|].
    apply H; vm_compute; reflexivity.
Defined.
(** ** A conflict at decision level 0 *)

Section LevelZero.

Context {Ext : Type} {C : Collaborators Ext}.

Local Abbreviation State := (CommandControl Ext).

Lemma handle_conflict_level0 params confl (st : State) :
  decisionLevel st = 0 ->
  handle_conflict params confl st
  = Ok ((false, counted params), set_numConflicts (wrap64 (numConflicts st + 1)) st).
Proof.
  intros H0. unfold handle_conflict. rewrite bind_modify, bind_gets. unfold id.
  rewrite decide_True by done. done.
Qed.

Lemma checkNeedRestart_Ok params (st : State) :
  exists params1 e,
    checkNeedRestart params st = Ok (params1, set_ext e st).
Proof.
  unfold checkNeedRestart. rewrite bind_gets. unfold id.
  destruct (agility_below_limit (ext st)).
  - rewrite bind_modify, bind_gets. unfold id. eexists _, _. reflexivity.
  - rewrite bind_ret, bind_gets. unfold id. eexists _, (ext st).
    replace (set_ext (ext st) st) with st by (by destruct st). reflexivity.
Qed.

Lemma search_search_loop fuel params (st : State) :
  ok st = true ->
  search fuel params st = search_loop fuel params (search_entry params st).
Proof.
  intros Hok. unfold search, search_entry. rewrite bind_gets. unfold id.
  rewrite Hok, bind_assert_true.
  destruct (update params).
  - by rewrite !bind_modify.
  - by rewrite bind_ret, !bind_modify.
Qed.

(** C6. A conflict found by propagation while the decision level is 0 ends
    the search with UNSAT: [handle_conflict] counts the conflict and returns
    [false], nothing else of the state changes (no clause is learnt, attached
    or published), and [search] returns [l_False].  The conflict may be met
    in any turn of the loop of [search], which starts from
    [search_entry]. *)
Theorem conflict_at_level_0 fuel params (confl : PropBy) (st st1 st2 : State) :
  ok st = true ->
  propagate (update params) st = Ok (confl, st1) ->
  isNULL confl = false ->
  (if decide (decisionLevel st1 = 0 /\ (length (trail st) < length (trail st1))%nat)
   then addToThreads (length (trail st)) else ret tt) st1 = Ok (tt, st2) ->
  decisionLevel st2 = 0 ->
  exists params1 st3,
    checkNeedRestart params st2 = Ok (params1, st3)
    /\ handle_conflict params1 confl st3
       = Ok ((false, counted params1),
             set_numConflicts (wrap64 (numConflicts st3 + 1)) st3)
    /\ search_loop (S fuel) params st
       = Ok (l_False, set_numConflicts (wrap64 (numConflicts st3 + 1)) st3)
    /\ (forall params0 st0, ok st0 = true -> search_entry params0 st0 = st ->
          params0 = params ->
          search (S fuel) params0 st0
          = Ok (l_False, set_numConflicts (wrap64 (numConflicts st3 + 1)) st3)).
Proof.
  intros Hok Hprop Hnull Hadd H0.
  destruct (checkNeedRestart_Ok params st2) as (params1 & e & Hchk).
  exists params1, (set_ext e st2).
  assert (decisionLevel (set_ext e st2) = 0) as H0' by done.
  pose proof (handle_conflict_level0 params1 confl _ H0') as Hh.
  assert (search_loop (S fuel) params st
          = Ok (l_False,
                set_numConflicts (wrap64 (numConflicts (set_ext e st2) + 1))
                  (set_ext e st2))) as Hloop.
  { cbn [search_loop]. rewrite bind_gets. unfold id.
    rewrite Hok, bind_assert_true.
    rewrite (bind_Ok _ _ _ _ _ Hprop). rewrite bind_gets. unfold id.
    rewrite (bind_Ok _ _ _ _ _ Hadd).
    rewrite Hnull. cbn [negb].
    rewrite (bind_Ok _ _ _ _ _ Hchk).
    rewrite (bind_Ok _ _ _ _ _ Hh). done. }
  split_and!; [done|done|done|].
  intros params0 st0 Hok0 <- ->.
  by rewrite search_search_loop.
Qed.

End LevelZero.

Lemma conflict_at_level_0_witness :
  exists params1 st3,
    checkNeedRestart (C := Examples.conflicting) Examples.params0 Examples.st_assume
      = Ok (params1, st3)
    /\ handle_conflict (C := Examples.conflicting) params1 (binary_t (toLit 0)) st3
       = Ok ((false, counted params1),
             set_numConflicts (wrap64 (numConflicts st3 + 1)) st3)
    /\ search_loop (C := Examples.conflicting) 1 Examples.params0 Examples.st_assume
       = Ok (l_False, set_numConflicts (wrap64 (numConflicts st3 + 1)) st3)
    /\ (forall params0 st0, ok st0 = true ->
          search_entry (C := Examples.conflicting) params0 st0 = Examples.st_assume ->
          params0 = Examples.params0 ->
          search (C := Examples.conflicting) 1 params0 st0
          = Ok (l_False, set_numConflicts (wrap64 (numConflicts st3 + 1)) st3)).
Proof.
  apply (conflict_at_level_0 (C := Examples.conflicting) 0 Examples.params0
           (binary_t (toLit 0)) Examples.st_assume Examples.st_assume Examples.st_assume);
    reflexivity.
Defined.
(** ** analyze *)

Section AnalyzeFrame.

Context {Ext : Type} {C : Collaborators Ext} {X : Type}.

Local Abbreviation State := (CommandControl Ext).

(** A part [f] of the state that does not depend on the members that
    [analyze] writes, [furtherClMinim] apart *)
Context (f : State -> X).
Hypothesis f_seen : forall x st, f (set_seen x st) = f st.
Hypothesis f_ext : forall x st, f (set_ext x st) = f st.
Hypothesis f_toClear : forall x st, f (set_toClear x st) = f st.
Hypothesis f_max_literals : forall x st, f (set_max_literals x st) = f st.
Hypothesis f_tot_literals : forall x st, f (set_tot_literals x st) = f st.
Hypothesis f_numShrinkedClause : forall x st, f (set_numShrinkedClause x st) = f st.
Hypothesis f_numShrinkedClauseLits :
  forall x st, f (set_numShrinkedClauseLits x st) = f st.

Lemma set_seen_at_keeps i b : keeps f (set_seen_at i b).
Proof using f_seen. unfold set_seen_at. keeps_tac. Qed.

Lemma getPointer_keeps o : keeps f (getPointer o).
Proof. unfold getPointer. keeps_tac. Qed.

Lemma levels_of_keeps ps : keeps f (levels_of ps).
Proof. induction ps as [|p ps IH]; simpl; keeps_tac. Qed.

Lemma calcNBLevels_keeps ps : keeps f (calcNBLevels ps).
Proof. unfold calcNBLevels. keeps_tac. apply levels_of_keeps. Qed.

Lemma minim_mark_keeps cl : keeps f (minim_mark cl).
Proof using f_seen.
  induction cl as [|l cl IH]; simpl; keeps_tac. apply set_seen_at_keeps.
Qed.

Lemma minim_cache_keeps cache : keeps f (minim_cache cache).
Proof using f_seen.
  induction cache as [|l cl IH]; simpl; keeps_tac. apply set_seen_at_keeps.
Qed.

Lemma minim_watch_keeps w : keeps f (minim_watch w).
Proof using f_seen.
  unfold minim_watch. keeps_tac; apply set_seen_at_keeps.
Qed.

Lemma minim_watches_keeps ws : keeps f (minim_watches ws).
Proof using f_seen.
  induction ws as [|w ws IH]; simpl; keeps_tac. apply minim_watch_keeps.
Qed.

Lemma minim_loop_keeps ls : keeps f (minim_loop ls).
Proof using f_seen.
  induction ls as [|l ls IH]; simpl; keeps_tac;
    first [apply minim_cache_keeps | apply minim_watches_keeps].
Qed.

Lemma minim_select_keeps cl : keeps f (minim_select cl).
Proof using f_seen.
  unfold minim_select. keeps_tac;
    first [apply minim_mark_keeps | apply minim_loop_keeps | apply set_seen_at_keeps].
Qed.

Lemma minim_compact_keeps n : forall i j cl r, keeps f (minim_compact n i j cl r).
Proof using f_seen.
  induction n as [|n IH]; intros i j cl r; simpl; keeps_tac; apply set_seen_at_keeps.
Qed.

Lemma analyze_take_keeps q pathC out : keeps f (analyze_take q pathC out).
Proof using f_seen f_ext.
  unfold analyze_take. keeps_tac. apply set_seen_at_keeps.
Qed.

Lemma analyze_lit_level_first_keeps q pathC out :
  keeps f (analyze_lit_level_first q pathC out).
Proof using f_seen f_ext.
  unfold analyze_lit_level_first. keeps_tac. apply analyze_take_keeps.
Qed.

Lemma analyze_lit_seen_first_keeps q pathC out :
  keeps f (analyze_lit_seen_first q pathC out).
Proof using f_seen f_ext.
  unfold analyze_lit_seen_first. keeps_tac. apply analyze_take_keeps.
Qed.

Lemma analyze_binary_keeps o p pathC out : keeps f (analyze_binary o p pathC out).
Proof using f_seen f_ext.
  unfold analyze_binary. keeps_tac;
    first [apply analyze_lit_level_first_keeps | apply analyze_lit_seen_first_keeps].
Qed.

Lemma analyze_clause_keeps num w p rest :
  forall j pathC out, keeps f (analyze_clause num w p j rest pathC out).
Proof using f_seen f_ext.
  induction rest as [|q rest IH]; intros j pathC out; simpl; keeps_tac.
  apply analyze_lit_seen_first_keeps.
Qed.

Lemma analyze_reason_keeps confl p pathC out : keeps f (analyze_reason confl p pathC out).
Proof using f_seen f_ext.
  unfold analyze_reason. keeps_tac;
    first [apply analyze_lit_level_first_keeps | apply analyze_binary_keeps
          | apply getPointer_keeps | apply analyze_clause_keeps].
Qed.

Lemma analyze_next_keeps n : keeps f (analyze_next n).
Proof. induction n as [|n IH]; simpl; keeps_tac. Qed.

Lemma analyze_loop_keeps fuel :
  forall confl p n pathC out, keeps f (analyze_loop fuel confl p n pathC out).
Proof using f_seen f_ext.
  induction fuel as [|fuel IH]; intros confl p n pathC out; simpl; keeps_tac;
    first [apply analyze_reason_keeps | apply analyze_next_keeps
          | apply set_seen_at_keeps].
Qed.

Lemma analyze_clear_keeps ls : keeps f (analyze_clear ls).
Proof using f_seen.
  induction ls as [|l ls IH]; simpl; keeps_tac. apply set_seen_at_keeps.
Qed.

Lemma analyze_max_keeps n : forall i out max_i, keeps f (analyze_max n i out max_i).
Proof. induction n as [|n IH]; intros i out max_i; simpl; keeps_tac. Qed.

Lemma analyze_btlevel_keeps out : keeps f (analyze_btlevel out).
Proof. unfold analyze_btlevel. keeps_tac. apply analyze_max_keeps. Qed.

Lemma analyze_uip_keeps confl out : keeps f (analyze_uip confl out).
Proof using f_seen f_ext.
  unfold analyze_uip. keeps_tac. apply analyze_loop_keeps.
Qed.

Lemma analyze_before_keeps confl out : keeps f (analyze_before confl out).
Proof using f_seen f_ext f_toClear f_max_literals.
  unfold analyze_before. keeps_tac;
    first [apply analyze_uip_keeps | apply analyze_clear_keeps | apply calcNBLevels_keeps].
Qed.

Lemma analyze_after_keeps out : keeps f (analyze_after out).
Proof using f_tot_literals.
  unfold analyze_after. keeps_tac;
    first [apply calcNBLevels_keeps | apply analyze_btlevel_keeps].
Qed.

End AnalyzeFrame.

Section AnalyzeCall.

Context {Ext : Type} {C : Collaborators Ext}.

Local Abbreviation State := (CommandControl Ext).

Lemma minimiseLearntFurther_counts cl glue (st : State) r :
  minimiseLearntFurther cl glue st = Ok r ->
  doCache (conf st) = true /\ furtherClMinim r.2 = wrap64 (furtherClMinim st + 1).
Proof.
  unfold minimiseLearntFurther. intros H. minv. split; [done|].
  match goal with
  | Hs : minim_select _ _ = Ok _ |- _ =>
      apply (minim_select_keeps furtherClMinim) in Hs; [|done]; simpl in Hs
  end.
  match goal with
  | Hc : minim_compact _ _ _ _ _ _ = Ok (?x, _) |- _ =>
      apply (minim_compact_keeps furtherClMinim) in Hc; [|done];
      destruct x as [[? ?] ?]
  end.
  minv. simpl. congruence.
Qed.

Lemma minimiseLearntFurther_nocache cl glue (st : State) :
  doCache (conf st) = false ->
  minimiseLearntFurther cl glue st = Fail (AssertFailed "conf.doCache").
Proof.
  intros H. unfold minimiseLearntFurther. rewrite bind_gets. unfold id.
  by rewrite H.
Qed.

(** C3. Whenever [analyze] gets as far as the call, it calls
    [minimiseLearntFurther] on the learnt clause: what [analyze] does from
    there is what [minimiseLearntFurther] does, followed by the end of
    [analyze].  No option and no running average is consulted: with
    [doCache] unset the call is made all the same and stops at the assertion
    at its entry, and every [analyze] that returns has counted one call in
    [furtherClMinim]. *)
Theorem analyze_always_minimises (confl : PropBy) (st st1 : State)
    (out2 : list Lit) (g : N) :
  analyze_before confl [] st = Ok ((out2, g), st1) ->
  analyze confl [] st
  = match minimiseLearntFurther out2 g st1 with
    | Ok (out3, st2) => analyze_after out3 st2
    | Fail e => Fail e
    end
  /\ (doCache (conf st) = false ->
      analyze confl [] st = Fail (AssertFailed "conf.doCache"))
  /\ (forall r st', analyze confl [] st = Ok (r, st') ->
        furtherClMinim st' = wrap64 (furtherClMinim st + 1)).
Proof.
  intros Hb.
  assert (analyze confl [] st
          = match minimiseLearntFurther out2 g st1 with
            | Ok (out3, st2) => analyze_after out3 st2
            | Fail e => Fail e
            end) as Heq.
  { unfold analyze. rewrite (bind_Ok _ _ _ _ _ Hb).
    destruct (minimiseLearntFurther out2 g st1) as [[out3 st2]|e] eqn:Hm.
    - by rewrite (bind_Ok _ _ _ _ _ Hm).
    - by rewrite (bind_Fail _ _ _ _ Hm). }
  pose proof (analyze_before_keeps conf ltac:(done) ltac:(done) ltac:(done) ltac:(done)
                confl [] _ _ _ Hb) as Hconf.
  pose proof (analyze_before_keeps furtherClMinim ltac:(done) ltac:(done) ltac:(done)
                ltac:(done) confl [] _ _ _ Hb) as Hcount.
  split_and!; [done| |].
  - intros Hno. rewrite Heq, minimiseLearntFurther_nocache; [done|]. by rewrite Hconf.
  - intros r st' Ha. rewrite Heq in Ha.
    destruct (minimiseLearntFurther out2 g st1) as [[out3 st2]|e] eqn:Hm; [|done].
    apply minimiseLearntFurther_counts in Hm as [_ Hm]. simpl in Hm.
    apply (analyze_after_keeps furtherClMinim) in Ha; [|done].
    congruence.
Qed.

End AnalyzeCall.

Lemma analyze_always_minimises_witness :
  analyze (C := Examples.quiet) (clause_t 0 0) [] Examples.st_conflict
  = match minimiseLearntFurther [toLit 5; toLit 1; toLit 3] 3
            (set_max_literals 3 Examples.st_conflict) with
    | Ok (out3, st2) => analyze_after out3 st2
    | Fail e => Fail e
    end
  /\ (doCache (conf Examples.st_conflict) = false ->
      analyze (C := Examples.quiet) (clause_t 0 0) [] Examples.st_conflict
      = Fail (AssertFailed "conf.doCache"))
  /\ (forall r st',
        analyze (C := Examples.quiet) (clause_t 0 0) [] Examples.st_conflict = Ok (r, st') ->
        furtherClMinim st' = wrap64 (furtherClMinim Examples.st_conflict + 1)).
Proof.
  apply (analyze_always_minimises (C := Examples.quiet) (clause_t 0 0)
           Examples.st_conflict (set_max_literals 3 Examples.st_conflict)
           [toLit 5; toLit 1; toLit 3] 3).
  vm_compute. reflexivity.
Defined.

(** C9. With [doCache] unset, the assertion [conf.doCache] at the entry of
    [minimiseLearntFurther] fails on the call from [analyze]: on the conflict
    of [Examples.st_conflict_nocache], at decision level 3, [analyze] ends
    with that assertion failure. *)
Theorem analyze_asserts_doCache :
  doCache (conf Examples.st_conflict_nocache) = false
  /\ decisionLevel Examples.st_conflict_nocache = 3
  /\ analyze_before (C := Examples.quiet) (clause_t 0 0) [] Examples.st_conflict_nocache
     = Ok (([toLit 5; toLit 1; toLit 3], 3),
           set_max_literals 3 Examples.st_conflict_nocache)
  /\ analyze (C := Examples.quiet) (clause_t 0 0) [] Examples.st_conflict_nocache
     = Fail (AssertFailed "conf.doCache").
Proof. split_and!; vm_compute; reflexivity. Qed.

Section BacktrackLevel.

Context {Ext : Type} {C : Collaborators Ext}.

Local Abbreviation State := (CommandControl Ext).

Lemma level_at_Some vd cl k l d :
  cl !! k = Some l -> vd !! N.to_nat (var l) = Some d ->
  level_at vd cl k = Some (level d).
Proof. intros Hl Hd. unfold level_at, lit_level. by rewrite Hl, Hd. Qed.

(** The search of the position of the maximum level: the result [m] is
    [max_i] or one of the positions visited, and no literal at [max_i] or at a
    position visited is at a higher level than the one at [m]. *)
Lemma analyze_max_spec n : forall (i : N) out (max_i : N) (st : State) m st',
  analyze_max n i out max_i st = Ok (m, st') ->
  st' = st
  /\ (m = max_i \/ (i <= m < i + N.of_nat n))
  /\ ((0 < n)%nat -> is_Some (level_at (varData st) out (N.to_nat max_i)))
  /\ (forall k, i <= k < i + N.of_nat n ->
        is_Some (level_at (varData st) out (N.to_nat k)))
  /\ (forall k a b, k = max_i \/ (i <= k < i + N.of_nat n) ->
        level_at (varData st) out (N.to_nat k) = Some a ->
        level_at (varData st) out (N.to_nat m) = Some b ->
        a <= b).
Proof.
  induction n as [|n IH]; intros i out max_i st m st' H.
  - simpl in H. minv. split_and!; [done|by left|lia|intros k Hk; lia|].
    intros k a b [->|Hk] Ha Hb; [|lia]. rewrite Ha in Hb. injection Hb as <-. lia.
  - cbn [analyze_max] in H. minv.
    match goal with
    | H1 : out !! N.to_nat i = Some ?li, H2 : varData st !! N.to_nat (var ?li) = Some ?di,
      H3 : out !! N.to_nat max_i = Some ?lm, H4 : varData st !! N.to_nat (var ?lm) = Some ?dm
      |- _ =>
        pose proof (level_at_Some _ _ _ _ _ H1 H2) as Hi;
        pose proof (level_at_Some _ _ _ _ _ H3 H4) as Hm;
        set (new := if decide (level dm < level di) then i else max_i) in *;
        assert (exists c, level_at (varData st) out (N.to_nat new) = Some c
                          /\ level di <= c /\ level dm <= c) as (c & Hc & Hci & Hcm)
    end.
    { subst new. destruct (decide _); eexists; (split; [eassumption|lia]). }
    apply IH in H as (-> & Hm' & _ & Hsome & Hle).
    split_and!; [done| |by rewrite Hm| |].
    + destruct Hm' as [->|?]; [|right; lia].
      subst new. destruct (decide _); [right; lia|by left].
    + intros k Hk. destruct (decide (k = i)) as [->|]; [by rewrite Hi|].
      apply Hsome. lia.
    + intros k a b Hk Ha Hb.
      assert (c <= b) as Hcb by (eapply (Hle new); [by left|done|done]).
      destruct Hk as [->|Hk].
      * rewrite Hm in Ha. injection Ha as <-. lia.
      * destruct (decide (k = i)) as [->|].
        -- rewrite Hi in Ha. injection Ha as <-. lia.
        -- eapply (Hle k); [right; lia|done|done].
Qed.

Lemma analyze_btlevel_spec out (st : State) out' bt st' :
  analyze_btlevel out st = Ok ((out', bt), st') ->
  st' = st
  /\ length out' = length out
  /\ ((2 <= length out')%nat ->
       level_at (varData st) out' 1 = Some bt
       /\ forall (i : nat) li, (1 <= i)%nat -> out' !! i = Some li ->
            exists lv, lit_level (varData st) li = Some lv /\ lv <= bt)
  /\ ((length out' <= 1)%nat -> bt = 0).
Proof.
  unfold analyze_btlevel. intros H.
  destruct (decide (length out <= 1)%nat) as [Hle|Hgt].
  - minv. split_and!; [done|done|lia|done].
  - minv.
    match goal with
    | Hmax : analyze_max _ _ _ _ _ = Ok (?m, _) |- _ =>
        apply analyze_max_spec in Hmax as (-> & Hm & Hone & Hsome & Hmaxle)
    end.
    unfold swap in *.
    repeat match goal with
    | Hs : rbind _ _ = Ok _ |- _ => unfold rbind in Hs
    | Hs : match vget ?v ?i with _ => _ end = Ok _ |- _ =>
        let E := fresh "Hg" in destruct (vget v i) eqn:E; [|discriminate]
    | Hs : match vset ?v ?i ?x with _ => _ end = Ok _ |- _ =>
        let E := fresh "Hg" in destruct (vset v i x) eqn:E; [|discriminate]
    end.
    minv.
    match goal with
    | Hm0 : out !! N.to_nat ?pm = Some ?plm, H1 : out !! N.to_nat 1 = Some ?pl1,
      Hn : <[N.to_nat 1:=?plm]> _ !! N.to_nat 1 = Some ?x,
      Hd : varData st !! N.to_nat (var ?x) = Some ?pd |- _ =>
        rewrite list_lookup_insert_eq in Hn by done; injection Hn as <-;
        pose proof (level_at_Some _ _ _ _ _ Hm0 Hd) as Hlm;
        rename Hm0 into Hom; rename H1 into Ho1;
        rename pm into m; rename plm into lm; rename pl1 into l1; rename pd into d
    end.
    rewrite !length_insert.
    split_and!; [done|done| |lia].
    intros Hlen. split.
    + unfold level_at. rewrite list_lookup_insert_eq by (rewrite length_insert; lia).
      unfold level_at in Hlm.
      by rewrite Hom in Hlm.
    + intros i li Hi Hli.
      assert (exists k : N, (N.to_nat k < length out)%nat /\ (k = 1 \/ 2 <= k)
                /\ out !! N.to_nat k = Some li) as (k & Hklt & Hk & Hkl).
      { destruct (decide (i = N.to_nat 1)) as [->|Hi1].
        - rewrite list_lookup_insert_eq in Hli by (rewrite length_insert; lia).
          injection Hli as <-. exists m. split_and!; [done|lia|done].
        - rewrite list_lookup_insert_ne in Hli by done.
          destruct (decide (i = N.to_nat m)) as [->|Him].
          + rewrite list_lookup_insert_eq in Hli by done. injection Hli as <-.
            exists 1. split_and!; [lia|by left|done].
          + rewrite list_lookup_insert_ne in Hli by done.
            exists (N.of_nat i). rewrite Nat2N.id.
            apply lookup_lt_Some in Hli as Hlt'. split_and!; [done|lia|done]. }
      assert (is_Some (level_at (varData st) out (N.to_nat k))) as [lv Hlv].
      { destruct Hk as [->|Hk]; [|apply Hsome; lia].
        destruct (decide (length out = 2%nat)) as [H2|H2].
        - assert (m = 1) as -> by lia. by rewrite Hlm.
        - apply Hone. lia. }
      exists lv. split.
      * unfold level_at in Hlv. by rewrite Hkl in Hlv.
      * eapply (Hmaxle k); [|done|done]. destruct Hk; [by left|right; lia].
Qed.

(** C4. When [analyze] returns a learnt clause of two literals or more, no
    literal at the positions 1, 2, ... is at a higher decision level than the
    literal at position 1, and the backtrack level returned is the level of
    that literal; when the clause has at most one literal, the backtrack
    level is 0.  The levels are those of [varData], which [analyze] does not
    change. *)
Theorem analyze_backtrack_level (confl : PropBy) (st st' : State)
    (out : list Lit) (bt glue : N) :
  analyze confl [] st = Ok ((out, bt, glue), st') ->
  varData st' = varData st
  /\ ((2 <= length out)%nat ->
       level_at (varData st) out 1 = Some bt
       /\ forall (i : nat) li, (1 <= i)%nat -> out !! i = Some li ->
            exists lv, lit_level (varData st) li = Some lv /\ lv <= bt)
  /\ ((length out <= 1)%nat -> bt = 0).
Proof.
  intros H. unfold analyze in H. minv.
  match goal with
  | Hb : analyze_before _ _ _ = Ok (?x, _) |- _ =>
      destruct x as [out2 g];
      apply (analyze_before_keeps varData) in Hb; [|done..]; rename Hb into Hvd1
  end.
  cbn beta iota in H. minv.
  match goal with
  | Hm : minimiseLearntFurther _ _ _ = Ok _ |- _ => rename Hm into Hmin
  end.
  assert (keeps varData (minimiseLearntFurther (Ext := Ext) out2 g)) as Hk.
  { unfold minimiseLearntFurther. keeps_tac;
      first [by apply minim_select_keeps | by apply minim_compact_keeps]. }
  apply Hk in Hmin.
  unfold analyze_after in H. minv.
  match goal with
  | Hc : calcNBLevels _ _ = Ok _ |- _ =>
      apply (calcNBLevels_keeps varData) in Hc; rename Hc into Hvd3
  end.
  match goal with
  | Hb : analyze_btlevel _ _ = Ok (?x, _) |- _ =>
      destruct x as [out4 bt4]; apply analyze_btlevel_spec in Hb as (? & _ & H2 & H1)
  end.
  cbn beta iota in H. minv. cbn [varData set_tot_literals] in *.
  assert (varData st2 = varData st) as Hvd by congruence.
  rewrite Hvd in *. done.
Qed.

End BacktrackLevel.

Lemma analyze_backtrack_level_witness :
  varData Examples.st_analyzed = varData Examples.st_conflict
  /\ ((2 <= length [toLit 5; toLit 3; toLit 1])%nat ->
       level_at (varData Examples.st_conflict) [toLit 5; toLit 3; toLit 1] 1 = Some 2
       /\ forall (i : nat) li, (1 <= i)%nat ->
            [toLit 5; toLit 3; toLit 1] !! i = Some li ->
            exists lv, lit_level (varData Examples.st_conflict) li = Some lv /\ lv <= 2)
  /\ ((length [toLit 5; toLit 3; toLit 1] <= 1)%nat -> 2 = 0).
Proof.
  apply (analyze_backtrack_level (C := Examples.quiet) (clause_t 0 0)
           Examples.st_conflict Examples.st_analyzed [toLit 5; toLit 3; toLit 1] 2 3).
  vm_compute. reflexivity.
Defined.
(** ** Tactics for the further properties *)

(** [minv], also through the pairs that a computation returns *)
Ltac mpair :=
  match goal with
  | H : context [let '(_, _) := ?x in _] |- _ => is_var x; destruct x; cbn beta iota in H
  | H : context [match ?x with (_, _) => _ end] |- _ =>
      is_var x; destruct x; cbn beta iota in H
  end.

Ltac minvp := repeat (minv; try mpair); minv.

(** ** More on cancelUntil and the order heap *)

Section CancelMore.

Context {Ext : Type}.

Local Abbreviation State := (CommandControl Ext).

Lemma length_resize {A} (n : nat) (d : A) (v : list A) : length (resize n d v) = n.
Proof. unfold resize. rewrite length_app, length_take, length_replicate. lia. Qed.

Lemma cancelUntil_lt_length lvl (st st' : State) :
  lvl < decisionLevel st ->
  cancelUntil lvl st = Ok (tt, st') ->
  length (trail_lim st') = N.to_nat lvl.
Proof.
  intros Hlt H. unfold cancelUntil in H. minv.
  rewrite decide_True in H by done. minv.
  cbn [trail_lim set_trail_lim]. apply length_resize.
Qed.

Lemma cancelUntil_ge lvl (st : State) :
  ~ lvl < decisionLevel st -> cancelUntil lvl st = Ok (tt, st).
Proof.
  intros Hge. unfold cancelUntil. rewrite bind_gets. unfold id.
  by rewrite decide_False.
Qed.

(** X1. After [cancelUntil(lvl)] the decision level is [lvl], or what it was if
    it was not above [lvl]; cancelling to the same level again changes
    nothing (for [lvl = 0]: a restart right after a restart is a no-op). *)
Theorem cancelUntil_idempotent (lvl : N) (st st' : State) :
  cancelUntil lvl st = Ok (tt, st') ->
  decisionLevel st' = N.min lvl (decisionLevel st)
  /\ cancelUntil lvl st' = Ok (tt, st').
Proof.
  intros H.
  destruct (decide (lvl < decisionLevel st)) as [Hlt|Hge].
  - pose proof (cancelUntil_lt_length _ _ _ Hlt H) as Hl.
    assert (decisionLevel st' = lvl) as Hd by (unfold decisionLevel; lia).
    split; [lia|]. apply cancelUntil_ge. lia.
  - rewrite cancelUntil_ge in H by done. inversion H; subst.
    split; [lia|]. by apply cancelUntil_ge.
Qed.

End CancelMore.

Lemma cancelUntil_idempotent_witness :
  decisionLevel Examples.st_cancelled = N.min 0 (decisionLevel Examples.st_cancel)
  /\ cancelUntil 0 Examples.st_cancelled = Ok (tt, Examples.st_cancelled).
Proof.
  apply (cancelUntil_idempotent 0 Examples.st_cancel Examples.st_cancelled).
  vm_compute. reflexivity.
Defined.

Section HeapOk.

Context {Ext : Type}.

Local Abbreviation State := (CommandControl Ext).

Lemma insertVarOrder_heap_ok x (st : State) r :
  heap_ok st -> insertVarOrder x st = Ok r -> heap_ok r.2.
Proof.
  intros [Hnd Hdv] H. unfold insertVarOrder, inHeap in H. minv.
  destruct (bool_decide_reflect (x ∈ order_heap st)) as [Hin|Hnin]; minv; [done|].
  match goal with Hd : decision_var _ !! _ = Some ?d |- _ => destruct d end; minv;
    [|done].
  unfold heap_ok, heap_insert, is_decision_var. simpl. split.
  - apply NoDup_app. split_and!; [done| |apply NoDup_singleton].
    intros v Hv Hv'. apply list_elem_of_singleton in Hv'. by subst.
  - intros v Hv. apply elem_of_app in Hv as [Hv|Hv]; [by apply Hdv|].
    apply list_elem_of_singleton in Hv. by subst.
Qed.

Lemma cancel_loop_heap_ok undone : forall (st : State) r,
  heap_ok st -> cancel_loop undone st = Ok r -> heap_ok r.2.
Proof.
  induction undone as [|p undone IH]; intros st r Hok H; simpl in H; minv; [done|].
  unfold value_var in *. minv.
  match goal with
  | Hi : insertVarOrder _ _ = Ok _ |- _ => apply insertVarOrder_heap_ok in Hi; [|done]
  end.
  eapply IH; eauto.
Qed.

(** X2. [insertVarOrder] and [cancelUntil] keep the order heap free of
    duplicates and of variables that are not decision variables. *)
Theorem order_heap_kept_ok (st : State) :
  heap_ok st ->
  (forall x st', insertVarOrder x st = Ok (tt, st') -> heap_ok st')
  /\ (forall lvl st', cancelUntil lvl st = Ok (tt, st') -> heap_ok st').
Proof.
  intros Hok. split.
  - intros x st' H. by apply insertVarOrder_heap_ok in H.
  - intros lvl st' H. unfold cancelUntil in H. minv.
    destruct (decide _); minv; [|done].
    match goal with
    | Hc : cancel_loop _ _ = Ok _ |- _ => apply cancel_loop_heap_ok in Hc; [|done]
    end.
    done.
Qed.

End HeapOk.

Lemma order_heap_kept_ok_witness :
  (forall x st', insertVarOrder x Examples.st_cancel = Ok (tt, st') -> heap_ok st')
  /\ (forall lvl st', cancelUntil lvl Examples.st_cancel = Ok (tt, st') -> heap_ok st').
Proof.
  apply (order_heap_kept_ok Examples.st_cancel).
  split; [vm_compute; constructor|].
  intros v Hv. vm_compute in Hv. by apply elem_of_nil in Hv.
Defined.
(** ** analyzeFinal *)

Section AnalyzeFinal.

Context {Ext : Type} {C : Collaborators Ext}.

Local Abbreviation State := (CommandControl Ext).

Section Frame.

Context {X : Type} (f : State -> X).
Hypothesis f_seen : forall x st, f (set_seen x st) = f st.

Lemma analyzeFinal_mark_keeps l : keeps f (analyzeFinal_mark l).
Proof using f_seen. unfold analyzeFinal_mark. keeps_tac. by apply set_seen_at_keeps. Qed.

Lemma analyzeFinal_clause_keeps ls : keeps f (analyzeFinal_clause ls).
Proof using f_seen.
  induction ls as [|l ls IH]; simpl; keeps_tac. apply analyzeFinal_mark_keeps.
Qed.

Lemma analyzeFinal_loop_keeps ts : forall out, keeps f (analyzeFinal_loop ts out).
Proof using f_seen.
  induction ts as [|t ts IH]; intros out; simpl; keeps_tac;
    first [apply analyzeFinal_mark_keeps | apply getPointer_keeps
          | apply analyzeFinal_clause_keeps | by apply set_seen_at_keeps].
Qed.

Lemma analyzeFinal_keeps p : keeps f (analyzeFinal p).
Proof using f_seen.
  unfold analyzeFinal. keeps_tac;
    first [by apply set_seen_at_keeps | apply analyzeFinal_loop_keeps].
Qed.

End Frame.

Lemma analyzeFinal_loop_spec ts : forall out (st : State) out' st',
  analyzeFinal_loop ts out st = Ok (out', st') ->
  exists rest,
    out' = out ++ rest
    /\ forall q, q ∈ rest -> exists t, q = neg t /\ t ∈ ts /\ is_decision st t.
Proof.
  induction ts as [|t ts IH]; intros out st out' st' H; simpl in H; minv.
  - exists []. rewrite app_nil_r. split; [done|]. intros q Hq. by apply elem_of_nil in Hq.
  - match goal with Hs : seen st !! _ = Some ?b |- _ => destruct b end; minv.
    2:{ exists []. rewrite app_nil_r. split; [done|].
        intros q Hq. by apply elem_of_nil in Hq. }
    match goal with
    | Hs : set_seen_at _ _ _ = Ok _, Hl : analyzeFinal_loop _ _ _ = Ok _ |- _ =>
        pose proof (set_seen_at_keeps varData ltac:(done) _ _ _ _ _ Hs) as Hvd2;
        apply IH in Hl as (rest & -> & Hrest)
    end.
    match goal with Hd : varData st !! _ = Some ?d |- _ =>
      destruct (reason d) eqn:Hr; rename Hd into Hvd end.
    + minv. exists (neg t :: rest). rewrite <- app_assoc. split; [done|].
      intros q Hq. apply elem_of_cons in Hq as [->|Hq].
      * exists t. split_and!; [done|by left|].
        eexists. split_and!; [eassumption|done|].
        match goal with Ha : bool_decide _ = true |- _ => by apply bool_decide_eq_true in Ha end.
      * destruct (Hrest q Hq) as (t' & -> & Ht' & d' & Hd' & ?).
        exists t'. split_and!; [done|by right|].
        exists d'. split; [|done]. simpl in Hvd2. by rewrite <- Hvd2.
    + minv.
      match goal with
      | Hm : analyzeFinal_mark _ _ = Ok _ |- _ =>
          apply (analyzeFinal_mark_keeps varData) in Hm; [|done]
      end.
      exists rest. split; [done|].
      intros q Hq. destruct (Hrest q Hq) as (t' & -> & Ht' & d' & Hd' & ?).
      exists t'. split_and!; [done|by right|].
      exists d'. split; [|done]. simpl in *. congruence.
    + minv.
      repeat match goal with
      | Hm : analyzeFinal_mark _ _ = Ok _ |- _ =>
          apply (analyzeFinal_mark_keeps varData) in Hm; [|done]
      end.
      exists rest. split; [done|].
      intros q Hq. destruct (Hrest q Hq) as (t' & -> & Ht' & d' & Hd' & ?).
      exists t'. split_and!; [done|by right|].
      exists d'. split; [|done]. simpl in *. congruence.
    + minv.
      match goal with
      | Hm : getPointer _ _ = Ok _ |- _ => apply (getPointer_keeps varData) in Hm
      end.
      match goal with
      | Hm : analyzeFinal_clause _ _ = Ok _ |- _ =>
          apply (analyzeFinal_clause_keeps varData) in Hm; [|done]
      end.
      exists rest. split; [done|].
      intros q Hq. destruct (Hrest q Hq) as (t' & -> & Ht' & d' & Hd' & ?).
      exists t'. split_and!; [done|by right|].
      exists d'. split; [|done]. simpl in *. congruence.
Qed.

Lemma analyzeFinal_head (p : Lit) (st : State) (out : list Lit) (st' : State) :
  analyzeFinal p st = Ok (out, st') -> exists rest, out = p :: rest.
Proof.
  intros H. unfold analyzeFinal in H. minv.
  destruct (decide (decisionLevel st = 0)); minv; [by exists []|].
  match goal with
  | Hl : analyzeFinal_loop _ _ _ = Ok _ |- _ =>
      apply analyzeFinal_loop_spec in Hl as (rest & -> & _)
  end.
  by exists rest.
Qed.

(** X3. The conflict that [analyzeFinal(p, out_conflict)] returns starts with [p];
    every other literal of it is the negation of a literal of the trail that
    has no reason and a level above 0, that is, of a decision or an
    assumption.  At decision level 0 the conflict is [p] alone and the state
    is untouched.  The trail, its limits, the assignment and [varData] are
    never changed. *)
Theorem analyzeFinal_conflict (p : Lit) (st : State) (out : list Lit) (st' : State) :
  analyzeFinal p st = Ok (out, st') ->
  (exists rest,
     out = p :: rest
     /\ forall q, q ∈ rest -> exists t, q = neg t /\ t ∈ trail st /\ is_decision st t)
  /\ (decisionLevel st = 0 -> out = [p] /\ st' = st)
  /\ trail st' = trail st /\ trail_lim st' = trail_lim st
  /\ assigns st' = assigns st /\ varData st' = varData st.
Proof.
  intros H.
  pose proof (analyzeFinal_keeps
                (fun s => (trail s, trail_lim s, assigns s, varData s))
                ltac:(done) _ _ _ _ H) as Hk.
  simpl in Hk. injection Hk as Ht Htl Ha Hvd.
  split_and!; try done.
  - unfold analyzeFinal in H. minv.
    destruct (decide (decisionLevel st = 0)); minv.
    + exists []. split; [done|]. intros q Hq. by apply elem_of_nil in Hq.
    + match goal with
      | Hs : set_seen_at _ _ st = Ok _, Hl : analyzeFinal_loop _ _ _ = Ok _ |- _ =>
          pose proof (set_seen_at_keeps varData ltac:(done) _ _ _ _ _ Hs) as Hvd1;
          apply analyzeFinal_loop_spec in Hl as (rest & -> & Hrest)
      end.
      exists rest. split; [done|].
      intros q Hq. destruct (Hrest q Hq) as (t & -> & Hin & d & Hd & ?).
      exists t. split_and!; [done| |].
      * rewrite elem_of_reverse in Hin. by apply subseteq_drop in Hin.
      * exists d. split; [|done]. simpl in *. congruence.
  - intros H0. unfold analyzeFinal in H. minv.
    rewrite decide_True in H by done. by minv.
Qed.

End AnalyzeFinal.

Lemma analyzeFinal_conflict_witness :
  (exists rest,
     [toLit 2; toLit 1] = toLit 2 :: rest
     /\ forall q, q ∈ rest ->
          exists t, q = neg t /\ t ∈ trail Runs.st_implied /\ is_decision Runs.st_implied t)
  /\ (decisionLevel Runs.st_implied = 0 ->
      [toLit 2; toLit 1] = [toLit 2] /\ Runs.st_implied = Runs.st_implied)
  /\ trail Runs.st_implied = trail Runs.st_implied
  /\ trail_lim Runs.st_implied = trail_lim Runs.st_implied
  /\ assigns Runs.st_implied = assigns Runs.st_implied
  /\ varData Runs.st_implied = varData Runs.st_implied.
Proof.
  apply (analyzeFinal_conflict (toLit 2) Runs.st_implied [toLit 2; toLit 1] Runs.st_implied).
  vm_compute. reflexivity.
Defined.
(** ** pickBranchLit *)


Section Pick.

Context {Ext : Type} {C : Collaborators Ext}.

Local Abbreviation State := (CommandControl Ext).

Section Frame.

Context {X : Type} (f : State -> X).
Hypothesis f_ext : forall x st, f (set_ext x st) = f st.
Hypothesis f_order_heap : forall x st, f (set_order_heap x st) = f st.
Hypothesis f_rnd_decisions : forall x st, f (set_rnd_decisions x st) = f st.

Lemma insertVarOrder_keeps x : keeps f (insertVarOrder x).
Proof using f_order_heap. unfold insertVarOrder. keeps_tac. Qed.

Lemma use_ext_keeps {A} (g : Ext -> A * Ext) : keeps f (use_ext g).
Proof using f_ext. unfold use_ext. keeps_tac. Qed.

Lemma pick_free_keeps v : keeps f (pick_free v).
Proof. unfold pick_free, value_var. keeps_tac. Qed.

Lemma pick_sign_keeps v : keeps f (pick_sign v).
Proof using f_ext. unfold pick_sign. keeps_tac. apply use_ext_keeps. Qed.

Lemma pick_random_keeps : keeps f pick_random.
Proof using f_ext f_rnd_decisions.
  unfold pick_random. keeps_tac;
    first [apply use_ext_keeps | apply pick_free_keeps | apply pick_sign_keeps].
Qed.

Lemma pick_dominated_keeps l : keeps f (pick_dominated l).
Proof using f_ext.
  unfold pick_dominated. keeps_tac; first [apply use_ext_keeps | apply pick_free_keeps].
Qed.

Lemma pick_activity_keeps fuel : forall next sgn, keeps f (pick_activity fuel next sgn).
Proof using f_ext f_order_heap.
  induction fuel as [|fuel IH]; intros next sgn; simpl; keeps_tac;
    first [apply pick_free_keeps | apply pick_sign_keeps
          | apply pick_dominated_keeps | apply insertVarOrder_keeps].
Qed.

Lemma pickBranchLit_keeps : keeps f pickBranchLit.
Proof using f_ext f_order_heap f_rnd_decisions.
  unfold pickBranchLit. keeps_tac;
    first [apply pick_random_keeps | apply pick_activity_keeps].
Qed.

End Frame.




End Pick.

(** ** What new_decision returns *)

Section NewDecisionResult.

Context {Ext : Type} {C : Collaborators Ext}.

Local Abbreviation State := (CommandControl Ext).

(** The loop over the assumptions only pushes decision levels; it ends on a
    False assumption, whose negation heads the conflict, or on an Undef
    assumption, or when no assumption is left. *)
Lemma new_decision_assumptions_spec fuel : forall (st : State) r st',
  new_decision_assumptions fuel st = Ok (r, st') ->
  trail st' = trail st
  /\ assigns st' = assigns st
  /\ assumptions st' = assumptions st
  /\ decisionLevel st <= decisionLevel st'
  /\ match r with
     | inl res =>
         res = l_False
         /\ exists p, assumptions st !! N.to_nat (decisionLevel st') = Some p
                      /\ value p st' = Ok (l_False, st')
                      /\ exists rest, conflict st' = neg p :: rest
     | inr next =>
         (next = lit_Undef
          /\ ~ decisionLevel st' < N.of_nat (length (assumptions st)))
         \/ (assumptions st !! N.to_nat (decisionLevel st') = Some next
             /\ value next st' = Ok (l_Undef, st'))
     end.
Proof.
  induction fuel as [|fuel IH]; intros st r st' H; simpl in H; minv.
  - destruct (decide _); minv. do 4 (split; [done || lia|]). left. done.
  - destruct (decide _) as [Hlt|Hge]; minv.
    2:{ do 4 (split; [done || lia|]). left. done. }
    match goal with
    | Hv : value _ _ = Ok (?v, _) |- _ =>
        pose proof Hv as Hv'; apply value_Ok_inv in Hv' as (a & Ha & Hr);
        inversion Hr; subst; clear Hr; destruct (lbool_xor a _) eqn:Hx
    end.
    + unfold newDecisionLevel in H. minv.
      apply IH in H as (Ht & Has & Hass & Hle & Hres).
      cbn [trail assigns assumptions set_trail_lim] in *.
      do 3 (split; [done|]). split; [|done].
      unfold decisionLevel in *. cbn [trail_lim set_trail_lim] in Hle.
      rewrite length_app in Hle. simpl in Hle. lia.
    + minv.
      match goal with
      | Hf : analyzeFinal _ _ = Ok _ |- _ =>
          pose proof (analyzeFinal_keeps
                        (fun s => (trail s, trail_lim s, assigns s, varData s))
                        ltac:(done) _ _ _ _ Hf) as Hk;
          simpl in Hk; injection Hk as Ht Htl Has Hvd;
          pose proof Hf as Hf'; apply analyzeFinal_head in Hf' as (rest & ->)
      end.
      match goal with
      | Hf : analyzeFinal _ _ = Ok _ |- _ =>
          pose proof (analyzeFinal_keeps assumptions ltac:(done) _ _ _ _ Hf) as Hass
      end.
      simpl in Hass.
      match goal with
      | |- context [set_conflict ?c ?s] =>
          assert (decisionLevel (set_conflict c s) = decisionLevel st) as Hdl
            by (unfold decisionLevel; cbn [trail_lim set_conflict]; by rewrite Htl)
      end.
      rewrite Hdl. cbn [trail assigns assumptions conflict set_conflict].
      do 4 (split; [done || lia|]).
      split; [done|].
      eexists. split; [eassumption|]. split; [|by eexists].
      assert (assigns (set_conflict (neg a1 :: rest) st0) !! N.to_nat (var a1) = Some a)
        as Ha' by (cbn [assigns set_conflict]; by rewrite Has).
      unfold value. rewrite (bind_Ok _ _ _ _ _ (read_Ok assigns _ _ a Ha')).
      by rewrite Hx.
    + minv. do 4 (split; [done || lia|]). right. by split.
Qed.

(** X5. [new_decision] returns [l_True] only when no assumption is left, and then
    the trail is as it was; it returns [l_False] only on an assumption [p]
    that is False, with [~p] at the head of [conflict] and the trail as it
    was; it returns [l_Undef] only after raising the decision level. *)
Theorem new_decision_result params (st : State) (r : lbool) (st' : State) :
  lit_Undef ∉ assumptions st ->
  new_decision params st = Ok (r, st') ->
  match r with
  | l_True =>
      trail st' = trail st
      /\ ~ decisionLevel st' < N.of_nat (length (assumptions st))
  | l_False =>
      trail st' = trail st
      /\ exists p, assumptions st !! N.to_nat (decisionLevel st') = Some p
                   /\ value p st' = Ok (l_False, st')
                   /\ exists rest, conflict st' = neg p :: rest
  | l_Undef => decisionLevel st < decisionLevel st'
  end.
Proof.
  intros Hsent H. unfold new_decision in H. minv.
  match goal with
  | Hn : new_decision_assumptions _ _ = Ok (?x, _) |- _ =>
      apply new_decision_assumptions_spec in Hn as (Ht & Has & Hass & Hle & Hres);
      destruct x as [res|next0]
  end.
  - minv. destruct Hres as (-> & Hp). done.
  - minv.
    match goal with
    | Hp : (if decide (next0 = lit_Undef) then _ else _) ?s1 = Ok (?p, ?s2) |- _ =>
        assert (next0 = lit_Undef ->
                ~ decisionLevel s1 < N.of_nat (length (assumptions st))) as Hdone;
        [|assert (trail s2 = trail s1 /\ trail_lim s2 = trail_lim s1) as [Ht1 Htl1]]
    end.
    { intros ->. destruct Hres as [[_ ?]|[Hl _]]; [done|].
      exfalso. apply Hsent. by apply list_elem_of_lookup_2 in Hl. }
    { destruct (decide (next0 = lit_Undef)); minv; [|done].
      match goal with
      | Hp : pickBranchLit _ = Ok _ |- _ =>
          pose proof (pickBranchLit_keeps assignment ltac:(done) ltac:(done) ltac:(done)
                        _ _ _ Hp) as Hk
      end.
      unfold assignment in Hk. simpl in Hk. by injection Hk as -> -> _ _ _. }
    destruct (decide (next0 = lit_Undef /\ _)) as [[-> ->]|Hno]; minv.
    + split; [congruence|]. unfold decisionLevel in *. rewrite Htl1. by apply Hdone.
    + unfold value, newDecisionLevel, enqueue in *. minv.
      unfold decisionLevel in *. cbn [trail_lim set_trail set_varData set_assigns
                                       set_trail_lim].
      rewrite length_app, Htl1. simpl. lia.
Qed.

End NewDecisionResult.

Lemma new_decision_result_witness :
  trail (set_conflict [toLit 0] Examples.st_assume_false)
  = trail Examples.st_assume_false
  /\ exists p,
       assumptions Examples.st_assume_false
       !! N.to_nat (decisionLevel (set_conflict [toLit 0] Examples.st_assume_false))
       = Some p
       /\ value p (set_conflict [toLit 0] Examples.st_assume_false)
          = Ok (l_False, set_conflict [toLit 0] Examples.st_assume_false)
       /\ exists rest,
            conflict (set_conflict [toLit 0] Examples.st_assume_false) = neg p :: rest.
Proof.
  apply (new_decision_result (C := Examples.quiet) Examples.params0
           Examples.st_assume_false l_False
           (set_conflict [toLit 0] Examples.st_assume_false)).
  - vm_compute. intros H. inversion H as [|? ? ? H']; subst. inversion H'.
  - vm_compute. reflexivity.
Defined.
(** ** handle_conflict, checkNeedRestart, syncFromThreadControl *)

Section ConflictMore.

Context {Ext : Type} {C : Collaborators Ext}.

Local Abbreviation State := (CommandControl Ext).

(** X6. [handle_conflict] returns [false] exactly when it is called at decision
    level 0; in both cases it has counted the conflict in [params]. *)
Theorem handle_conflict_false_iff params confl (st : State) (r : bool) params' st' :
  handle_conflict params confl st = Ok ((r, params'), st') ->
  (r = false <-> decisionLevel st = 0) /\ params' = counted params.
Proof.
  intros H. unfold handle_conflict in H. minv.
  assert (decisionLevel (set_numConflicts (wrap64 (numConflicts st + 1)) st)
          = decisionLevel st) as Hd by done.
  rewrite Hd in H.
  destruct (decide (decisionLevel st = 0)) as [H0|Hn0].
  - minv. done.
  - minvp. split; [|done]. split; [done|]. intros Hl. by apply Hn0 in Hl.
Qed.

(** X7. [syncFromThreadControl] appends to the three inboxes what the shared
    logs hold beyond the cursors and moves the cursors to the ends of the
    logs; run again at once, it changes nothing. *)
Theorem syncFromThreadControl_idempotent (st : State) :
  exists st',
    syncFromThreadControl st = Ok (tt, st')
    /\ longToAdd st' = longToAdd st
                       ++ drop (N.to_nat (lastLong st)) (longLearntsToAdd (control st))
    /\ binToAdd st' = binToAdd st
                      ++ drop (N.to_nat (lastBin st)) (binLearntsToAdd (control st))
    /\ unitToAdd st' = unitToAdd st
                       ++ drop (N.to_nat (lastUnit st)) (unitLearntsToAdd (control st))
    /\ lastLong st' = N.of_nat (length (longLearntsToAdd (control st)))
    /\ lastBin st' = N.of_nat (length (binLearntsToAdd (control st)))
    /\ lastUnit st' = N.of_nat (length (unitLearntsToAdd (control st)))
    /\ syncFromThreadControl st' = Ok (tt, st').
Proof.
  exists (set_lastUnit (N.of_nat (length (unitLearntsToAdd (control st))))
            (set_unitToAdd
               (unitToAdd st
                ++ drop (N.to_nat (lastUnit st)) (unitLearntsToAdd (control st)))
               (set_lastBin (N.of_nat (length (binLearntsToAdd (control st))))
                  (set_binToAdd
                     (binToAdd st
                      ++ drop (N.to_nat (lastBin st)) (binLearntsToAdd (control st)))
                     (set_lastLong (N.of_nat (length (longLearntsToAdd (control st))))
                        (set_longToAdd
                           (longToAdd st
                            ++ drop (N.to_nat (lastLong st))
                                 (longLearntsToAdd (control st))) st)))))).
  split; [reflexivity|].
  do 6 (split; [reflexivity|]).
  destruct st.
  cbv beta iota zeta delta
    [syncFromThreadControl bind modify set_lastUnit set_unitToAdd set_lastBin
     set_binToAdd set_lastLong set_longToAdd ok trail trail_lim qhead assigns
     varData seen toClear watches failBinLit clAllocator clauseData order_heap
     assumptions conflict unitToAdd binToAdd longToAdd lastSumConfl lastLong
     lastBin lastUnit numConflicts numRestarts decisions rnd_decisions
     max_literals tot_literals furtherClMinim numShrinkedClause
     numShrinkedClauseLits needToInterrupt avgBranchDepth glueHistory
     conflSizeHist conf control ext].
  rewrite !Nat2N.id, !drop_all, !app_nil_r. reflexivity.
Qed.

(** X8. [checkNeedRestart] never withdraws a request to stop: it sets
    [needToStopSearch] when the worker is interrupted, when the agility was
    too low too often, or when the conflicts done exceed the conflicts to do,
    and for no other reason; it leaves the other fields of [params] alone and
    changes nothing of the worker but the agility estimator. *)
Theorem checkNeedRestart_result params (st : State) :
  exists params' e,
    checkNeedRestart params st = Ok (params', set_ext e st)
    /\ update params' = update params
    /\ conflictsDoneThisRestart params' = conflictsDoneThisRestart params
    /\ conflictsToDo params' = conflictsToDo params
    /\ (needToStopSearch params' = true <->
          needToStopSearch params = true
          \/ needToInterrupt st = true
          \/ agility_numTooLow_over e = true
          \/ conflictsToDo params < conflictsDoneThisRestart params).
Proof.
  unfold checkNeedRestart. rewrite bind_gets. unfold id.
  assert (forall e : Ext,
    let p1 := if needToInterrupt st then set_needToStopSearch true params else params in
    let p2 := if agility_numTooLow_over e then set_needToStopSearch true p1 else p1 in
    let p3 := if decide (conflictsToDo p2 < conflictsDoneThisRestart p2)
              then set_needToStopSearch true p2 else p2 in
    update p3 = update params
    /\ conflictsDoneThisRestart p3 = conflictsDoneThisRestart params
    /\ conflictsToDo p3 = conflictsToDo params
    /\ (needToStopSearch p3 = true <->
          needToStopSearch params = true
          \/ needToInterrupt st = true
          \/ agility_numTooLow_over e = true
          \/ conflictsToDo params < conflictsDoneThisRestart params)) as Hp.
  { intros e. cbv zeta.
    destruct (needToInterrupt st), (agility_numTooLow_over e); simpl;
      destruct (decide _) as [Hlt|Hge]; simpl; split_and!; try done;
      split; try (by auto);
      try (intros [?|[?|[?|?]]]; done). }
  destruct (agility_below_limit (ext st)).
  - rewrite bind_modify, bind_gets. unfold id.
    eexists _, _. split; [reflexivity|]. apply Hp.
  - rewrite bind_ret, bind_gets. unfold id.
    eexists _, (ext st). split.
    + replace (set_ext (ext st) st) with st by (by destruct st). reflexivity.
    + apply Hp.
Qed.

End ConflictMore.

Lemma handle_conflict_false_iff_witness :
  (true = false <-> decisionLevel Examples.st_conflict = 0)
  /\ counted Examples.params0 = counted Examples.params0.
Proof.
  apply (handle_conflict_false_iff (C := Examples.quiet) Examples.params0 (clause_t 0 0)
           Examples.st_conflict true (counted Examples.params0) Runs.st_handled).
  vm_compute. reflexivity.
Defined.
(** ** The results of [search] *)

Section SearchMore.

Context {Ext : Type} {C : Collaborators Ext}.

Local Abbreviation State := (CommandControl Ext).

Lemma cancelUntil_0_level (st st' : State) :
  cancelUntil 0 st = Ok (tt, st') -> decisionLevel st' = 0.
Proof.
  intros H. destruct (decide (0 < decisionLevel st)) as [Hlt|Hge].
  - pose proof (cancelUntil_lt_length _ _ _ Hlt H). unfold decisionLevel. lia.
  - rewrite cancelUntil_ge in H by done. inversion H; subst. lia.
Qed.

Lemma search_loop_undef fuel : forall params (st st' : State),
  search_loop fuel params st = Ok (l_Undef, st') -> decisionLevel st' = 0.
Proof.
  induction fuel as [|fuel IH]; intros params st st' H; cbn [search_loop] in H;
    [discriminate|].
  minv.
  destruct (negb (isNULL _)).
  - minvp. destruct b; minv.
    match goal with
    | H : (if ?r then _ else _) _ = Ok (l_Undef, _) |- _ => destruct r; minv
    end.
    eauto.
  - minv. destruct (decide (_ \/ _)); minv.
    + match goal with
      | Hc : cancelUntil 0 _ = Ok (?u, _) |- _ => destruct u
      end.
      by eapply cancelUntil_0_level.
    + destruct (decide (_ = l_Undef)); minv; [eauto|done].
Qed.

(** X9. [search] returns [l_Undef], the request for a restart, only after it
    has cancelled every decision: the worker is then at decision level 0. *)
Theorem search_undef_at_level_0 fuel params (st st' : State) :
  search fuel params st = Ok (l_Undef, st') -> decisionLevel st' = 0.
Proof.
  intros H. unfold search in H. minv.
  by eapply search_loop_undef.
Qed.

End SearchMore.

Lemma search_undef_at_level_0_witness :
  decisionLevel Examples.st_cancel = 1 /\ decisionLevel Runs.st_restarted = 0.
Proof.
  split; [reflexivity|].
  apply (search_undef_at_level_0 (C := Examples.quiet) 1 Runs.params_stop
           Examples.st_cancel Runs.st_restarted).
  vm_compute. reflexivity.
Defined.
(** ** Clauses taken from the other threads *)

Section ImportedClauses.

Context {Ext : Type} {C : Collaborators Ext}.

Local Abbreviation State := (CommandControl Ext).

Lemma value_state p (st : State) v st' : value p st = Ok (v, st') -> st' = st.
Proof. intros H. unfold value in H. by minv. Qed.

Lemma read_state {A} (v : State -> list A) i (st : State) a st' :
  read v i st = Ok (a, st') -> st' = st.
Proof. intros H. by minv. Qed.

Ltac same_state :=
  repeat match goal with
  | H : value _ ?s = Ok (_, ?s') |- _ =>
      is_var s'; assert_fails (constr_eq s s');
      pose proof (value_state _ _ _ _ H); subst s'
  | H : read _ _ ?s = Ok (_, ?s') |- _ =>
      is_var s'; assert_fails (constr_eq s s');
      pose proof (read_state _ _ _ _ _ H); subst s'
  | H : assert _ _ ?s = Ok (_, ?s') |- _ =>
      let E := fresh "Hassert" in
      apply assert_Ok_inv in H as [E H]; inversion H; subst; clear H
  | H : bool_decide _ = true |- _ => apply bool_decide_eq_true_1 in H
  end.

(** X10. [handleNewBin] returns [false] only for a clause whose two literals are
    both false and both assigned at level 0 once the clause is attached; it
    then cancels to level 0 and clears [ok]. *)
Theorem handleNewBin_false (binCl : BinaryClause) (st st' : State) :
  handleNewBin binCl st = Ok (false, st') ->
  exists st1 st2 d1 d2,
    attachBinClause (getLit1 binCl) (getLit2 binCl) (getLearnt binCl) false st
      = Ok (tt, st1)
    /\ value (getLit1 binCl) st1 = Ok (l_False, st1)
    /\ value (getLit2 binCl) st1 = Ok (l_False, st1)
    /\ varData st1 !! N.to_nat (var (getLit1 binCl)) = Some d1
    /\ varData st1 !! N.to_nat (var (getLit2 binCl)) = Some d2
    /\ level d1 = 0 /\ level d2 = 0
    /\ cancelUntil 0 st1 = Ok (tt, st2)
    /\ st' = set_ok false st2 /\ decisionLevel st' = 0.
Proof.
  intros H. unfold handleNewBin in H. cbv zeta in H.
  apply bind_Ok_inv in H as ([] & st1 & Hatt & H).
  apply bind_Ok_inv in H as (va & s & Hva & H). same_state.
  apply bind_Ok_inv in H as (vb0 & s & Hvb0 & H).
  destruct (decide (va = l_True)) as [->|Hna].
  { minv. rewrite decide_True in H by auto. minv. }
  same_state.
  destruct (decide (_ \/ _)) as [|Hnt]; [minv|].
  apply bind_Ok_inv in H as (vb & s & Hvb & H). same_state.
  assert (vb = vb0) as -> by congruence.
  destruct (decide (vb0 = l_Undef)) as [->|Hnu].
  - (* the literals are swapped *)
    apply bind_Ok_inv in H as (v1 & s & Hv1 & H). same_state.
    assert (v1 = va) as -> by congruence.
    destruct (decide (va = l_Undef)); [minv|].
    apply bind_Ok_inv in H as (v0 & s & Hv0 & H). same_state.
    assert (v0 = l_Undef) as -> by congruence.
    rewrite decide_True in H by done. minv.
  - apply bind_Ok_inv in H as (v1 & s & Hv1 & H). same_state.
    assert (v1 = vb0) as -> by congruence.
    rewrite decide_False in H by done.
    apply bind_Ok_inv in H as (v0 & s & Hv0 & H). same_state.
    assert (v0 = va) as -> by congruence.
    destruct (decide (va = l_Undef)); [minv|].
    apply bind_Ok_inv in H as (v0' & s & Hv0' & H). same_state.
    apply bind_Ok_inv in H as ([] & s & Ha0 & H). same_state.
    apply bind_Ok_inv in H as (v1' & s & Hv1' & H). same_state.
    apply bind_Ok_inv in H as ([] & s & Ha1 & H). same_state.
    apply bind_Ok_inv in H as (d0 & s & Hd0 & H).
    pose proof (read_state _ _ _ _ _ Hd0); subst s.
    apply bind_Ok_inv in H as (d1 & s & Hd1 & H).
    pose proof (read_state _ _ _ _ _ Hd1); subst s.
    apply read_Ok_inv in Hd0 as (d0' & Hd0 & [= ->]).
    apply read_Ok_inv in Hd1 as (d1' & Hd1 & [= ->]).
    assert (va = l_False) as -> by congruence.
    assert (vb0 = l_False) as -> by congruence.
    destruct (decide (level d0' < level d1')) as [Hlt|Hge].
    + apply bind_Ok_inv in H as (dh & s & Hdh & H).
      apply read_Ok_inv in Hdh as (dh' & Hdh & [= -> ->]).
      assert (dh' = d1') as -> by congruence.
      destruct (decide (level d1' = 0)); [lia|].
      minv. same_state.
      destruct (decide (_ = l_False)); minv.
    + apply bind_Ok_inv in H as (dh & s & Hdh & H).
      apply read_Ok_inv in Hdh as (dh' & Hdh & [= -> ->]).
      assert (dh' = d0') as -> by congruence.
      destruct (decide (level d0' = 0)) as [H0|].
      * apply bind_Ok_inv in H as ([] & st2 & Hc & H). minv.
        exists st1, st2, d0', d1'. split_and!; try done; [lia|].
        by apply cancelUntil_0_level in Hc.
      * minv. same_state.
        destruct (decide (_ = l_False)); minv.
Qed.

Lemma attach_keys_state ls : forall (st : State) keys st',
  attach_keys ls st = Ok (keys, st') -> st' = st.
Proof.
  induction ls as [|l ls IH]; intros st keys st' H; simpl in H; minv; [done|].
  eauto.
Qed.

Lemma handleNewLong_allFalse_spec cl ixs : forall (st : State) u st',
  handleNewLong_allFalse cl ixs st = Ok (u, st') ->
  st' = st
  /\ forall i, i ∈ ixs ->
       exists l, cl !! N.to_nat i = Some l /\ value l st = Ok (l_False, st).
Proof.
  induction ixs as [|i ixs IH]; intros st u st' H; simpl in H.
  - minv. split; [done|]. intros i Hi. by apply elem_of_nil in Hi.
  - apply bind_Ok_inv in H as (l & s & Hl & H).
    apply lift_Ok_inv in Hl as (l' & Hl & [= -> ->]). apply vget_Ok in Hl.
    apply bind_Ok_inv in H as (v & s & Hv & H). same_state.
    apply bind_Ok_inv in H as ([] & s & Ha & H). same_state.
    apply IH in H as [-> Hall]. split; [done|].
    intros j [->|Hj]%elem_of_cons; [|by apply Hall].
    exists l'. split; [done|]. congruence.
Qed.

(** X11. [handleNewLong] returns [false] only for a clause all of whose literals
    are false once it is attached, the one that the sorter puts first being
    assigned at level 0; it then clears [ok] and, unlike [handleNewBin],
    cancels nothing. *)
Theorem handleNewLong_false (offset : ClauseOffset) (st st' : State) :
  handleNewLong offset st = Ok (false, st') ->
  exists c keys i0 i1 l0 d0 st1,
    clAllocator st !! offset = Some c
    /\ attach_keys (lits c) st = Ok (keys, st)
    /\ std_sort N (attach_cmp keys) (N.of_nat <$> seq 0 (length (lits c))) !! 0%nat
       = Some i0
    /\ std_sort N (attach_cmp keys) (N.of_nat <$> seq 0 (length (lits c))) !! 1%nat
       = Some i1
    /\ attachClause offset (Some (i0, i1, false)) st = Ok (tt, st1)
    /\ (forall i,
          i ∈ std_sort N (attach_cmp keys) (N.of_nat <$> seq 0 (length (lits c))) ->
          exists l, lits c !! N.to_nat i = Some l /\ value l st1 = Ok (l_False, st1))
    /\ lits c !! N.to_nat i0 = Some l0
    /\ varData st1 !! N.to_nat (var l0) = Some d0
    /\ level d0 = 0
    /\ st' = set_ok false st1.
Proof.
  intros H. unfold handleNewLong in H. cbv zeta in H.
  apply bind_Ok_inv in H as (c & s & Hc & H).
  assert (clAllocator st !! offset = Some c /\ s = st) as [Hcl ->].
  { unfold getPointer in Hc. rewrite bind_gets in Hc. unfold id in Hc.
    destruct (clAllocator st !! offset); minv. done. }
  destruct (decide (65536 <= N.of_nat (length (lits c)))) as [|_]; [done|].
  apply bind_Ok_inv in H as (keys & s & Hkeys & H).
  pose proof (attach_keys_state _ _ _ _ Hkeys); subst s.
  remember (std_sort N (attach_cmp keys) (N.of_nat <$> seq 0 (length (lits c))))
    as ixs eqn:Eixs.
  apply bind_Ok_inv in H as (i0 & s & Hi0 & H).
  apply lift_Ok_inv in Hi0 as (i0' & Hi0 & [= -> ->]). apply vget_Ok in Hi0.
  apply bind_Ok_inv in H as (i1 & s & Hi1 & H).
  apply lift_Ok_inv in Hi1 as (i1' & Hi1 & [= -> ->]). apply vget_Ok in Hi1.
  apply bind_Ok_inv in H as ([] & st1 & Hatt & H).
  apply bind_Ok_inv in H as (l0 & s & Hl0 & H).
  apply lift_Ok_inv in Hl0 as (l0' & Hl0 & [= -> ->]). apply vget_Ok in Hl0.
  apply bind_Ok_inv in H as (l1 & s & Hl1 & H).
  apply lift_Ok_inv in Hl1 as (l1' & Hl1 & [= -> ->]). apply vget_Ok in Hl1.
  apply bind_Ok_inv in H as (v0 & s & Hv0 & H). same_state.
  apply bind_Ok_inv in H as (v1 & s & Hv1 & H). same_state.
  destruct (decide (_ \/ _)) as [|Hn]; [minv|].
  apply bind_Ok_inv in H as ([] & s & Hall & H).
  apply handleNewLong_allFalse_spec in Hall as [-> Hall].
  destruct (decide (v0 = l_Undef)) as [|Hnu]; [minv|].
  apply bind_Ok_inv in H as (d0 & s & Hd0 & H).
  apply read_Ok_inv in Hd0 as (d0' & Hd0 & [= -> ->]).
  destruct (decide (level d0' = 0)) as [H0|Hn0].
  - assert (st' = set_ok false st1) as -> by (by minv). clear H.
    exists c, keys, i0', i1', l0', d0', st1.
    rewrite <- Eixs. split_and!; try done.
    intros i Hi. clear Eixs.
    destruct ixs as [|j ixs']; [by apply elem_of_nil in Hi|].
    simpl in Hi0. injection Hi0 as ->.
    apply elem_of_cons in Hi as [->|Hi].
    + exists l0'. split; [done|].
      destruct v0; try done. exfalso. apply Hn. by right.
    + apply Hall. simpl. by rewrite drop_0.
  - apply bind_Ok_inv in H as ([] & s & Ha & H). same_state.
    apply bind_Ok_inv in H as ([] & s & Hcu & H).
    apply bind_Ok_inv in H as (w0 & s' & Hw0 & H). same_state.
    apply bind_Ok_inv in H as ([] & s' & Ha' & H). same_state.
    apply bind_Ok_inv in H as (w1 & s' & Hw1 & H). same_state.
    destruct (decide (w1 = l_False)); minv.
Qed.

End ImportedClauses.

Lemma handleNewBin_false_witness :
  exists st1 st2 d1 d2,
    attachBinClause (Collaborators := Examples.quiet) (toLit 1) (toLit 3) true false Runs.st_facts
      = Ok (tt, st1)
    /\ value (toLit 1) st1 = Ok (l_False, st1)
    /\ value (toLit 3) st1 = Ok (l_False, st1)
    /\ varData st1 !! N.to_nat (var (toLit 1)) = Some d1
    /\ varData st1 !! N.to_nat (var (toLit 3)) = Some d2
    /\ level d1 = 0 /\ level d2 = 0
    /\ cancelUntil 0 st1 = Ok (tt, st2)
    /\ set_ok false Runs.st_facts = set_ok false st2
    /\ decisionLevel (set_ok false Runs.st_facts) = 0.
Proof.
  apply (handleNewBin_false (C := Examples.quiet) (mkBinaryClause (toLit 1) (toLit 3) true)
           Runs.st_facts (set_ok false Runs.st_facts)).
  vm_compute. reflexivity.
Defined.

Lemma handleNewLong_false_witness :
  exists c keys i0 i1 l0 d0 st1,
    clAllocator Runs.st_long_false !! 0 = Some c
    /\ attach_keys (lits c) Runs.st_long_false = Ok (keys, Runs.st_long_false)
    /\ std_sort (Collaborators := Examples.quiet) N (attach_cmp keys)
         (N.of_nat <$> seq 0 (length (lits c))) !! 0%nat = Some i0
    /\ std_sort (Collaborators := Examples.quiet) N (attach_cmp keys)
         (N.of_nat <$> seq 0 (length (lits c))) !! 1%nat = Some i1
    /\ attachClause (Collaborators := Examples.quiet) 0 (Some (i0, i1, false))
         Runs.st_long_false = Ok (tt, st1)
    /\ (forall i,
          i ∈ std_sort (Collaborators := Examples.quiet) N (attach_cmp keys)
                (N.of_nat <$> seq 0 (length (lits c))) ->
          exists l, lits c !! N.to_nat i = Some l /\ value l st1 = Ok (l_False, st1))
    /\ lits c !! N.to_nat i0 = Some l0
    /\ varData st1 !! N.to_nat (var l0) = Some d0
    /\ level d0 = 0
    /\ set_ok false Runs.st_long_false = set_ok false st1.
Proof.
  apply (handleNewLong_false (C := Examples.quiet) 0 Runs.st_long_false
           (set_ok false Runs.st_long_false)).
  vm_compute. reflexivity.
Defined.
(** ** The order in which [handleNewLong] sorts the literals *)

Ltac sorter_cases :=
  unfold MyAttachSorter, MyAttachSorter_asserting;
  repeat match goal with
  | v : lbool |- _ => destruct v
  | k : (lbool * N)%type |- _ => destruct k
  end;
  repeat (case_bool_decide; simplify_eq; try done; try lia;
          try (exfalso; intuition congruence)).

(** X12. The assertion [val1 == val2] of [MyAttachSorter] never fails, and the
    comparator is a strict weak order, as [std::sort] requires of it: it is
    irreflexive and transitive, and being unordered by it is transitive. *)
Theorem MyAttachSorter_strict_weak_order :
  (forall a b, MyAttachSorter_asserting a b = Ok (MyAttachSorter a b))
  /\ (forall a, MyAttachSorter a a = false)
  /\ (forall a b c, MyAttachSorter a b = true -> MyAttachSorter b c = true ->
        MyAttachSorter a c = true)
  /\ (forall a b c,
        MyAttachSorter a b = false -> MyAttachSorter b a = false ->
        MyAttachSorter b c = false -> MyAttachSorter c b = false ->
        MyAttachSorter a c = false /\ MyAttachSorter c a = false).
Proof.
  split_and!.
  - intros a b. sorter_cases.
  - intros a. sorter_cases.
  - intros a b c. sorter_cases.
  - intros a b c. sorter_cases.
Qed.
(** ** minimiseLearntFurther cleans up after itself *)

Section MinimiseMore.

Context {Ext : Type} {C : Collaborators Ext}.

Local Abbreviation State := (CommandControl Ext).

Lemma set_seen_id (st : State) : set_seen (seen st) st = st.
Proof. by destruct st. Qed.

Lemma set_seen_set_seen s1 s2 (st : State) : set_seen s2 (set_seen s1 st) = set_seen s2 st.
Proof. by destruct st. Qed.

Lemma seen_step_refl T (st : State) : seen_step T st st.
Proof. exists (seen st). rewrite set_seen_id. split_and!; [done|done|by left]. Qed.

Lemma seen_step_trans T (st1 st2 st3 : State) :
  seen_step T st1 st2 -> seen_step T st2 st3 -> seen_step T st1 st3.
Proof.
  intros (s1 & -> & Hl1 & H1) (s2 & -> & Hl2 & H2). exists s2.
  rewrite set_seen_set_seen. cbn [seen set_seen] in *.
  split_and!; [done|congruence|].
  intros k Hk. destruct (H2 _ Hk) as [Hk'|HT]; [by apply H1|by right].
Qed.

Lemma seen_step_mono (T T' : nat -> Prop) (st st' : State) :
  (forall k, T k -> T' k) -> seen_step T st st' -> seen_step T' st st'.
Proof.
  intros HT (s & -> & Hl & H). exists s. split_and!; [done|done|].
  intros k Hk. destruct (H _ Hk) as [|?]; [by left|right; by apply HT].
Qed.

Lemma set_seen_at_step i b (st : State) u st' :
  set_seen_at i b st = Ok (u, st') ->
  seen_step (fun k => b = true /\ k = N.to_nat i) st st'.
Proof.
  intros [Hlt [= -> ->]]%set_seen_at_Ok_inv.
  eexists. split_and!; [done|by rewrite length_insert|].
  intros k Hk. destruct (decide (k = N.to_nat i)) as [->|Hne].
  - rewrite list_lookup_insert_eq in Hk by done. right. split; congruence.
  - rewrite list_lookup_insert_ne in Hk by done. by left.
Qed.

Lemma set_seen_at_false_step T i (st : State) u st' :
  set_seen_at i false st = Ok (u, st') -> seen_step T st st'.
Proof.
  intros H%set_seen_at_step. eapply seen_step_mono; [|done].
  by intros k [? _].
Qed.

Lemma minim_cache_step T cache : forall (st : State) u st',
  minim_cache cache st = Ok (u, st') -> seen_step T st st'.
Proof.
  induction cache as [|q cache IH]; intros st u st' H; simpl in H; minv.
  - apply seen_step_refl.
  - eapply seen_step_trans; [by eapply set_seen_at_false_step|by eapply IH].
Qed.

Lemma minim_watch_step T w (st : State) u st' :
  minim_watch w st = Ok (u, st') -> seen_step T st st'.
Proof.
  intros H. destruct w as [o l|o o2|o b]; simpl in H.
  - by eapply set_seen_at_false_step.
  - minv.
    match goal with
    | H1 : (if ?a then _ else _) _ = Ok _, H2 : (if ?b then _ else _) _ = Ok _ |- _ =>
        destruct a, b; minv
    end;
      repeat match goal with
      | Hs : set_seen_at _ false _ = Ok _ |- _ =>
          apply (set_seen_at_false_step T) in Hs
      end;
      eauto using seen_step_refl, seen_step_trans.
  - minv. apply seen_step_refl.
Qed.

Lemma minim_watches_step T ws : forall (st : State) u st',
  minim_watches ws st = Ok (u, st') -> seen_step T st st'.
Proof.
  induction ws as [|w ws IH]; intros st u st' H; simpl in H; minv.
  - apply seen_step_refl.
  - eapply seen_step_trans; [by eapply minim_watch_step|by eapply IH].
Qed.

Lemma minim_loop_step T ls : forall (st : State) u st',
  minim_loop ls st = Ok (u, st') -> seen_step T st st'.
Proof.
  induction ls as [|l ls IH]; intros st u st' H; simpl in H; minv.
  - apply seen_step_refl.
  - match goal with
    | H1 : (if ?a then _ else _) _ = Ok _ |- _ => destruct a; minv
    end.
    + eapply seen_step_trans; [by eapply minim_cache_step|].
      eapply seen_step_trans; [by eapply minim_watches_step|by eapply IH].
    + by eapply IH.
Qed.

Lemma minim_mark_step ls : forall (st : State) u st',
  minim_mark ls st = Ok (u, st') -> seen_step (positions ls) st st'.
Proof.
  induction ls as [|l ls IH]; intros st u st' H; simpl in H; minv.
  - apply seen_step_refl.
  - eapply seen_step_trans.
    + eapply seen_step_mono; [|by eapply set_seen_at_step].
      intros k [_ ->]. exists l. split; [apply elem_of_cons; by left|done].
    + eapply seen_step_mono; [|by eapply IH].
      intros k (l' & Hl' & <-). exists l'. split; [apply elem_of_cons; by right|done].
Qed.

Lemma minim_select_step cl (st : State) u st' :
  minim_select cl st = Ok (u, st') -> seen_step (positions cl) st st'.
Proof.
  intros H. unfold minim_select in H. minv.
  eapply seen_step_trans; [by eapply minim_mark_step|].
  eapply seen_step_trans; [by eapply minim_loop_step|].
  eapply seen_step_mono; [|by eapply set_seen_at_step].
  intros k [_ ->].
  match goal with Hl : cl !! _ = Some ?x |- _ => exists x end.
  split; [by eapply list_elem_of_lookup_2|done].
Qed.

(** The compaction clears the bit of every literal that it reads. *)
Lemma minim_compact_seen rest : forall i j cl r (st : State) res st',
  minim_compact (length rest) i j cl r st = Ok (res, st') ->
  drop (N.to_nat i) cl = rest ->
  (N.to_nat j <= N.to_nat i)%nat ->
  exists s, st' = set_seen s st /\ length s = length (seen st)
            /\ forall k, s !! k = Some true ->
                 seen st !! k = Some true /\ ~ positions rest k.
Proof.
  induction rest as [|l rest IH]; intros i j cl r st res st' H Hd Hj.
  - simpl in H. minv. exists (seen st). rewrite set_seen_id.
    split_and!; [done|done|]. intros k Hk. split; [done|].
    intros (l & Hl & _). by apply elem_of_nil in Hl.
  - cbn [length minim_compact] in H.
    apply bind_Ok_inv in H as (l1 & s1 & Hl1 & H).
    apply lift_Ok_inv in Hl1 as (l1' & Hl1 & [= -> ->]). apply vget_Ok in Hl1.
    assert (l1' = l) as ->.
    { rewrite <- (Nat.add_0_r (N.to_nat i)), <- lookup_drop, Hd in Hl1.
      simpl in Hl1. congruence. }
    assert (drop (N.to_nat (i + 1)) cl = rest) as Hd'.
    { replace (N.to_nat (i + 1)) with (S (N.to_nat i)) by lia.
      rewrite (drop_S _ _ _ Hl1) in Hd. congruence. }
    apply bind_Ok_inv in H as (b & s1 & Hb & H).
    apply read_Ok_inv in Hb as (b' & Hb & [= -> ->]).
    apply bind_Ok_inv in H as ([[cl1 j1] r1] & s1 & Hsel & H).
    assert (s1 = st /\ cl1 !! N.to_nat i = Some l
            /\ drop (N.to_nat (i + 1)) cl1 = rest
            /\ (N.to_nat j1 <= N.to_nat (i + 1))%nat) as (-> & Hi1 & Hd1 & Hj1).
    { destruct b'; minv.
      - split_and!; [done| | |lia].
        + destruct (decide (N.to_nat j = N.to_nat i)) as [E|NE].
          * rewrite E. apply list_lookup_insert_eq. by eapply lookup_lt_Some.
          * by rewrite list_lookup_insert_ne.
        + rewrite drop_insert_lt by lia. done.
      - split_and!; [done|done|done|lia]. }
    cbn beta iota in H.
    apply bind_Ok_inv in H as (l2 & s1 & Hl2 & H).
    apply lift_Ok_inv in Hl2 as (l2' & Hl2 & [= -> ->]). apply vget_Ok in Hl2.
    assert (l2' = l) as -> by congruence.
    apply bind_Ok_inv in H as ([] & s1 & Hclr & H).
    apply set_seen_at_Ok_inv in Hclr as [Hlt [= ->]].
    eapply IH in H as (s & -> & Hlen & Hs); [|done|done].
    exists s. rewrite set_seen_set_seen. cbn [seen set_seen] in *.
    rewrite length_insert in Hlen. split_and!; [done|done|].
    intros k Hk. destruct (Hs _ Hk) as [Hk' Hnot].
    destruct (decide (k = N.to_nat (toInt l))) as [->|Hne].
    + rewrite list_lookup_insert_eq in Hk' by done. discriminate.
    + rewrite list_lookup_insert_ne in Hk' by done. split; [done|].
      intros (l' & Hl' & <-). apply elem_of_cons in Hl' as [->|Hl'].
      * by apply Hne.
      * apply Hnot. by exists l'.
Qed.

(** X13. When [seen] is all zero on entry, [minimiseLearntFurther] leaves it all
    zero, and the worker as it found it but for the three counters
    [furtherClMinim], [numShrinkedClause] and [numShrinkedClauseLits]. *)
Theorem minimiseLearntFurther_restores_seen (cl : list Lit) (glue : N)
    (st : State) (cl' : list Lit) (st' : State) :
  Forall (fun b => b = false) (seen st) ->
  minimiseLearntFurther cl glue st = Ok (cl', st') ->
  seen st' = seen st
  /\ exists shrinked shrinkedLits,
       st' = set_numShrinkedClauseLits shrinkedLits
               (set_numShrinkedClause shrinked
                  (set_furtherClMinim (wrap64 (furtherClMinim st + 1)) st)).
Proof.
  intros Hz H. unfold minimiseLearntFurther in H.
  apply bind_Ok_inv in H as (st0 & s & Hg & H). apply gets_Ok_inv in Hg as [= -> ->].
  apply bind_Ok_inv in H as ([] & s & Ha & H).
  apply assert_Ok_inv in Ha as [_ [= ->]].
  rewrite bind_modify in H.
  apply bind_Ok_inv in H as ([] & st1 & Hsel & H).
  apply bind_Ok_inv in H as ([[cl2 j] removed] & st2 & Hcomp & H).
  cbn beta iota in H. rewrite !bind_modify in H. apply ret_Ok_inv in H as [= -> ->].
  apply minim_select_step in Hsel as (s1 & -> & Hl1 & Hs1).
  eapply (minim_compact_seen cl) in Hcomp as (s2 & -> & Hl2 & Hs2); [|done|done].
  rewrite set_seen_set_seen. cbn [seen set_seen set_furtherClMinim] in *.
  assert (s2 = seen st) as ->.
  { apply list_eq. intros k.
    destruct (decide (k < length (seen st))%nat) as [Hlt|Hge].
    - destruct (lookup_lt_is_Some_2 s2 k) as [b2 Hb2]; [lia|].
      destruct (lookup_lt_is_Some_2 (seen st) k) as [b Hb]; [lia|].
      rewrite Hb2, Hb. f_equal.
      assert (b = false) as ->.
      { by apply (proj1 (Forall_lookup _ _) Hz k). }
      destruct b2; [|done].
      destruct (Hs2 _ Hb2) as [Hk Hnot].
      destruct (Hs1 _ Hk) as [Hk'|Hpos]; [congruence|done].
    - rewrite !lookup_ge_None_2 by lia. done. }
  split; [done|].
  eexists _, _. destruct st. reflexivity.
Qed.

End MinimiseMore.

Lemma minimiseLearntFurther_restores_seen_witness :
  seen (set_furtherClMinim 1
          (set_numShrinkedClause 1 (set_numShrinkedClauseLits 1 Examples.st_minim)))
  = seen Examples.st_minim
  /\ exists shrinked shrinkedLits,
       set_furtherClMinim 1
         (set_numShrinkedClause 1 (set_numShrinkedClauseLits 1 Examples.st_minim))
       = set_numShrinkedClauseLits shrinkedLits
           (set_numShrinkedClause shrinked
              (set_furtherClMinim (wrap64 (furtherClMinim Examples.st_minim + 1))
                 Examples.st_minim)).
Proof.
  apply (minimiseLearntFurther_restores_seen
           [toLit 0; toLit 2; toLit 4] 3 Examples.st_minim [toLit 0; toLit 4]).
  - vm_compute. repeat constructor.
  - vm_compute. reflexivity.
Defined.
(** ** The levels of the learnt clause *)

Section AnalyzeLevels.

Context {Ext : Type} {C : Collaborators Ext}.

Local Abbreviation State := (CommandControl Ext).

Lemma assignment_inv (st st' : State) :
  assignment st' = assignment st ->
  varData st' = varData st /\ decisionLevel st' = decisionLevel st
  /\ trail st' = trail st.
Proof. unfold assignment, decisionLevel. intros [= -> -> _ -> _]. done. Qed.

Lemma extended_refl (st : State) out : extended st out out.
Proof. exists []. by rewrite app_nil_r. Qed.

Lemma extended_trans (st st1 : State) out out1 out2 :
  assignment st1 = assignment st ->
  extended st out out1 -> extended st1 out1 out2 -> extended st out out2.
Proof.
  intros (Hvd & Hdl & _)%assignment_inv (e1 & -> & H1) (e2 & -> & H2).
  exists (e1 ++ e2). rewrite app_assoc. split; [done|].
  rewrite Hvd, Hdl in H2. by apply Forall_app.
Qed.

Lemma analyze_take_ext q pathC out (st : State) pc out' st' :
  analyze_take q pathC out st = Ok ((pc, out'), st') ->
  (exists d, varData st !! N.to_nat (var q) = Some d /\ 0 < level d) ->
  assignment st' = assignment st /\ extended st out out'.
Proof.
  intros H (d & Hd & Hpos).
  pose proof (analyze_take_keeps assignment) as Hk.
  apply Hk in H as Hfr; [|done..]. split; [done|].
  unfold analyze_take in H. rewrite bind_modify in H.
  apply bind_Ok_inv in H as ([] & s1 & Hs & H).
  apply set_seen_at_Ok_inv in Hs as [_ [= ->]].
  apply bind_Ok_inv in H as (d' & s1 & Hd' & H).
  apply read_Ok_inv in Hd' as (d'' & Hd' & [= -> ->]).
  cbn [varData set_seen set_ext] in Hd'. assert (d'' = d) as -> by congruence.
  rewrite bind_gets in H. unfold id in H.
  destruct (decide _) as [E|NE]; apply ret_Ok_inv in H as [= -> -> ->].
  - apply extended_refl.
  - exists [q]. split; [done|]. apply Forall_singleton.
    exists d. split_and!; [done|done|]. intros E. apply NE. by rewrite E.
Qed.

Lemma analyze_lit_level_first_ext q pathC out (st : State) pc out' st' :
  analyze_lit_level_first q pathC out st = Ok ((pc, out'), st') ->
  assignment st' = assignment st /\ extended st out out'.
Proof.
  intros H. unfold analyze_lit_level_first in H.
  apply bind_Ok_inv in H as (d & s1 & Hd & H).
  apply read_Ok_inv in Hd as (d' & Hd & [= -> ->]).
  destruct (decide (0 < level d')) as [Hpos|].
  - apply bind_Ok_inv in H as (b & s1 & Hb & H).
    apply read_Ok_inv in Hb as (b' & Hb & [= -> ->]).
    destruct b'.
    + apply ret_Ok_inv in H as [= -> -> ->]. split; [done|apply extended_refl].
    + eapply analyze_take_ext; eauto.
  - apply ret_Ok_inv in H as [= -> -> ->]. split; [done|apply extended_refl].
Qed.

Lemma analyze_lit_seen_first_ext q pathC out (st : State) pc out' st' :
  analyze_lit_seen_first q pathC out st = Ok ((pc, out'), st') ->
  assignment st' = assignment st /\ extended st out out'.
Proof.
  intros H. unfold analyze_lit_seen_first in H.
  apply bind_Ok_inv in H as (b & s1 & Hb & H).
  apply read_Ok_inv in Hb as (b' & Hb & [= -> ->]).
  destruct b'.
  - apply ret_Ok_inv in H as [= -> -> ->]. split; [done|apply extended_refl].
  - apply bind_Ok_inv in H as (d & s1 & Hd & H).
    apply read_Ok_inv in Hd as (d' & Hd & [= -> ->]).
    destruct (decide (0 < level d')) as [Hpos|].
    + eapply analyze_take_ext; eauto.
    + apply ret_Ok_inv in H as [= -> -> ->]. split; [done|apply extended_refl].
Qed.

Lemma analyze_binary_ext other p pathC out (st : State) pc out' st' :
  analyze_binary other p pathC out st = Ok ((pc, out'), st') ->
  assignment st' = assignment st /\ extended st out out'.
Proof.
  intros H. unfold analyze_binary in H.
  apply bind_Ok_inv in H as ([pc1 out1] & s1 & H1 & H).
  apply analyze_lit_seen_first_ext in H as [Hfr2 He2].
  destruct (decide (p = lit_Undef)).
  - rewrite bind_gets in H1. apply analyze_lit_level_first_ext in H1 as [Hfr1 He1].
    split; [congruence|]. by eapply extended_trans.
  - apply ret_Ok_inv in H1 as [= -> -> ->]. done.
Qed.

Lemma analyze_clause_ext num watchNum p rest : forall j pathC out (st : State) pc out' st',
  analyze_clause num watchNum p j rest pathC out st = Ok ((pc, out'), st') ->
  assignment st' = assignment st /\ extended st out out'.
Proof.
  induction rest as [|q rest IH]; intros j pathC out st pc out' st' H; simpl in H.
  - apply ret_Ok_inv in H as [= -> -> ->]. split; [done|apply extended_refl].
  - apply bind_Ok_inv in H as (skip & s1 & Hskip & H).
    assert (s1 = st) as ->.
    { destruct (decide (p = lit_Undef)); by minv. }
    destruct skip; [by eapply IH|].
    apply bind_Ok_inv in H as (d & s1 & Hd & H).
    apply read_Ok_inv in Hd as (d' & Hd & [= -> ->]).
    rewrite bind_gets in H.
    apply bind_Ok_inv in H as ([] & s1 & Ha & H).
    apply assert_Ok_inv in Ha as [_ [= ->]].
    apply bind_Ok_inv in H as ([pc1 out1] & s1 & H1 & H).
    apply analyze_lit_seen_first_ext in H1 as [Hfr1 He1].
    apply IH in H as [Hfr2 He2].
    split; [congruence|]. by eapply extended_trans.
Qed.

Lemma analyze_reason_ext confl p pathC out (st : State) pc out' st' :
  analyze_reason confl p pathC out st = Ok ((pc, out'), st') ->
  assignment st' = assignment st /\ extended st out out'.
Proof.
  intros H. destruct confl as [|other|other other2|offset watchNum]; simpl in H.
  - by minv.
  - by eapply analyze_binary_ext.
  - apply bind_Ok_inv in H as ([pc1 out1] & s1 & H1 & H).
    apply analyze_lit_level_first_ext in H1 as [Hfr1 He1].
    apply analyze_binary_ext in H as [Hfr2 He2].
    split; [congruence|]. by eapply extended_trans.
  - apply bind_Ok_inv in H as (cl & s1 & Hcl & H).
    assert (s1 = st) as ->.
    { unfold getPointer in Hcl. rewrite bind_gets in Hcl. unfold id in Hcl.
      destruct (clAllocator st !! offset); by minv. }
    by eapply analyze_clause_ext.
Qed.

Lemma analyze_next_state n : forall (st : State) n' st',
  analyze_next n st = Ok (n', st') -> st' = st.
Proof.
  induction n as [|n IH]; intros st n' st' H; simpl in H; [by minv|].
  apply bind_Ok_inv in H as (l & s1 & Hl & H).
  apply read_Ok_inv in Hl as (l' & Hl & [= -> ->]).
  apply bind_Ok_inv in H as (b & s1 & Hb & H).
  apply read_Ok_inv in Hb as (b' & Hb & [= -> ->]).
  destruct b'; [by minv|by eapply IH].
Qed.

Lemma analyze_loop_ext fuel : forall confl p n pathC out (st : State) p' pc out' st',
  analyze_loop fuel confl p n pathC out st = Ok ((p', pc, out'), st') ->
  assignment st' = assignment st /\ extended st out out' /\ p' ∈ trail st.
Proof.
  induction fuel as [|fuel IH]; intros confl p n pathC out st p' pc out' st' H;
    cbn [analyze_loop] in H; [by minv|].
  apply bind_Ok_inv in H as ([pc1 out1] & s1 & H1 & H).
  apply analyze_reason_ext in H1 as [Hfr1 He1].
  apply bind_Ok_inv in H as (n' & s2 & Hn & H).
  apply analyze_next_state in Hn as ->.
  apply bind_Ok_inv in H as (q & s2 & Hq & H).
  apply read_Ok_inv in Hq as (q' & Hq & [= -> ->]).
  apply bind_Ok_inv in H as (d & s2 & Hd & H).
  apply read_Ok_inv in Hd as (d' & Hd & [= -> ->]).
  apply bind_Ok_inv in H as ([] & s2 & Hs & H).
  apply set_seen_at_Ok_inv in Hs as [_ [= ->]].
  pose proof (assignment_inv _ _ Hfr1) as (Hvd & Hdl & Htr).
  destruct (decide _).
  - apply IH in H as (Hfr2 & He2 & Hp).
    split; [by rewrite Hfr2|]. split.
    + eapply extended_trans; [exact Hfr1|done|].
      destruct He2 as (e & -> & He). by exists e.
    + cbn [trail set_seen] in Hp. by rewrite <- Htr.
  - apply ret_Ok_inv in H as [= -> -> -> ->].
    split; [done|]. split; [done|].
    rewrite <- Htr. by eapply list_elem_of_lookup_2.
Qed.

Lemma analyze_uip_ext confl out (st : State) out2 st' :
  analyze_uip confl out st = Ok (out2, st') ->
  assignment st' = assignment st
  /\ 0 < decisionLevel st
  /\ exists p extra,
       out2 = neg p :: extra /\ p ∈ trail st
       /\ Forall (other_level (varData st) (decisionLevel st)) extra.
Proof.
  intros H. unfold analyze_uip in H.
  apply bind_Ok_inv in H as ([] & s1 & Ha & H).
  apply assert_Ok_inv in Ha as [He [= ->]]. apply bool_decide_eq_true_1 in He as ->.
  rewrite bind_gets in H. unfold id in H.
  apply bind_Ok_inv in H as ([] & s1 & Ha & H).
  apply assert_Ok_inv in Ha as [Hdl [= ->]]. apply bool_decide_eq_true_1 in Hdl.
  apply bind_Ok_inv in H as ([[p pc] out1] & s1 & Hloop & H).
  apply analyze_loop_ext in Hloop as (Hfr & (extra & -> & Hex) & Hp).
  cbn beta iota in H.
  apply bind_Ok_inv in H as (o2 & s2 & Hset & H).
  apply lift_Ok_inv in Hset as (o2' & Hset & [= -> ->]).
  apply vset_Ok in Hset as [_ ->].
  apply bind_Ok_inv in H as ([] & s2 & Ha & H).
  apply assert_Ok_inv in Ha as [_ [= ->]].
  apply ret_Ok_inv in H as [= -> ->].
  split; [done|]. split; [done|]. by exists p, extra.
Qed.

Lemma analyze_before_ext confl out (st : State) out2 g st' :
  analyze_before confl out st = Ok ((out2, g), st') ->
  assignment st' = assignment st
  /\ 0 < decisionLevel st
  /\ exists p extra,
       out2 = neg p :: extra /\ p ∈ trail st
       /\ Forall (other_level (varData st) (decisionLevel st)) extra.
Proof.
  intros H.
  pose proof (analyze_before_keeps assignment) as Hk.
  apply Hk in H as Hfr; [|done..]. split; [done|].
  unfold analyze_before in H.
  apply bind_Ok_inv in H as (o2 & s1 & Huip & H).
  apply analyze_uip_ext in Huip as (_ & Hdl & Hshape).
  split; [done|].
  rewrite !bind_modify in H.
  apply bind_Ok_inv in H as ([] & s2 & _ & H). rewrite bind_modify in H.
  apply bind_Ok_inv in H as (g0 & s3 & _ & H).
  apply bind_Ok_inv in H as (g1 & s4 & _ & H).
  apply ret_Ok_inv in H as [= -> -> ->]. done.
Qed.

(** The clause that [minimiseLearntFurther] returns keeps its first literal
    and takes the others among the others. *)
Lemma minimiseLearntFurther_shape l0 rest g (st : State) out3 st' :
  minimiseLearntFurther (l0 :: rest) g st = Ok (out3, st') ->
  assignment st' = assignment st
  /\ exists rest3, out3 = l0 :: rest3 /\ sublist rest3 rest.
Proof.
  intros H. split.
  { assert (keeps assignment (minimiseLearntFurther (Ext := Ext) (l0 :: rest) g)) as Hk.
    { unfold minimiseLearntFurther. keeps_tac;
        first [by apply minim_select_keeps | by apply minim_compact_keeps]. }
    by apply Hk in H. }
  unfold minimiseLearntFurther in H.
  rewrite bind_gets in H. unfold id in H.
  apply bind_Ok_inv in H as ([] & s & Ha & H).
  apply assert_Ok_inv in Ha as [_ [= ->]].
  rewrite bind_modify in H.
  apply bind_Ok_inv in H as ([] & st1 & Hsel & H).
  apply bind_Ok_inv in H as ([[cl2 j] removed] & st2 & Hcomp & H).
  cbn beta iota in H. rewrite !bind_modify in H. apply ret_Ok_inv in H as [= -> ->].
  eapply (minim_compact_spec (l0 :: rest)) in Hcomp; [|done|done].
  simpl in Hcomp. rewrite Hcomp.
  unfold minim_select in Hsel.
  apply bind_Ok_inv in Hsel as ([] & s1 & _ & Hsel).
  apply bind_Ok_inv in Hsel as ([] & s2 & _ & Hsel).
  apply bind_Ok_inv in Hsel as (l & s3 & Hl & Hsel).
  apply lift_Ok_inv in Hl as (l' & Hl & [= -> ->]). apply vget_Ok in Hl.
  injection Hl as <-.
  apply set_seen_at_Ok_inv in Hsel as [Hlt [= ->]].
  cbn [seen set_seen]. fold (idx l0).
  rewrite list_lookup_insert_eq by done.
  eexists. split; [done|]. apply compacted_sublist.
Qed.

(** The search of the backtrack level leaves the first literal in place and
    permutes the others. *)
Lemma analyze_btlevel_elems out (st : State) out' bt st' :
  analyze_btlevel out st = Ok ((out', bt), st') ->
  out' !! 0%nat = out !! 0%nat
  /\ forall i q, (1 <= i)%nat -> out' !! i = Some q ->
       exists k, (1 <= k)%nat /\ out !! k = Some q.
Proof.
  unfold analyze_btlevel. intros H.
  destruct (decide (length out <= 1)%nat) as [Hle|Hgt].
  { apply ret_Ok_inv in H as [= -> -> ->]. split; [done|]. eauto. }
  apply bind_Ok_inv in H as (m & s1 & Hmax & H).
  apply analyze_max_spec in Hmax as (-> & Hm & _).
  apply bind_Ok_inv in H as (o1 & s1 & Hswap & H).
  apply lift_Ok_inv in Hswap as (o1' & Hswap & [= -> ->]).
  apply bind_Ok_inv in H as (l1 & s1 & _ & H).
  apply bind_Ok_inv in H as (d & s2 & _ & H).
  apply ret_Ok_inv in H as [= -> -> ->].
  unfold swap, rbind in Hswap.
  destruct (vget out m) as [x|] eqn:Hx; [|done].
  destruct (vget out 1) as [y|] eqn:Hy; [|done].
  destruct (vset out m y) as [v1|] eqn:Hv1; [|done].
  apply vget_Ok in Hx, Hy. apply vset_Ok in Hv1 as [Hmlt ->].
  apply vset_Ok in Hswap as [H1lt ->].
  assert (1 <= N.to_nat m)%nat as Hm1 by lia.
  split.
  - rewrite !list_lookup_insert_ne by lia. done.
  - intros i q Hi Hq.
    destruct (decide (i = N.to_nat 1)) as [->|Hi1].
    + rewrite list_lookup_insert_eq in Hq by done. injection Hq as <-. eauto.
    + rewrite list_lookup_insert_ne in Hq by done.
      destruct (decide (i = N.to_nat m)) as [->|Him].
      * rewrite list_lookup_insert_eq in Hq by done. injection Hq as <-.
        exists (N.to_nat 1). split; [lia|done].
      * rewrite list_lookup_insert_ne in Hq by done. eauto.
Qed.

Lemma analyze_levels (confl : PropBy) (st st' : State)
    (out : list Lit) (bt glue : N) :
  analyze confl [] st = Ok ((out, bt, glue), st') ->
  assignment st' = assignment st
  /\ 0 < decisionLevel st
  /\ bt ≠ decisionLevel st
  /\ exists p rest,
       out = neg p :: rest /\ p ∈ trail st
       /\ Forall (other_level (varData st) (decisionLevel st)) rest.
Proof.
  intros H. unfold analyze in H.
  apply bind_Ok_inv in H as ([out2 g] & s1 & Hb & H).
  apply analyze_before_ext in Hb as (Hfr1 & Hdl & p & extra & -> & Hp & Hex).
  apply bind_Ok_inv in H as (out3 & s2 & Hmin & H).
  apply minimiseLearntFurther_shape in Hmin as (Hfr2 & rest3 & -> & Hsub).
  unfold analyze_after in H.
  apply bind_Ok_inv in H as (gl & s3 & Hg & H).
  apply (calcNBLevels_keeps assignment) in Hg as Hfr3.
  rewrite bind_modify in H.
  apply bind_Ok_inv in H as ([out4 bt4] & s4 & Hbt & H).
  apply ret_Ok_inv in H as [= <- <- <- <-].
  pose proof (analyze_btlevel_spec _ _ _ _ _ Hbt) as (Hs4 & Hlen & H2 & H1).
  subst st'.
  apply analyze_btlevel_elems in Hbt as [H0 Hel].
  assert (assignment (set_tot_literals
                        (wrap64 (tot_literals s3 + N.of_nat (length (neg p :: rest3)))) s3)
          = assignment st) as Hfr.
  { change (assignment s3 = assignment st). congruence. }
  pose proof (assignment_inv _ _ Hfr) as (Hvd & _ & _).
  rewrite Hvd in H2.
  assert (forall i q, (1 <= i)%nat -> out !! i = Some q ->
            other_level (varData st) (decisionLevel st) q) as Hgood.
  { intros i q Hi Hq. destruct (Hel _ _ Hi Hq) as (k & Hk & Hq').
    destruct k as [|k]; [lia|]. simpl in Hq'.
    apply list_elem_of_lookup_2 in Hq'.
    eapply (proj1 (Forall_forall _ _)); [exact Hex|].
    eapply elem_of_sublist; eauto. }
  split; [done|]. split; [done|]. split.
  - destruct (decide (2 <= length out)%nat) as [Hge|Hlt].
    + destruct (H2 Hge) as [Hlev _].
      destruct (lookup_lt_is_Some_2 out 1) as [l1 Hl1]; [lia|].
      destruct (Hgood 1%nat l1) as (d & Hd & _ & Hne); [lia|done|].
      unfold level_at, lit_level in Hlev. rewrite Hl1, Hd in Hlev.
      injection Hlev as <-. done.
    + rewrite H1 by lia. lia.
  - destruct out as [|o0 rest]; [simpl in Hlen; lia|].
    simpl in H0. injection H0 as ->.
    exists p, rest. split; [done|]. split; [done|].
    apply Forall_lookup. intros i q Hq. by apply (Hgood (S i)); [lia|].
Qed.

(** X20. The learnt clause that [analyze] returns starts with the negation of a
    literal of the trail; each of its other literals is assigned above level
    0 and at another level than the current one, so that the backtrack level
    returned is never the current decision level.  [analyze] changes neither
    the trail, nor its limits, nor the assignment, nor [varData]. *)
Theorem analyze_learnt_levels (confl : PropBy) (st st' : State)
    (out : list Lit) (bt glue : N) :
  analyze confl [] st = Ok ((out, bt, glue), st') ->
  assignment st' = assignment st
  /\ 0 < decisionLevel st
  /\ bt ≠ decisionLevel st
  /\ exists p rest,
       out = neg p :: rest /\ p ∈ trail st
       /\ Forall (other_level (varData st) (decisionLevel st)) rest.
Proof. apply analyze_levels. Qed.

End AnalyzeLevels.

Lemma analyze_learnt_levels_witness :
  assignment Examples.st_analyzed = assignment Examples.st_conflict
  /\ 0 < decisionLevel Examples.st_conflict
  /\ 2 ≠ decisionLevel Examples.st_conflict
  /\ exists p rest,
       [toLit 5; toLit 3; toLit 1] = neg p :: rest /\ p ∈ trail Examples.st_conflict
       /\ Forall (other_level (varData Examples.st_conflict)
                    (decisionLevel Examples.st_conflict)) rest.
Proof.
  apply (analyze_learnt_levels (C := Examples.quiet) (clause_t 0 0)
           Examples.st_conflict Examples.st_analyzed [toLit 5; toLit 3; toLit 1] 2 3).
  vm_compute. reflexivity.
Defined.
(** ** Clause abstractions *)

Section AbstractionFacts.

Import ClauseSets.

Lemma abstraction_bits ps : forall acc n,
  N.testbit
    (foldl (fun abstraction p => N.lor abstraction (N.shiftl 1 (N.land (toInt p) 31)))
       acc ps) n = true
  <-> N.testbit acc n = true \/ exists p, p ∈ ps /\ N.land (toInt p) 31 = n.
Proof.
  induction ps as [|q ps IH]; intros acc n; simpl.
  - split; [by left|]. intros [H|(p & Hp & _)]; [done|]. by apply elem_of_nil in Hp.
  - rewrite IH, N.lor_spec, N.shiftl_1_l, N.pow2_bits_eqb, orb_true_iff, N.eqb_eq.
    split.
    + intros [[H|H]|(p & Hp & E)]; [by left| |].
      * right. exists q. split; [apply elem_of_cons; by left|done].
      * right. exists p. split; [apply elem_of_cons; by right|done].
    + intros [H|(p & Hp & E)]; [by left; left|].
      apply elem_of_cons in Hp as [->|Hp]; [by left; right|].
      right. by exists p.
Qed.

Lemma calcAbstraction_bit ps n :
  N.testbit (calcAbstraction ps) n = true
  <-> exists p, p ∈ ps /\ N.land (toInt p) 31 = n.
Proof.
  unfold calcAbstraction. rewrite abstraction_bits. rewrite N.bits_0.
  split; [by intros [?|?]|by right].
Qed.

Lemma land_31_lt a : N.land a 31 < 32.
Proof.
  change 31 with (N.ones 5). rewrite N.land_ones. by apply N.mod_lt.
Qed.

Lemma calcAbstraction_lt ps : calcAbstraction ps < 2 ^ 32.
Proof.
  destruct (decide (calcAbstraction ps = 0)) as [->|Hne]; [done|].
  apply N.log2_lt_pow2; [lia|].
  destruct (decide (N.log2 (calcAbstraction ps) < 32)) as [|Hge]; [done|].
  pose proof (N.bit_log2 _ Hne) as Hb.
  apply calcAbstraction_bit in Hb as (p & _ & E).
  pose proof (land_31_lt (toInt p)). lia.
Qed.

(** X14. If every literal of [A] is a literal of [B], then [subsetAbst] accepts
    their abstractions, so that the filter never hides a subsumption; an
    abstraction fits the [uint32_t] that holds it. *)
Theorem subsetAbst_sound (A B : list Lit) :
  A ⊆ B ->
  subsetAbst (calcAbstraction A) (calcAbstraction B) = true
  /\ calcAbstraction A < 2 ^ 32.
Proof.
  intros Hsub. split; [|apply calcAbstraction_lt].
  unfold subsetAbst. apply bool_decide_eq_true_2.
  apply N.bits_inj_0. intros n.
  rewrite N.land_spec. unfold not64, wrap64.
  destruct (decide (n < 64)) as [Hlt|Hge].
  - rewrite N.lxor_spec, !N.mod_pow2_bits_low, N.ones_spec_low by done.
    destruct (N.testbit (calcAbstraction A) n) eqn:EA; [|done]. simpl.
    apply calcAbstraction_bit in EA as (p & Hp & E).
    assert (N.testbit (calcAbstraction B) n = true) as ->; [|done].
    apply calcAbstraction_bit. exists p. split; [by apply Hsub|done].
  - rewrite N.mod_pow2_bits_high by lia. done.
Qed.

Lemma subsetAbst_sound_witness :
  subsetAbst (calcAbstraction [toLit 2; toLit 37])
             (calcAbstraction [toLit 5; toLit 37; toLit 2]) = true
  /\ calcAbstraction [toLit 2; toLit 37] < 2 ^ 32.
Proof.
  apply (subsetAbst_sound [toLit 2; toLit 37] [toLit 5; toLit 37; toLit 2]).
  intros l Hl.
  apply elem_of_cons in Hl as [->|Hl]; [|apply list_elem_of_singleton in Hl as ->];
    repeat constructor.
Defined.

End AbstractionFacts.
(** ** The clause sets [CSet] *)

Section CSetFacts.

Import ClauseSets.

Lemma wrapS32_small z : (- 2 ^ 31 <= z < 2 ^ 31)%Z -> wrapS32 z = z.
Proof. intros Hz. unfold wrapS32. rewrite Z.mod_small; lia. Qed.

Ltac unwrap :=
  repeat match goal with
  | |- context [wrapS32 (Z.of_nat ?n)] => rewrite (wrapS32_small (Z.of_nat n)) by lia
  end;
  rewrite ?wrapS32_small by lia.

Lemma length_growTo {A} n (pad : A) v : length (growTo n pad v) = (length v `max` n)%nat.
Proof. unfold growTo. rewrite length_app, length_replicate. lia. Qed.

Lemma lookup_growTo_old {A} n (pad : A) v i :
  (i < length v)%nat -> growTo n pad v !! i = v !! i.
Proof. intros Hi. unfold growTo. by rewrite lookup_app_l. Qed.

Lemma lookup_growTo_new {A} n (pad : A) v i x :
  (length v <= i)%nat -> growTo n pad v !! i = Some x -> x = pad.
Proof.
  intros Hi H. unfold growTo in H. rewrite lookup_app_r in H by done.
  by apply lookup_replicate in H as [-> _].
Qed.

Lemma wf_where_live s i p :
  wf s -> where_ s !! i = Some p -> p ≠ NONE ->
  exists cs, which s !! N.to_nat p = Some cs
             /\ is_Some (clause cs) /\ index cs = N.of_nat i.
Proof. intros (W1 & _). apply W1. Qed.

Lemma wf_free_dead s f :
  wf s -> f ∈ free s -> exists cs, which s !! N.to_nat f = Some cs /\ clause cs = None.
Proof. intros (_ & _ & W3 & _). apply W3. Qed.

Lemma wf_free_le s : wf s -> (length (free s) <= length (which s))%nat.
Proof.
  intros Hwf. pose proof Hwf as (_ & _ & _ & W4).
  assert (N.to_nat <$> free s ⊆+ seq 0 (length (which s))) as H.
  { apply NoDup_submseteq.
    - apply NoDup_fmap_2; [|done]. intros x y. lia.
    - intros n (f & -> & Hf)%list_elem_of_fmap.
      destruct (wf_free_dead _ _ Hwf Hf) as (cs & Hcs & _).
      apply lookup_lt_Some in Hcs. apply elem_of_seq. lia. }
  apply submseteq_length in H. by rewrite length_fmap, length_seq in H.
Qed.

Lemma entry_Some s i cs :
  wf s -> entry s i = Some cs ->
  is_Some (clause cs) /\ index cs = i
  /\ exists p, where_ s !! N.to_nat i = Some p /\ p ≠ NONE
               /\ which s !! N.to_nat p = Some cs.
Proof.
  intros Hwf H. unfold entry in H.
  destruct (where_ s !! N.to_nat i) as [p|] eqn:Hp; [|done].
  destruct (decide (p = NONE)) as [|Hn]; [done|].
  destruct (wf_where_live _ _ _ Hwf Hp Hn) as (cs' & Hcs' & Hlive & Hidx).
  assert (cs' = cs) as -> by congruence.
  split_and!; [done|lia|]. by exists p.
Qed.

(** Growing [where] with [-1] changes nothing of the set. *)
Lemma wf_growTo s n : wf s -> wf (mkCSet (growTo n NONE (where_ s)) (which s) (free s)).
Proof.
  intros (W1 & W2 & W3 & W4). split_and!; simpl; [| |done|done].
  - intros i p Hp Hn. destruct (decide (i < length (where_ s))%nat) as [Hi|Hi].
    + rewrite lookup_growTo_old in Hp by done. by apply W1.
    + apply lookup_growTo_new in Hp; [done|lia].
  - intros p cs Hcs Hlive. pose proof (W2 _ _ Hcs Hlive) as Hw.
    rewrite lookup_growTo_old; [done|]. by apply lookup_lt_Some in Hw.
Qed.

Lemma entry_growTo s n i :
  entry (mkCSet (growTo n NONE (where_ s)) (which s) (free s)) i = entry s i.
Proof.
  unfold entry. simpl.
  destruct (decide (N.to_nat i < length (where_ s))%nat) as [Hi|Hi].
  - by rewrite lookup_growTo_old.
  - rewrite (lookup_ge_None_2 (where_ s)) by lia.
    destruct (growTo n NONE (where_ s) !! N.to_nat i) as [p|] eqn:Hp; [|done].
    apply lookup_growTo_new in Hp as ->; [|lia]. by rewrite decide_True.
Qed.

(** Changing the abstraction of a live entry *)
Lemma wf_set_abst s p cs a :
  wf s -> which s !! p = Some cs ->
  wf (mkCSet (where_ s) (<[p := set_abst a cs]> (which s)) (free s)).
Proof.
  intros (W1 & W2 & W3 & W4) Hcs.
  pose proof (lookup_lt_Some _ _ _ Hcs) as Hlt.
  split_and!; simpl; [| | |done].
  - intros i q Hq Hn. destruct (W1 _ _ Hq Hn) as (cs' & Hcs' & Hlive & Hidx).
    destruct (decide (p = N.to_nat q)) as [->|Hne].
    + rewrite list_lookup_insert_eq by done.
      assert (cs' = cs) as -> by congruence. by exists (set_abst a cs).
    + rewrite list_lookup_insert_ne by done. by exists cs'.
  - intros q cs' Hq Hlive. destruct (decide (p = q)) as [->|Hne].
    + rewrite list_lookup_insert_eq in Hq by done. injection Hq as <-.
      simpl in *. by apply W2.
    + rewrite list_lookup_insert_ne in Hq by done. by apply W2.
  - intros q. rewrite W3. destruct (decide (p = N.to_nat q)) as [->|Hne].
    + rewrite list_lookup_insert_eq by done. split.
      * intros (cs' & Hcs' & Hd). assert (cs' = cs) as -> by congruence.
        by exists (set_abst a cs).
      * intros (cs' & [= <-] & Hd). by exists cs.
    + by rewrite list_lookup_insert_ne.
Qed.

Lemma wf_where_lt s i p :
  wf s -> where_ s !! i = Some p -> p ≠ NONE -> (N.to_nat p < length (which s))%nat.
Proof.
  intros Hwf Hp Hn. destruct (wf_where_live _ _ _ Hwf Hp Hn) as (cs & Hcs & _).
  by apply lookup_lt_Some in Hcs.
Qed.

Lemma wf_live_not_NONE s p cs :
  wf s -> N.of_nat (length (which s)) < NONE ->
  which s !! p = Some cs -> N.of_nat p ≠ NONE.
Proof. intros _ Hlen Hcs. apply lookup_lt_Some in Hcs. lia. Qed.

(** The entries of the other indices, when [where] changes at one index and
    [which] at a position that held no live entry *)
Lemma entry_other s w' wh' i j q :
  wf s ->
  w' = <[N.to_nat j := q]> (where_ s) ->
  (forall p cs, which s !! p = Some cs -> is_Some (clause cs) -> wh' !! p = Some cs) ->
  i ≠ j ->
  entry (mkCSet w' wh' (free s)) i = entry s i.
Proof.
  intros Hwf -> Hwh Hne. unfold entry. simpl.
  rewrite list_lookup_insert_ne by lia.
  destruct (where_ s !! N.to_nat i) as [p|] eqn:Hp; [|done].
  destruct (decide (p = NONE)) as [|Hn]; [done|].
  destruct (wf_where_live _ _ _ Hwf Hp Hn) as (cs & Hcs & Hlive & _).
  rewrite Hcs. by apply Hwh.
Qed.

Lemma growTo_ge {A} n (pad : A) v : (n <= length v)%nat -> growTo n pad v = v.
Proof.
  intros Hn. unfold growTo. replace (n - length v)%nat with 0%nat by lia.
  apply app_nil_r.
Qed.

Lemma add_growTo c s :
  add c (mkCSet (growTo (N.to_nat (wrap32 (index c + 1))) NONE (where_ s))
           (which s) (free s))
  = add c s.
Proof.
  unfold add. simpl. rewrite (growTo_ge _ _ (growTo _ _ _)); [done|].
  rewrite length_growTo. lia.
Qed.

Lemma add_in_range (c : ClauseSimp) (s : CSet) :
  wf s -> is_Some (clause c) -> index c < NONE ->
  N.of_nat (length (which s)) < 2147483647 ->
  (N.to_nat (index c) < length (where_ s))%nat ->
  exists b s',
    add c s = Ok (b, s')
    /\ wf s'
    /\ (b = true <-> mem s (index c))
    /\ (if b then exists old, entry s (index c) = Some old
                              /\ entry s' (index c) = Some (set_abst (abst c) old)
        else entry s' (index c) = Some c)
    /\ (forall i, i ≠ index c -> entry s' i = entry s i)
    /\ nElems s' = (nElems s + (if b then 0 else 1))%Z.
Proof.
  intros Hwf [cl Hcl] Hidx Hlen Hlt.
  pose proof (wf_free_le _ Hwf) as Hfl.
  unfold add. rewrite Hcl. cbv zeta.
  assert (wrap32 (index c + 1) = index c + 1) as ->.
  { unfold wrap32. rewrite N.mod_small; unfold NONE in *; lia. }
  rewrite growTo_ge by lia. unfold mem.
  destruct (lookup_lt_is_Some_2 _ _ Hlt) as [p Hp].
  unfold vget at 1. rewrite Hp. cbn [rbind].
  assert (N.of_nat (length (which s)) < NONE) as Hlen' by (unfold NONE; lia).
  destruct (decide (p ≠ NONE)) as [Hn|Hn].
  - (* already in *)
    destruct (wf_where_live _ _ _ Hwf Hp Hn) as (cs & Hcs & Hlive & Hix).
    pose proof (lookup_lt_Some _ _ _ Hcs) as Hplt.
    unfold vget, vset. rewrite Hcs. cbn [rbind]. rewrite decide_True by done.
    cbn [rbind].
    exists true, (mkCSet (where_ s) (<[N.to_nat p := set_abst (abst c) cs]> (which s))
                    (free s)).
    split; [done|]. split; [by apply wf_set_abst|].
    assert (entry s (index c) = Some cs) as Hold.
    { unfold entry. by rewrite Hp, decide_False. }
    split; [by rewrite Hold|]. split.
    { exists cs. split; [done|]. unfold entry. simpl.
      rewrite Hp, decide_False by done. by rewrite list_lookup_insert_eq. }
    split.
    + intros i Hi. unfold entry. simpl.
      destruct (where_ s !! N.to_nat i) as [q|] eqn:Hq; [|done].
      destruct (decide (q = NONE)) as [|Hnq]; [done|].
      rewrite list_lookup_insert_ne; [done|]. intros E.
      destruct (wf_where_live _ _ _ Hwf Hq Hnq) as (cs' & Hcs' & _ & Hix').
      rewrite <- E in Hcs'. assert (cs' = cs) as -> by congruence. lia.
    + unfold nElems. simpl. rewrite length_insert. lia.
  - (* not in *)
    apply dec_stable in Hn. subst p.
    assert (entry s (index c) = None) as Hold.
    { unfold entry. by rewrite Hp, decide_True. }
    assert (forall q cs, which s !! q = Some cs -> is_Some (clause cs) ->
                         N.to_nat (index cs) ≠ N.to_nat (index c)) as Hfresh.
    { intros q cs Hq Hlive E. pose proof Hwf as (_ & W2 & _).
      pose proof (W2 _ _ Hq Hlive) as Hw. rewrite E, Hp in Hw.
      apply lookup_lt_Some in Hq. injection Hw as Hw. lia. }
    destruct (last (free s)) as [f|] eqn:Hlast.
    + (* a dead position is taken again *)
      apply last_Some in Hlast as [fr Hfree].
      assert (f ∈ free s) as Hf.
      { rewrite Hfree, elem_of_app. right. by apply list_elem_of_singleton. }
      destruct (wf_free_dead _ _ Hwf Hf) as (cs0 & Hcs0 & Hdead).
      pose proof (lookup_lt_Some _ _ _ Hcs0) as Hflt.
      assert (f ≠ NONE) as Hfn by lia.
      unfold vset. rewrite !decide_True by done. cbn [rbind].
      rewrite Hfree, removelast_last.
      exists false, (mkCSet (<[N.to_nat (index c) := f]> (where_ s))
                       (<[N.to_nat f := c]> (which s)) fr).
      split; [done|].
      pose proof Hwf as (W1 & W2 & W3 & W4).
      assert (NoDup fr /\ f ∉ fr) as [Hnd Hnin].
      { rewrite Hfree in W4. apply NoDup_app in W4 as (? & Hd & _). split; [done|].
        intros Hin. apply (Hd _ Hin). by apply list_elem_of_singleton. }
      assert (forall q cs, which s !! q = Some cs -> is_Some (clause cs) ->
                <[N.to_nat f := c]> (which s) !! q = Some cs) as Hkeep.
      { intros q cs Hq Hlive. rewrite list_lookup_insert_ne; [done|].
        intros <-. rewrite Hcs0 in Hq. injection Hq as <-.
        rewrite Hdead in Hlive. by destruct Hlive. }
      split.
      { split_and!; simpl; [| | |done].
        - intros i q Hq Hnq. destruct (decide (i = N.to_nat (index c))) as [->|Hne].
          + rewrite list_lookup_insert_eq in Hq by done. injection Hq as <-.
            exists c. rewrite list_lookup_insert_eq by done.
            split_and!; [done|by exists cl|lia].
          + rewrite list_lookup_insert_ne in Hq by done.
            destruct (W1 _ _ Hq Hnq) as (cs & Hcs & Hlive & Hix).
            exists cs. split; [by apply Hkeep|done].
        - intros q cs Hq Hlive. destruct (decide (q = N.to_nat f)) as [->|Hne].
          + rewrite list_lookup_insert_eq in Hq by done. injection Hq as <-.
            rewrite list_lookup_insert_eq by done. f_equal. lia.
          + rewrite list_lookup_insert_ne in Hq by done.
            rewrite list_lookup_insert_ne by (by eapply not_eq_sym, Hfresh).
            by apply W2.
        - intros q. split.
          + intros Hq. assert (q ∈ free s) as Hq'.
            { rewrite Hfree, elem_of_app. by left. }
            apply W3 in Hq' as (cs & Hcs & Hd). exists cs. split; [|done].
            rewrite list_lookup_insert_ne; [done|]. intros E.
            assert (f = q) as -> by lia. done.
          + intros (cs & Hcs & Hd).
            destruct (decide (N.to_nat f = N.to_nat q)) as [E|Hne].
            * rewrite E, list_lookup_insert_eq in Hcs by lia.
              injection Hcs as <-. congruence.
            * rewrite list_lookup_insert_ne in Hcs by done.
              assert (q ∈ free s) as Hq' by (apply W3; eauto).
              rewrite Hfree, elem_of_app in Hq'. destruct Hq' as [|Hq']; [done|].
              apply list_elem_of_singleton in Hq'. subst. done. }
      split; [by rewrite Hold; split; [|intros []]|].
      split.
      { unfold entry. simpl. rewrite list_lookup_insert_eq by done.
        rewrite decide_False by done. by rewrite list_lookup_insert_eq. }
      split.
      * intros i Hi.
        rewrite <- (entry_other s (<[N.to_nat (index c) := f]> (where_ s))
                      (<[N.to_nat f := c]> (which s)) i (index c) f); done.
      * unfold nElems. simpl. rewrite length_insert.
        rewrite Hfree, length_app in Hfl |- *. simpl in *.
        unwrap; lia.
    + (* a new position *)
      apply last_None in Hlast.
      assert (wrap32 (N.of_nat (length (which s))) = N.of_nat (length (which s))) as ->.
      { unfold wrap32. rewrite N.mod_small; lia. }
      unfold vset. rewrite !decide_True by done. cbn [rbind].
      exists false, (mkCSet (<[N.to_nat (index c) := N.of_nat (length (which s))]> (where_ s))
                       (which s ++ [c]) (free s)).
      split; [done|].
      pose proof Hwf as (W1 & W2 & W3 & W4).
      assert (forall q cs, which s !! q = Some cs -> is_Some (clause cs) ->
                (which s ++ [c]) !! q = Some cs) as Hkeep.
      { intros q cs Hq _. by apply lookup_app_l_Some. }
      assert ((which s ++ [c]) !! length (which s) = Some c) as Hnew.
      { by rewrite list_lookup_middle. }
      split.
      { split_and!; simpl; [| | |done].
        - intros i q Hq Hnq. destruct (decide (i = N.to_nat (index c))) as [->|Hne].
          + rewrite list_lookup_insert_eq in Hq by done. injection Hq as <-.
            exists c. rewrite Nat2N.id. split_and!; [done|by exists cl|lia].
          + rewrite list_lookup_insert_ne in Hq by done.
            destruct (W1 _ _ Hq Hnq) as (cs & Hcs & Hlive & Hix).
            exists cs. split; [by apply Hkeep|done].
        - intros q cs Hq Hlive.
          apply lookup_app_Some in Hq as [Hq|[Hge Hq]].
          + rewrite list_lookup_insert_ne by (by eapply not_eq_sym, Hfresh).
            by apply W2.
          + apply list_lookup_singleton_Some in Hq as [Hq <-].
            rewrite list_lookup_insert_eq by done. f_equal. lia.
        - intros q. rewrite Hlast. split; [by intros ?%elem_of_nil|].
          intros (cs & Hcs & Hd).
          apply lookup_app_Some in Hcs as [Hcs|[Hge Hcs]].
          + rewrite <- Hlast. apply W3. eauto.
          + apply list_lookup_singleton_Some in Hcs as [_ <-]. congruence. }
      split; [by rewrite Hold; split; [|intros []]|].
      split.
      { unfold entry. simpl. rewrite list_lookup_insert_eq by done.
        rewrite decide_False by lia. by rewrite Nat2N.id. }
      split.
      * intros i Hi.
        by rewrite <- (entry_other s
                         (<[N.to_nat (index c) := N.of_nat (length (which s))]> (where_ s))
                         (which s ++ [c]) i (index c) (N.of_nat (length (which s)))).
      * unfold nElems. simpl. rewrite length_app. simpl.
        rewrite Hlast in Hfl |- *. simpl in *.
        unwrap; lia.
Qed.

(** X15. [add]: on a set whose vectors agree, [add(c)] succeeds and keeps them in
    agreement; it returns [true] exactly when the set already holds a clause
    with the index of [c], and then only the abstraction of that entry is
    changed (the clause pointer is kept); otherwise [c] becomes the entry of
    its index and the set has one element more.  No other entry changes. *)
Theorem add_member (c : ClauseSimp) (s : CSet) :
  wf s -> is_Some (clause c) -> index c < NONE ->
  N.of_nat (length (which s)) < 2147483647 ->
  exists b s',
    add c s = Ok (b, s')
    /\ wf s'
    /\ (b = true <-> mem s (index c))
    /\ (if b then exists old, entry s (index c) = Some old
                              /\ entry s' (index c) = Some (set_abst (abst c) old)
        else entry s' (index c) = Some c)
    /\ (forall i, i ≠ index c -> entry s' i = entry s i)
    /\ nElems s' = (nElems s + (if b then 0 else 1))%Z.
Proof.
  intros Hwf Hcl Hidx Hlen.
  rewrite <- add_growTo.
  set (s1 := mkCSet (growTo (N.to_nat (wrap32 (index c + 1))) NONE (where_ s))
               (which s) (free s)).
  assert (forall i, entry s1 i = entry s i) as Hent1 by (intros; apply entry_growTo).
  destruct (add_in_range c s1) as (b & s' & Hadd & Hwf' & Hb & He & Ho & Hn);
    [by apply wf_growTo|done|done|done| |].
  { simpl. rewrite length_growTo.
    assert (wrap32 (index c + 1) = index c + 1) as ->.
    { unfold wrap32. rewrite N.mod_small; unfold NONE in *; lia. }
    lia. }
  exists b, s'. split; [done|]. split; [done|].
  unfold mem in *. rewrite Hent1 in Hb. split; [done|].
  split; [|split].
  - destruct b; [|done]. by rewrite Hent1 in He.
  - intros i Hi. rewrite <- Hent1. by apply Ho.
  - done.
Qed.

(** X16. [exclude]: on a set whose vectors agree, [exclude(c)] succeeds and keeps
    them in agreement; it returns [true] exactly when the set holds a clause
    with the index of [c]; afterwards it holds none, no other entry has
    changed, and the set has one element less if it held one. *)
Theorem exclude_member (c : ClauseSimp) (s : CSet) :
  wf s -> is_Some (clause c) ->
  N.of_nat (length (which s)) < 2147483647 ->
  exists b s',
    exclude c s = Ok (b, s')
    /\ wf s'
    /\ (b = true <-> mem s (index c))
    /\ ~ mem s' (index c)
    /\ (forall i, i ≠ index c -> entry s' i = entry s i)
    /\ nElems s' = (nElems s - (if b then 1 else 0))%Z.
Proof.
  intros Hwf [cl Hcl] Hlen.
  unfold exclude. rewrite Hcl. unfold mem.
  destruct (decide (N.of_nat (length (where_ s)) <= index c)) as [Hge|Hlt].
  { assert (entry s (index c) = None) as Hold.
    { unfold entry. by rewrite lookup_ge_None_2 by lia. }
    exists false, s. rewrite Hold.
    split; [done|]. split; [done|]. split; [by split; [|intros []]|].
    split; [by intros []|]. split; [done|lia]. }
  destruct (lookup_lt_is_Some_2 (where_ s) (N.to_nat (index c))) as [p Hp]; [lia|].
  unfold vget at 1. rewrite Hp. cbn [rbind].
  destruct (decide (p = NONE)) as [->|Hn].
  { assert (entry s (index c) = None) as Hold.
    { unfold entry. by rewrite Hp, decide_True. }
    exists false, s. rewrite Hold.
    split; [done|]. split; [done|]. split; [by split; [|intros []]|].
    split; [by intros []|]. split; [done|lia]. }
  destruct (wf_where_live _ _ _ Hwf Hp Hn) as (cs & Hcs & Hlive & Hix).
  pose proof (lookup_lt_Some _ _ _ Hcs) as Hplt.
  assert (entry s (index c) = Some cs) as Hold.
  { unfold entry. by rewrite Hp, decide_False. }
  unfold vget, vset. rewrite Hcs. cbn [rbind].
  rewrite !decide_True by (done || lia). cbn [rbind].
  set (s' := mkCSet (<[N.to_nat (index c) := NONE]> (where_ s))
               (<[N.to_nat p := set_clause None cs]> (which s)) (free s ++ [p])).
  pose proof Hwf as (W1 & W2 & W3 & W4).
  assert (p ∉ free s) as Hpf.
  { intros (cs' & Hcs' & Hd)%W3. rewrite Hcs in Hcs'. injection Hcs' as <-.
    rewrite Hd in Hlive. by destruct Hlive. }
  assert (wf s') as Hwf'.
  { split_and!; simpl.
    - intros i q Hq Hnq. destruct (decide (i = N.to_nat (index c))) as [->|Hne].
      + rewrite list_lookup_insert_eq in Hq by lia. congruence.
      + rewrite list_lookup_insert_ne in Hq by done.
        destruct (W1 _ _ Hq Hnq) as (cs' & Hcs' & Hlive' & Hix').
        exists cs'. split; [|done]. rewrite list_lookup_insert_ne; [done|].
        intros E. rewrite <- E in Hcs'. assert (cs' = cs) as -> by congruence. lia.
    - intros q cs' Hq Hlive'. destruct (decide (q = N.to_nat p)) as [->|Hne].
      + rewrite list_lookup_insert_eq in Hq by done. injection Hq as <-.
        simpl in Hlive'. by destruct Hlive'.
      + rewrite list_lookup_insert_ne in Hq by done.
        pose proof (W2 _ _ Hq Hlive') as Hw.
        rewrite list_lookup_insert_ne; [done|]. intros E.
        rewrite <- E, Hp in Hw. injection Hw as ->. lia.
    - intros q. rewrite elem_of_app, list_elem_of_singleton, W3. split.
      + intros [(cs' & Hcs' & Hd)| ->].
        * exists cs'. split; [|done]. rewrite list_lookup_insert_ne; [done|].
          intros E. rewrite <- E in Hcs'. assert (cs' = cs) as -> by congruence.
          rewrite Hd in Hlive. by destruct Hlive.
        * exists (set_clause None cs). by rewrite list_lookup_insert_eq.
      + intros (cs' & Hcs' & Hd).
        destruct (decide (N.to_nat p = N.to_nat q)) as [E|Hne].
        * right. lia.
        * rewrite list_lookup_insert_ne in Hcs' by done. left. eauto.
    - apply NoDup_app. split_and!; [done| |apply NoDup_singleton].
      intros x Hx ->%list_elem_of_singleton. done. }
  exists true, s'. split; [done|]. split; [done|].
  split; [by rewrite Hold|]. split.
  { unfold entry, s'. simpl. rewrite list_lookup_insert_eq by lia.
    rewrite decide_True by done. by intros []. }
  split.
  - intros i Hi. unfold entry, s'. simpl.
    rewrite list_lookup_insert_ne by lia.
    destruct (where_ s !! N.to_nat i) as [q|] eqn:Hq; [|done].
    destruct (decide (q = NONE)) as [|Hnq]; [done|].
    rewrite list_lookup_insert_ne; [done|]. intros E.
    destruct (W1 _ _ Hq Hnq) as (cs' & Hcs' & _ & Hix').
    rewrite <- E in Hcs'. assert (cs' = cs) as -> by congruence. lia.
  - pose proof (wf_free_le _ Hwf') as Hfl. unfold nElems, s' in *. simpl in *.
    rewrite length_insert in *. rewrite length_app in *. simpl in *.
    unwrap; lia.
Qed.

Lemma clear_loop_spec cs : forall w,
  (forall c, c ∈ cs -> is_Some (clause c) -> (N.to_nat (index c) < length w)%nat) ->
  exists w',
    clear_loop cs w = Ok w' /\ length w' = length w
    /\ (forall c, c ∈ cs -> is_Some (clause c) ->
          w' !! N.to_nat (index c) = Some NONE)
    /\ (forall i x, w' !! i = Some x -> x = NONE \/ w !! i = Some x).
Proof.
  induction cs as [|c cs IH]; intros w Hr; simpl.
  - exists w. split_and!; [done|done| |by right].
    intros c Hc. by apply elem_of_nil in Hc.
  - destruct (clause c) as [cl|] eqn:Hcl.
    + unfold vset. rewrite decide_True; cycle 1.
      { apply Hr; [apply elem_of_cons; by left|by rewrite Hcl]. }
      cbn [rbind].
      destruct (IH (<[N.to_nat (index c) := NONE]> w)) as (w' & Hw' & Hl & Hin & Hout).
      { intros c' Hc' Hlive. rewrite length_insert. apply Hr; [|done].
        apply elem_of_cons. by right. }
      exists w'. rewrite length_insert in Hl. split_and!; [done|done| |].
      * intros c' Hc' Hlive. apply elem_of_cons in Hc' as [->|Hc']; [|by apply Hin].
        assert (N.to_nat (index c) < length w')%nat as Hlt.
        { rewrite Hl. apply Hr; [apply elem_of_cons; by left|done]. }
        destruct (lookup_lt_is_Some_2 _ _ Hlt) as [x Hx].
        destruct (Hout _ _ Hx) as [->|Hx']; [done|].
        rewrite list_lookup_insert_eq in Hx' by lia. congruence.
      * intros i x Hx. destruct (Hout _ _ Hx) as [->|Hx']; [by left|].
        destruct (decide (i = N.to_nat (index c))) as [->|Hne].
        -- rewrite list_lookup_insert_eq in Hx' by (apply lookup_lt_Some in Hx; lia).
           left. congruence.
        -- rewrite list_lookup_insert_ne in Hx' by done. by right.
    + destruct (IH w) as (w' & Hw' & Hl & Hin & Hout).
      { intros c' Hc' Hlive. apply Hr; [|done]. apply elem_of_cons. by right. }
      exists w'. split_and!; [done|done| |done].
      intros c' Hc' Hlive. apply elem_of_cons in Hc' as [->|Hc']; [|by apply Hin].
      rewrite Hcl in Hlive. by destruct Hlive.
Qed.

(** X17. [clear]: on a set whose vectors agree, [clear()] succeeds, leaves them in
    agreement and leaves the set without any element; [where] keeps its
    size. *)
Theorem clear_empties (s : CSet) :
  wf s ->
  exists s',
    clear s = Ok s'
    /\ wf s'
    /\ (forall i, ~ mem s' i)
    /\ nElems s' = 0%Z
    /\ length (where_ s') = length (where_ s).
Proof.
  intros Hwf. pose proof Hwf as (W1 & W2 & W3 & W4).
  destruct (clear_loop_spec (which s) (where_ s)) as (w' & Hw' & Hl & Hin & Hout).
  { intros c Hc Hlive. apply list_elem_of_lookup in Hc as [p Hp].
    pose proof (W2 _ _ Hp Hlive) as Hw. by apply lookup_lt_Some in Hw. }
  assert (forall i x, w' !! i = Some x -> x = NONE) as Hall.
  { intros i x Hx. destruct (decide (x = NONE)) as [|Hn]; [done|].
    destruct (Hout _ _ Hx) as [|Hx']; [done|].
    destruct (W1 _ _ Hx' Hn) as (cs & Hcs & Hlive & Hix).
    apply list_elem_of_lookup_2 in Hcs. pose proof (Hin _ Hcs Hlive) as Hw.
    rewrite Hix, Nat2N.id in Hw. congruence. }
  exists (mkCSet w' [] []). unfold clear. rewrite Hw'. cbn [rbind].
  split; [done|]. split; [|split; [|split; [done|done]]].
  - split_and!; simpl.
    + intros i p Hp Hn. by apply Hall in Hp.
    + intros p cs Hp. by rewrite lookup_nil in Hp.
    + intros p. split; [by intros ?%elem_of_nil|].
      intros (cs & Hcs & _). by rewrite lookup_nil in Hcs.
    + apply NoDup_nil_2.
  - intros i [cs Hcs]. unfold entry in Hcs. simpl in Hcs.
    destruct (w' !! N.to_nat i) as [p|]; [|done].
    destruct (decide (p = NONE)); [done|]. by rewrite lookup_nil in Hcs.
Qed.

(** X18. [update]: on a set whose vectors agree, [update(c)] succeeds and keeps
    them in agreement; it changes the abstraction of the entry with the index
    of [c], if the set holds one, and nothing else. *)
Theorem update_abst (c : ClauseSimp) (s : CSet) :
  wf s ->
  exists s',
    update c s = Ok s'
    /\ wf s'
    /\ entry s' (index c) = set_abst (abst c) <$> entry s (index c)
    /\ (forall i, i ≠ index c -> entry s' i = entry s i)
    /\ where_ s' = where_ s /\ free s' = free s
    /\ length (which s') = length (which s).
Proof.
  intros Hwf. unfold update.
  destruct (decide (N.of_nat (length (where_ s)) <= index c)) as [Hge|Hlt].
  { assert (entry s (index c) = None) as Hold.
    { unfold entry. by rewrite lookup_ge_None_2 by lia. }
    exists s. rewrite Hold. by split_and!. }
  destruct (lookup_lt_is_Some_2 (where_ s) (N.to_nat (index c))) as [p Hp]; [lia|].
  unfold vget at 1. rewrite Hp. cbn [rbind].
  destruct (decide (p = NONE)) as [->|Hn].
  { assert (entry s (index c) = None) as Hold.
    { unfold entry. by rewrite Hp, decide_True. }
    exists s. rewrite Hold. by split_and!. }
  destruct (wf_where_live _ _ _ Hwf Hp Hn) as (cs & Hcs & Hlive & Hix).
  pose proof (lookup_lt_Some _ _ _ Hcs) as Hplt.
  unfold vget, vset. rewrite Hcs. cbn [rbind]. rewrite decide_True by done.
  cbn [rbind].
  eexists. split; [done|]. split; [by apply wf_set_abst|]. simpl.
  split_and!; try done.
  - assert (entry s (index c) = Some cs) as ->.
    { unfold entry. by rewrite Hp, decide_False. }
    unfold entry. simpl. rewrite Hp, decide_False by done.
    by rewrite list_lookup_insert_eq.
  - intros i Hi. unfold entry. simpl.
    destruct (where_ s !! N.to_nat i) as [q|] eqn:Hq; [|done].
    destruct (decide (q = NONE)) as [|Hnq]; [done|].
    rewrite list_lookup_insert_ne; [done|]. intros E.
    destruct (wf_where_live _ _ _ Hwf Hq Hnq) as (cs' & Hcs' & _ & Hix').
    rewrite <- E in Hcs'. assert (cs' = cs) as -> by congruence. lia.
  - by rewrite length_insert.
Qed.

End CSetFacts.

Lemma wf_cs_one : ClauseSets.wf Runs.cs_one.
Proof.
  split_and!; simpl.
  - intros [|[|[|i]]] p [= <-] Hn; try done.
    exists Runs.c_a. split_and!; [done|by eexists|done].
  - intros [|p] cs [= <-] _. done.
  - intros p. split; [by intros ?%elem_of_nil|].
    intros (cs & Hcs & Hd). destruct (N.to_nat p); [|done].
    injection Hcs as <-. done.
  - apply NoDup_nil_2.
Qed.

Lemma add_member_witness :
  exists b s',
    ClauseSets.add Runs.c_b Runs.cs_one = Ok (b, s')
    /\ ClauseSets.wf s'
    /\ (b = true <-> ClauseSets.mem Runs.cs_one 0)
    /\ (if b then exists old, ClauseSets.entry Runs.cs_one 0 = Some old
                              /\ ClauseSets.entry s' 0
                                 = Some (ClauseSets.set_abst (ClauseSets.abst Runs.c_b) old)
        else ClauseSets.entry s' 0 = Some Runs.c_b)
    /\ (forall i, i ≠ 0 -> ClauseSets.entry s' i = ClauseSets.entry Runs.cs_one i)
    /\ ClauseSets.nElems s'
       = (ClauseSets.nElems Runs.cs_one + (if b then 0 else 1))%Z.
Proof.
  apply (add_member Runs.c_b Runs.cs_one).
  - apply wf_cs_one.
  - by eexists.
  - reflexivity.
  - reflexivity.
Defined.

Lemma exclude_member_witness :
  exists b s',
    ClauseSets.exclude Runs.c_a Runs.cs_one = Ok (b, s')
    /\ ClauseSets.wf s'
    /\ (b = true <-> ClauseSets.mem Runs.cs_one 2)
    /\ ~ ClauseSets.mem s' 2
    /\ (forall i, i ≠ 2 -> ClauseSets.entry s' i = ClauseSets.entry Runs.cs_one i)
    /\ ClauseSets.nElems s'
       = (ClauseSets.nElems Runs.cs_one - (if b then 1 else 0))%Z.
Proof.
  apply (exclude_member Runs.c_a Runs.cs_one).
  - apply wf_cs_one.
  - by eexists.
  - reflexivity.
Defined.

Lemma clear_empties_witness :
  exists s',
    ClauseSets.clear Runs.cs_one = Ok s'
    /\ ClauseSets.wf s'
    /\ (forall i, ~ ClauseSets.mem s' i)
    /\ ClauseSets.nElems s' = 0%Z
    /\ length (ClauseSets.where_ s') = 3%nat.
Proof.
  apply (clear_empties Runs.cs_one). apply wf_cs_one.
Defined.

Lemma update_abst_witness :
  exists s',
    ClauseSets.update (ClauseSets.set_abst 7 Runs.c_a) Runs.cs_one = Ok s'
    /\ ClauseSets.wf s'
    /\ ClauseSets.entry s' 2
       = ClauseSets.set_abst 7 <$> ClauseSets.entry Runs.cs_one 2
    /\ (forall i, i ≠ 2 -> ClauseSets.entry s' i = ClauseSets.entry Runs.cs_one i)
    /\ ClauseSets.where_ s' = ClauseSets.where_ Runs.cs_one
    /\ ClauseSets.free s' = ClauseSets.free Runs.cs_one
    /\ length (ClauseSets.which s') = length (ClauseSets.which Runs.cs_one).
Proof.
  apply (update_abst (ClauseSets.set_abst 7 Runs.c_a) Runs.cs_one).
  apply wf_cs_one.
Defined.
(** ** The touched variables *)

Section TouchFacts.

Import ClauseSets.

(** X19. [touch(x)] keeps [touched_list] the duplicate-free list of the variables
    whose [touched] is set; afterwards [x] is in the list, no other variable
    has joined or left it, and touching [x] again changes nothing. *)
Theorem touch_keeps_ok (x : Var) (s : Touched) :
  touched_ok s -> (N.to_nat x < length (touched s))%nat ->
  exists s',
    touch x s = Ok s'
    /\ touched_ok s'
    /\ (forall y, y ∈ touched_list s' <-> y = x \/ y ∈ touched_list s)
    /\ length (touched s') = length (touched s)
    /\ touch x s' = Ok s'.
Proof.
  intros [Hnd Hmem] Hlt.
  destruct (lookup_lt_is_Some_2 _ _ Hlt) as [t Ht].
  unfold touch. unfold vget at 1. rewrite Ht. cbn [rbind].
  destruct (decide (t = 0)) as [->|Hn].
  - unfold vset. rewrite decide_True by done. cbn [rbind].
    assert (x ∉ touched_list s) as Hx.
    { intros (t & Ht' & Hn)%Hmem. congruence. }
    eexists. split; [done|]. simpl. split_and!.
    + split; simpl.
      * apply NoDup_app. split_and!; [done| |apply NoDup_singleton].
        intros y Hy ->%list_elem_of_singleton. done.
      * intros y. rewrite elem_of_app, list_elem_of_singleton, Hmem.
        destruct (decide (y = x)) as [->|Hne].
        -- rewrite list_lookup_insert_eq by done. split; [|by right].
           intros _. by exists 1.
        -- rewrite list_lookup_insert_ne by lia. split; [|by left].
           by intros [?|?].
    + intros y. rewrite elem_of_app, list_elem_of_singleton. tauto.
    + by rewrite length_insert.
    + unfold vget. rewrite list_lookup_insert_eq by done. cbn [rbind].
      by rewrite decide_False.
  - exists s. split; [done|]. split_and!; [done| |done|].
    + intros y. split; [by right|]. intros [->|?]; [|done].
      apply Hmem. by exists t.
    + unfold vget. rewrite Ht. cbn [rbind]. by rewrite decide_False.
Qed.

End TouchFacts.

Lemma touch_keeps_ok_witness :
  exists s',
    ClauseSets.touch 2 Runs.touched_one = Ok s'
    /\ ClauseSets.touched_ok s'
    /\ (forall y, y ∈ ClauseSets.touched_list s'
                  <-> y = 2 \/ y ∈ ClauseSets.touched_list Runs.touched_one)
    /\ length (ClauseSets.touched s') = length (ClauseSets.touched Runs.touched_one)
    /\ ClauseSets.touch 2 s' = Ok s'.
Proof.
  apply (touch_keeps_ok 2 Runs.touched_one).
  - split; simpl.
    + apply NoDup_singleton.
    + intros y. rewrite list_elem_of_singleton. split.
      * intros ->. by exists 1.
      * intros (t & Ht & Hn).
        destruct (N.to_nat y) as [|[|[|n]]] eqn:E; simpl in Ht; try done;
          injection Ht as <-; try done. lia.
  - simpl. lia.
Defined.
(** ** The names of an option *)

Section OptionNames.

Import Options.

Lemma find_app_here (c : ascii) (l r : str) :
  c ∉ l -> find c (l ++ c :: r) = Some (length l).
Proof.
  intros Hn. unfold find. induction l as [|x l IH]; simpl.
  - by rewrite decide_True.
  - rewrite decide_False; cycle 1.
    { intros ->. apply Hn. apply elem_of_cons. by left. }
    rewrite <- option_fmap_compose.
    assert (c ∉ l) as Hl by (intros ?; apply Hn; apply elem_of_cons; by right).
    specialize (IH Hl). destruct (list_find _ _) as [[n y]|]; simpl in *; [|done].
    congruence.
Qed.

Lemma find_None (c : ascii) (s : str) : c ∉ s -> find c s = None.
Proof.
  intros Hn. unfold find.
  destruct (list_find _ s) as [[n y]|] eqn:E; [|done].
  apply list_find_Some in E as (Hy & -> & _).
  apply list_elem_of_lookup_2 in Hy. done.
Qed.

(** X23. A name with a comma: [set_name("long,c")] succeeds and records the long
    name [long] and the short name [-c]; [name()] is then the long name, or
    [c] if the long name is empty, and [format_name()] is [-c [--long]], or
    [-c] if the long name is empty.  With anything but one character behind
    the first comma, [set_name] fails its assertion. *)
Theorem set_name_with_comma (this_id : Z) (long rest : str) (o : option_description) :
  ","%char ∉ long ->
  (Z.of_nat (length long + length rest) < 2 ^ 64 - 1)%Z ->
  (forall c, rest = [c] ->
     exists o',
       set_name this_id (long ++ ","%char :: rest) o = Ok o'
       /\ m_long_name o' = long /\ m_short_name o' = ["-"%char; c]
       /\ m_id o' = this_id /\ m_description o' = m_description o
       /\ name o' = Ok (if decide (long = []) then [c] else long)
       /\ format_name o'
          = if decide (long = []) then ["-"%char; c]
            else ["-"%char; c] ++ [" "; "["; "-"; "-"]%char ++ long ++ ["]"%char])
  /\ (length rest ≠ 1%nat ->
      set_name this_id (long ++ ","%char :: rest) o
      = Fail (AssertFailed "n == name.size() - 2")).
Proof.
  intros Hn Hlen. unfold set_name. rewrite find_app_here by done.
  rewrite length_app. simpl. split.
  - intros c ->. simpl.
    rewrite decide_True; cycle 1.
    { cbn [length] in Hlen. rewrite Z.mod_small; lia. }
    eexists. split; [done|]. simpl.
    assert (substr 0 (length long) (long ++ [","%char; c]) = long) as ->.
    { unfold substr. by rewrite drop_0, take_app_length. }
    assert (substr (length long + 1) 1 (long ++ [","%char; c]) = [c]) as ->.
    { unfold substr. rewrite (cons_middle ","%char long [c]), app_assoc.
      rewrite drop_app_length'; [done|]. rewrite length_app. simpl. lia. }
    split; [done|]. split; [done|]. split; [done|]. split; [done|].
    unfold name, format_name. simpl.
    destruct long; simpl; by rewrite ?decide_True.
  - intros Hr. rewrite decide_False; [done|].
    destruct rest as [|c [|c' rest]]; cbn [length] in *; [|done|].
    + destruct long; cbn [length] in *.
      * change ((Z.of_nat (0 + 1) - 2) mod 2 ^ 64)%Z with (2 ^ 64 - 1)%Z. lia.
      * rewrite Z.mod_small; lia.
    + rewrite Z.mod_small; lia.
Qed.

(** X24. A name without a comma: [set_name] succeeds.  A name of two characters
    or more is the long name, [name()] returns it and [format_name()] is
    [--name]; a single character [c] is the short name [-c], [name()] is [c]
    and [format_name()] is [-c]; after the empty name, the short name is [-]
    alone and [name()] fails its assertion. *)
Theorem set_name_without_comma (this_id : Z) (nm : str) (o : option_description) :
  ","%char ∉ nm ->
  exists o',
    set_name this_id nm o = Ok o'
    /\ m_id o' = this_id /\ m_description o' = m_description o
    /\ match nm with
       | [] =>
           m_long_name o' = [] /\ m_short_name o' = ["-"%char]
           /\ name o' = Fail (AssertFailed "m_short_name.size() == 2")
           /\ format_name o' = ["-"%char]
       | [c] =>
           m_long_name o' = [] /\ m_short_name o' = ["-"%char; c]
           /\ name o' = Ok [c]
           /\ format_name o' = ["-"%char; c]
       | _ =>
           m_long_name o' = nm /\ m_short_name o' = []
           /\ name o' = Ok nm
           /\ format_name o' = ["-"; "-"]%char ++ nm
       end.
Proof.
  intros Hn. unfold set_name. rewrite find_None by done.
  destruct nm as [|c [|c' nm]]; simpl.
  - eexists. split; [done|]. done.
  - eexists. split; [done|]. done.
  - eexists. split; [done|]. done.
Qed.

End OptionNames.

Lemma set_name_with_comma_witness :
  (forall c, ["h"%char] = [c] ->
     exists o',
       Options.set_name 7 (["h"; "e"; "l"; "p"]%char ++ ","%char :: ["h"%char])
         (Options.mkOption [] [] [] 0) = Ok o'
       /\ Options.m_long_name o' = ["h"; "e"; "l"; "p"]%char
       /\ Options.m_short_name o' = ["-"%char; c]
       /\ Options.m_id o' = 7%Z
       /\ Options.m_description o' = []
       /\ Options.name o'
          = Ok (if decide (["h"; "e"; "l"; "p"]%char = []) then [c]
                else ["h"; "e"; "l"; "p"]%char)
       /\ Options.format_name o'
          = if decide (["h"; "e"; "l"; "p"]%char = []) then ["-"%char; c]
            else ["-"%char; c] ++ [" "; "["; "-"; "-"]%char
                   ++ ["h"; "e"; "l"; "p"]%char ++ ["]"%char])
  /\ (length ["h"%char] ≠ 1%nat ->
      Options.set_name 7 (["h"; "e"; "l"; "p"]%char ++ ","%char :: ["h"%char])
        (Options.mkOption [] [] [] 0)
      = Fail (AssertFailed "n == name.size() - 2")).
Proof.
  apply (set_name_with_comma 7 ["h"; "e"; "l"; "p"]%char ["h"%char]
           (Options.mkOption [] [] [] 0)).
  - intros H. repeat (apply elem_of_cons in H as [H|H]; [discriminate|]).
    by apply elem_of_nil in H.
  - reflexivity.
Defined.

Lemma set_name_without_comma_witness :
  exists o',
    Options.set_name 7 ["h"; "e"; "l"; "p"]%char (Options.mkOption [] [] [] 0) = Ok o'
    /\ Options.m_id o' = 7%Z /\ Options.m_description o' = []
    /\ Options.m_long_name o' = ["h"; "e"; "l"; "p"]%char
    /\ Options.m_short_name o' = []
    /\ Options.name o' = Ok ["h"; "e"; "l"; "p"]%char
    /\ Options.format_name o' = ["-"; "-"; "h"; "e"; "l"; "p"]%char.
Proof.
  apply (set_name_without_comma 7 ["h"; "e"; "l"; "p"]%char
           (Options.mkOption [] [] [] 0)).
  intros H. repeat (apply elem_of_cons in H as [H|H]; [discriminate|]).
  by apply elem_of_nil in H.
Defined.
(** ** Where the loop of analyzeFinal stops *)

Section AnalyzeFinalMore.

Context {Ext : Type} {C : Collaborators Ext}.

Local Abbreviation State := (CommandControl Ext).

Lemma set_seen_at_Ok i b (st : State) :
  (N.to_nat i < length (seen st))%nat ->
  set_seen_at i b st = Ok (tt, set_seen (<[N.to_nat i := b]> (seen st)) st).
Proof.
  intros Hlt. unfold set_seen_at. rewrite bind_gets. unfold id.
  unfold vset. rewrite decide_True by done. reflexivity.
Qed.

(** X21. The loop of [analyzeFinal] leaves at the first literal of the trail whose
    variable is not marked: when [seen] is all zero on entry and the literal
    assigned last is of another variable than [p], the conflict returned is
    [p] alone, whatever the reasons on the trail, and the state is left as it
    was. *)
Theorem analyzeFinal_stops_at_unmarked (p t : Lit) (lim : N) (st : State) :
  decisionLevel st ≠ 0 ->
  Forall (fun b => b = false) (seen st) ->
  (N.to_nat (var p) < length (seen st))%nat ->
  (N.to_nat (var t) < length (seen st))%nat ->
  trail_lim st !! 0%nat = Some lim ->
  (N.to_nat lim < length (trail st))%nat ->
  last (trail st) = Some t ->
  var t ≠ var p ->
  analyzeFinal p st = Ok ([p], st).
Proof.
  intros Hdl Hz Hp Ht Hlim Hlt Hlast Hne.
  unfold analyzeFinal. rewrite bind_gets. unfold id.
  rewrite decide_False by done.
  rewrite (bind_Ok _ _ _ _ _ (set_seen_at_Ok _ true st Hp)).
  rewrite (bind_Ok _ _ _ _ _
             (read_Ok trail_lim 0 (set_seen (<[N.to_nat (var p):=true]> (seen st)) st)
                lim Hlim)).
  apply last_Some in Hlast as [front Hfront].
  assert (reverse (drop (N.to_nat lim) (trail st))
          = t :: reverse (drop (N.to_nat lim) front)) as ->.
  { rewrite Hfront in *. rewrite length_app in Hlt. simpl in Hlt.
    rewrite drop_app_le by lia. by rewrite reverse_snoc. }
  cbn [analyzeFinal_loop].
  assert (forall i, (i < length (seen st))%nat -> seen st !! i = Some false) as Hfalse.
  { intros i Hi. destruct (lookup_lt_is_Some_2 _ _ Hi) as [b Hb].
    rewrite Hb. f_equal. by apply (proj1 (Forall_lookup _ _) Hz i). }
  match goal with
  | |- bind ?m _ ?s = _ => assert (m s = Ok ([p], s)) as Hloop
  end.
  { unfold bind at 1, read, lift, vget. cbn [seen set_seen].
    rewrite list_lookup_insert_ne by lia. by rewrite (Hfalse _ Ht). }
  rewrite (bind_Ok _ _ _ _ _ Hloop).
  assert (N.to_nat (var p)
          < length (seen (set_seen (<[N.to_nat (var p):=true]> (seen st)) st)))%nat
    as Hp'.
  { cbn [seen set_seen]. by rewrite length_insert. }
  rewrite (bind_Ok _ _ _ _ _ (set_seen_at_Ok _ false _ Hp')). unfold ret.
  rewrite set_seen_set_seen. cbn [seen set_seen].
  rewrite list_insert_insert_eq.
  rewrite list_insert_id by (by apply Hfalse).
  by rewrite set_seen_id.
Qed.

End AnalyzeFinalMore.

Lemma analyzeFinal_stops_at_unmarked_witness :
  analyzeFinal (toLit 1) Runs.st_implied = Ok ([toLit 1], Runs.st_implied).
Proof.
  apply (analyzeFinal_stops_at_unmarked (toLit 1) (toLit 2) 0 Runs.st_implied).
  - vm_compute. discriminate.
  - vm_compute. repeat constructor.
  - vm_compute. lia.
  - vm_compute. lia.
  - reflexivity.
  - vm_compute. lia.
  - reflexivity.
  - vm_compute. discriminate.
Defined.
(** ** handle_conflict backtracks *)

Lemma var_neg p : var (neg p) = var p.
Proof.
  unfold var, neg. simpl. apply N.bits_inj. intros n.
  rewrite !N.shiftr_spec by lia. rewrite N.lxor_spec.
  assert (N.testbit 1 (n + 1) = false) as ->; [|by rewrite xorb_false_r].
  change 1 with (2 ^ 0) at 1. rewrite N.pow2_bits_eqb.
  apply N.eqb_neq. lia.
Qed.

Section Backtrack.

Context {Ext : Type} {C : Collaborators Ext}.

Local Abbreviation State := (CommandControl Ext).

(** X22. When every literal of the trail is assigned and [handle_conflict]
    returns [true], the backtrack level that [analyze] gave it is strictly
    below the decision level of the conflict: at any other level the literal
    [learnt_clause[0]] would still be assigned after [cancelUntil], and the
    assertion on its value would fail. *)
Theorem handle_conflict_backtracks params confl (st : State) params' st' :
  (forall t, t ∈ trail st ->
     exists a, assigns st !! N.to_nat (var t) = Some a /\ a ≠ l_Undef) ->
  handle_conflict params confl st = Ok ((true, params'), st') ->
  exists out bt glue st1,
    analyze confl [] (set_numConflicts (wrap64 (numConflicts st + 1)) st)
      = Ok ((out, bt, glue), st1)
    /\ bt < decisionLevel st.
Proof.
  intros Htrail H. unfold handle_conflict in H.
  rewrite bind_modify, bind_gets in H. unfold id in H.
  destruct (decide _) as [|Hdl]; [by apply ret_Ok_inv in H|].
  apply bind_Ok_inv in H as ([[out bt] glue] & st1 & Han & H).
  exists out, bt, glue, st1. split; [done|].
  apply analyze_levels in Han as (Hfr & _ & _ & p & rest & -> & Hp & _).
  cbn beta iota in H.
  apply bind_Ok_inv in H as ([] & st2 & Hupd & H).
  assert (assignment st2 = assignment st) as Hfr2.
  { transitivity (assignment st1); [|exact Hfr].
    destruct (update _); [|by minv].
    rewrite !bind_modify in Hupd. by apply modify_Ok_inv in Hupd as [= ->]. }
  apply assignment_inv in Hfr2 as Hinv. destruct Hinv as (_ & Hdl2 & Htr2).
  destruct (decide (bt < decisionLevel st)) as [|Hge]; [done|]. exfalso.
  apply bind_Ok_inv in H as ([] & st3 & Hc & H).
  rewrite cancelUntil_ge in Hc by (rewrite Hdl2; done).
  injection Hc as <-.
  apply bind_Ok_inv in H as (l0 & s & Hl0 & H).
  apply lift_Ok_inv in Hl0 as (l0' & Hl0 & [= -> ->]).
  apply vget_Ok in Hl0. injection Hl0 as <-.
  apply bind_Ok_inv in H as (v0 & s & Hv0 & H).
  apply value_Ok_inv in Hv0 as (a & Ha & [= -> ->]).
  apply bind_Ok_inv in H as ([] & s & Hassert & _).
  apply assert_Ok_inv in Hassert as [Hu _]. apply bool_decide_eq_true_1 in Hu.
  rewrite var_neg in Ha.
  destruct (Htrail p Hp) as (a' & Ha' & Hn).
  assert (assigns st2 = assigns st) as Has.
  { unfold assignment in Hfr2. by injection Hfr2. }
  rewrite Has in Ha. assert (a' = a) as -> by congruence.
  destruct a; simpl in Hu; try done; by destruct (sign _).
Qed.

End Backtrack.

Lemma handle_conflict_backtracks_witness :
  exists out bt glue st1,
    analyze (C := Examples.quiet) (clause_t 0 0) []
      (set_numConflicts (wrap64 (numConflicts Examples.st_conflict + 1))
         Examples.st_conflict)
      = Ok ((out, bt, glue), st1)
    /\ bt < decisionLevel Examples.st_conflict.
Proof.
  apply (handle_conflict_backtracks (C := Examples.quiet) Examples.params0 (clause_t 0 0)
           Examples.st_conflict (counted Examples.params0) Runs.st_handled).
  - intros t Ht. vm_compute in Ht.
    repeat (apply elem_of_cons in Ht as [->|Ht]; [by eexists; split; [reflexivity|]|]).
    by apply elem_of_nil in Ht.
  - vm_compute. reflexivity.
Defined.
(** ** The trail limits in every state that the search reaches *)

Section KeepsTrailOk.

Context {Ext : Type} {C : Collaborators Ext}.

Local Abbreviation State := (CommandControl Ext).
Local Abbreviation M := (M (Ext := Ext)).

Lemma trail_ok_level_0 (st : State) : trail_lim st = [] -> trail_ok st.
Proof.
  intros H0. unfold trail_ok, decisionLevel. rewrite H0.
  split_and!; [|constructor|done].
  intros i a b Ha. by rewrite lookup_nil in Ha.
Qed.

Lemma kok_keeps {A} (m : M A) : keeps trails m -> keeps_trail_ok m.
Proof.
  intros Hk st a st' Hok H. eapply trail_ok_trails; [|exact Hok]. by eapply Hk.
Qed.

Lemma kok_ret {A} (a : A) : keeps_trail_ok (ret (Ext := Ext) a).
Proof. apply kok_keeps, keeps_ret. Qed.

Lemma kok_fail {A} e : keeps_trail_ok (fail (Ext := Ext) (A := A) e).
Proof. apply kok_keeps, keeps_fail. Qed.

Lemma kok_gets {A} (g : State -> A) : keeps_trail_ok (gets g).
Proof. apply kok_keeps, keeps_gets. Qed.

Lemma kok_lift {A} (r : Res A) : keeps_trail_ok (lift (Ext := Ext) r).
Proof. apply kok_keeps, keeps_lift. Qed.

Lemma kok_read {A} (v : State -> list A) i : keeps_trail_ok (read v i).
Proof. apply kok_keeps, keeps_read. Qed.

Lemma kok_assert b what : keeps_trail_ok (assert (Ext := Ext) b what).
Proof. apply kok_keeps, keeps_assert. Qed.

Lemma kok_modify (g : State -> State) :
  (forall st, trail_ok st -> trail_ok (g st)) -> keeps_trail_ok (modify g).
Proof. intros Hg st u st' Hok H. minv. by apply Hg. Qed.

Lemma kok_bind {A B} (m : M A) (k : A -> M B) :
  keeps_trail_ok m -> (forall a, keeps_trail_ok (k a)) -> keeps_trail_ok (bind m k).
Proof.
  intros Hm Hk st b st' Hok H. minv. eapply Hk; [|eassumption]. eapply Hm; eassumption.
Qed.

Lemma kok_value p : keeps_trail_ok (value (Ext := Ext) p).
Proof. apply kok_keeps. unfold value. keeps_tac. Qed.

Lemma kok_getPointer o : keeps_trail_ok (getPointer (Ext := Ext) o).
Proof. apply kok_keeps. unfold getPointer. keeps_tac. Qed.

Lemma kok_newDecisionLevel : keeps_trail_ok (newDecisionLevel (Ext := Ext)).
Proof.
  intros st a st' Hok H. by apply newDecisionLevel_trail_ok in H.
Qed.

Lemma kok_enqueue p from : keeps_trail_ok (enqueue (Ext := Ext) p from).
Proof. intros st a st' Hok H. by apply enqueue_trail_ok in H. Qed.

Lemma kok_cancelUntil lvl : keeps_trail_ok (cancelUntil (Ext := Ext) lvl).
Proof. intros st a st' Hok H. by apply cancelUntil_trail_ok in H. Qed.

Lemma kok_new_decision params : keeps_trail_ok (new_decision params).
Proof. intros st a st' Hok H. by apply new_decision_trail_ok in H. Qed.

Lemma kok_analyzeFinal p : keeps_trail_ok (analyzeFinal (Ext := Ext) p).
Proof. apply kok_keeps, analyzeFinal_keeps_trails. Qed.

Lemma kok_pickBranchLit : keeps_trail_ok pickBranchLit.
Proof. apply kok_keeps, pickBranchLit_keeps_trails. Qed.

Lemma kok_analyze confl out : keeps_trail_ok (analyze confl out).
Proof.
  apply kok_keeps. unfold analyze, minimiseLearntFurther. keeps_tac;
    first [ by apply analyze_before_keeps
          | by apply minim_select_keeps
          | by apply minim_compact_keeps
          | by apply analyze_after_keeps ].
Qed.

Lemma kok_syncFromThreadControl : keeps_trail_ok (syncFromThreadControl (Ext := Ext)).
Proof. apply kok_keeps. unfold syncFromThreadControl. keeps_tac. Qed.

Lemma kok_checkNeedRestart params : keeps_trail_ok (checkNeedRestart params).
Proof. apply kok_keeps. unfold checkNeedRestart. keeps_tac. Qed.

End KeepsTrailOk.

(** Splits a goal [keeps_trail_ok m] along the structure of [m]. *)
Ltac kok_step :=
  match goal with
  | |- keeps_trail_ok (bind _ _) => apply kok_bind; [|intros]
  | |- keeps_trail_ok (ret _) => apply kok_ret
  | |- keeps_trail_ok (fail _) => apply kok_fail
  | |- keeps_trail_ok (gets _) => apply kok_gets
  | |- keeps_trail_ok (lift _) => apply kok_lift
  | |- keeps_trail_ok (read _ _) => apply kok_read
  | |- keeps_trail_ok (assert _ _) => apply kok_assert
  | |- keeps_trail_ok (modify _) =>
      apply kok_modify; let H := fresh in intros ? H; exact H
  | |- keeps_trail_ok (value _) => apply kok_value
  | |- keeps_trail_ok (getPointer _) => apply kok_getPointer
  | |- keeps_trail_ok newDecisionLevel => apply kok_newDecisionLevel
  | |- keeps_trail_ok (enqueue _ _) => apply kok_enqueue
  | |- keeps_trail_ok (cancelUntil _) => apply kok_cancelUntil
  | |- keeps_trail_ok (new_decision _) => apply kok_new_decision
  | |- keeps_trail_ok (analyzeFinal _) => apply kok_analyzeFinal
  | |- keeps_trail_ok pickBranchLit => apply kok_pickBranchLit
  | |- keeps_trail_ok (analyze _ _) => apply kok_analyze
  | |- keeps_trail_ok syncFromThreadControl => apply kok_syncFromThreadControl
  | |- keeps_trail_ok (checkNeedRestart _) => apply kok_checkNeedRestart
  | |- keeps_trail_ok (if ?b then _ else _) => destruct b
  | |- keeps_trail_ok (match ?x with _ => _ end) => destruct x
  | H : keeps_trail_ok ?m |- keeps_trail_ok ?m => exact H
  | H : forall _, keeps_trail_ok _ |- keeps_trail_ok _ => apply H
  | H : forall _ _, keeps_trail_ok _ |- keeps_trail_ok _ => apply H
  | H : forall _ _ _, keeps_trail_ok _ |- keeps_trail_ok _ => apply H
  | H : forall _ _ _ _, keeps_trail_ok _ |- keeps_trail_ok _ => apply H
  end.

Ltac kok_tac := repeat kok_step.

Section Reachable.

Context {Ext : Type} {C : Collaborators Ext}.

Local Abbreviation State := (CommandControl Ext).

(** What is asked of the functions that are not part of the sources *)
Hypothesis propagate_ok : forall upd, keeps_trail_ok (propagate upd).
Hypothesis attachBinClause_ok :
  forall a b learnt checkUnassigned,
    keeps_trail_ok (attachBinClause a b learnt checkUnassigned).
Hypothesis attachClause_ok : forall offset watch, keeps_trail_ok (attachClause offset watch).
Hypothesis newClauseByThread_ok :
  forall ls glue, keeps_trail_ok (newClauseByThread ls glue).

Lemma kok_addToThreads_loop ts : keeps_trail_ok (addToThreads_loop ts).
Proof using newClauseByThread_ok. induction ts as [|t ts IH]; simpl; kok_tac. Qed.

Lemma kok_addToThreads n : keeps_trail_ok (addToThreads n).
Proof using newClauseByThread_ok.
  unfold addToThreads. kok_tac. apply kok_addToThreads_loop.
Qed.

Lemma kok_handle_conflict_attach learnt bt cl :
  keeps_trail_ok (handle_conflict_attach learnt bt cl).
Proof using attachBinClause_ok attachClause_ok.
  unfold handle_conflict_attach. kok_tac.
Qed.

Lemma kok_handle_conflict params confl : keeps_trail_ok (handle_conflict params confl).
Proof using attachBinClause_ok attachClause_ok newClauseByThread_ok.
  unfold handle_conflict. kok_tac. apply kok_handle_conflict_attach.
Qed.

Lemma kok_addOtherClauses_units units : keeps_trail_ok (addOtherClauses_units (Ext := Ext) units).
Proof. induction units as [|lit units IH]; simpl; kok_tac. Qed.

Lemma kok_handleNewBin binCl : keeps_trail_ok (handleNewBin binCl).
Proof using attachBinClause_ok. unfold handleNewBin. kok_tac. Qed.

Lemma kok_handleNewLong_allFalse cl ixs :
  keeps_trail_ok (handleNewLong_allFalse (Ext := Ext) cl ixs).
Proof. induction ixs as [|i ixs IH]; simpl; kok_tac. Qed.

Lemma kok_handleNewLong_enqueue cl ixs offset :
  keeps_trail_ok (handleNewLong_enqueue (Ext := Ext) cl ixs offset).
Proof. unfold handleNewLong_enqueue. kok_tac. Qed.

Lemma kok_attach_keys ls : keeps_trail_ok (attach_keys (Ext := Ext) ls).
Proof. induction ls as [|l ls IH]; simpl; kok_tac. Qed.

Lemma kok_handleNewLong offset : keeps_trail_ok (handleNewLong offset).
Proof using attachClause_ok.
  unfold handleNewLong. kok_tac;
    first [ apply kok_attach_keys | apply kok_handleNewLong_allFalse
          | apply kok_handleNewLong_enqueue ].
Qed.

Lemma kok_addOtherClauses_bins bins : keeps_trail_ok (addOtherClauses_bins bins).
Proof using attachBinClause_ok.
  induction bins as [|b bins IH]; simpl; kok_tac. apply kok_handleNewBin.
Qed.

Lemma kok_addOtherClauses_longs longs : keeps_trail_ok (addOtherClauses_longs longs).
Proof using attachClause_ok.
  induction longs as [|l longs IH]; simpl; kok_tac. apply kok_handleNewLong.
Qed.

Lemma kok_addOtherClauses : keeps_trail_ok addOtherClauses.
Proof using attachBinClause_ok attachClause_ok.
  unfold addOtherClauses. kok_tac;
    first [ apply kok_addOtherClauses_units | apply kok_addOtherClauses_bins
          | apply kok_addOtherClauses_longs ].
Qed.

Lemma kok_search_loop fuel : forall params, keeps_trail_ok (search_loop fuel params).
Proof using All.
  induction fuel as [|fuel IH]; intros params; cbn [search_loop]; kok_tac;
    first [ apply kok_addToThreads | apply kok_handle_conflict
          | apply kok_addOtherClauses ].
Qed.

Lemma kok_search fuel params : keeps_trail_ok (search fuel params).
Proof using All. unfold search. kok_tac. apply kok_search_loop. Qed.

(** C2, as the code has it.  In every state that the search reaches from a
    state at decision level 0, or from any state where this holds, the trail
    limits are monotone ([trail_lim[i] <= trail_lim[i+1]]), none is beyond
    the trail and their number is [decisionLevel()]: every function that
    [search] and its callees call keeps this, provided that the four
    functions that are not part of the sources do. *)
Theorem trail_lim_monotone_kept (st0 st : State) :
  trail_lim st0 = [] \/ trail_ok st0 ->
  reachable st0 st ->
  trail_ok st.
Proof using All.
  intros H0 Hreach.
  assert (trail_ok st0) as Hok0.
  { destruct H0 as [H0|H0]; [by apply trail_ok_level_0|done]. }
  induction Hreach as
    [ | st upd confl st' _ IH H | st st' _ IH H | st p from st' _ IH H
    | st lvl st' _ IH H | st p out st' _ IH H | st l st' _ IH H
    | st params r st' _ IH H | st confl out r st' _ IH H | st st' _ IH H
    | st params params' st' _ IH H | st n st' _ IH H
    | st params confl r st' _ IH H | st binCl r st' _ IH H
    | st offset r st' _ IH H | st r st' _ IH H | st fuel params r st' _ IH H ];
    [done|..].
  - by eapply propagate_ok.
  - by eapply kok_newDecisionLevel.
  - by eapply kok_enqueue.
  - by eapply kok_cancelUntil.
  - by eapply kok_analyzeFinal.
  - by eapply kok_pickBranchLit.
  - by eapply kok_new_decision.
  - by eapply kok_analyze.
  - by eapply kok_syncFromThreadControl.
  - by eapply kok_checkNeedRestart.
  - by eapply kok_addToThreads.
  - by eapply kok_handle_conflict.
  - by eapply kok_handleNewBin.
  - by eapply kok_handleNewLong.
  - by eapply kok_addOtherClauses.
  - by eapply kok_search.
Qed.

End Reachable.

Lemma trail_lim_monotone_kept_witness :
  trail_lim Examples.st_assumed = [2; 2; 2]
  /\ trail_lim Runs.st_cut = [2]
  /\ trail_ok Runs.st_cut
  /\ trail_ok Runs.st_handled.
Proof.
  assert (forall A (a : A) (st st' : CommandControl unit) b,
            trail_ok st -> ret a st = Ok (b, st') -> trail_ok st') as Hret.
  { intros A a st st' b Hok H. apply ret_Ok_inv in H. by injection H as _ <-. }
  split; [reflexivity|]. split; [reflexivity|]. split.
  - apply (trail_lim_monotone_kept (C := Examples.quiet)
             ltac:(intros upd st a st'; apply Hret)
             ltac:(intros x y l c st a st'; apply Hret)
             ltac:(intros o w st a st'; apply Hret)
             ltac:(intros ls g st a st'; apply Hret)
             Examples.st_assume Runs.st_cut).
    + left. reflexivity.
    + apply (reach_cancelUntil _ Examples.st_assumed 1).
      * apply (reach_new_decision _ Examples.st_assume Examples.params0 l_Undef).
        -- apply reach_here.
        -- vm_compute. reflexivity.
      * vm_compute. reflexivity.
  - apply (trail_lim_monotone_kept (C := Examples.quiet)
             ltac:(intros upd st a st'; apply Hret)
             ltac:(intros x y l c st a st'; apply Hret)
             ltac:(intros o w st a st'; apply Hret)
             ltac:(intros ls g st a st'; apply Hret)
             Examples.st_conflict Runs.st_handled).
    + right. split_and!.
      * intros i a b Ha Hb. vm_compute in Ha, Hb.
        destruct i as [|[|[|i]]]; simplify_eq; lia.
      * vm_compute. repeat constructor.
      * reflexivity.
    + apply (reach_handle_conflict _ Examples.st_conflict Examples.params0 (clause_t 0 0)
               (true, counted Examples.params0)).
      * apply reach_here.
      * vm_compute. reflexivity.
Defined.
